(** * bilietai.lt listing / series extraction pipeline

    A shallow embedding of [scrape_bilietai_lt] from [scrape_events.py]:
    the container/link resolver, the record builder, the two crawl phases
    and the final de-duplication, followed by the properties the
    specification states about them.

    Conventions of the embedding.
    - Python [str] is [string]; the character classes of [str.strip] and of
      the [re] module are the ones Python defines on the code points
      U+0000..U+007F.  Code points above U+007F are outside the strings
      considered here (they are classified as neither space, digit nor
      word character).
    - Values decoded from JSON are [pyval]; JSON numbers are integers
      (a float takes the same branch as an integer everywhere in the code
      embedded here).
    - A document is a tree of tags and strings; a tag object is the
      position of its node in the tree, so that [parent], [find_parent]
      and [find_all] are computed from the document and the position.
    - Code that may raise returns a [result]; the accumulators of a run are
      threaded through the loops as a [crawl_state].
    - Library calls whose result the pipeline only passes along are
      section variables: [urljoin], [json.loads], the UTC clock, the page
      renderer, the iteration order of a Python [set], and the equality the
      table library uses on cells. *)

From Stdlib Require Import ZArith Ascii String.
From stdpp Require Import base option list strings gmap.

Open Scope string_scope.
Open Scope list_scope.

(** ** Python string operations *)

Module PyStr.

Definition code (c : ascii) : nat := nat_of_ascii c.

Definition in_range (lo hi : nat) (c : ascii) : bool :=
  (lo <=? code c)%nat && (code c <=? hi)%nat.

(** The character classes are those of the characters U+0000..U+007F
    ([ascii_only]); a character above this range is in none of them. *)

(** [\d] *)
Definition is_digit (c : ascii) : bool := in_range 48 57 c.

(** [\w]: letters, digits and the underscore *)
Definition is_word (c : ascii) : bool :=
  is_digit c || in_range 65 90 c || in_range 97 122 c || (code c =? 95)%nat.

(** [str.isspace]: TAB, LF, VT, FF, CR, FS, GS, RS, US and the space *)
Definition is_space (c : ascii) : bool :=
  in_range 9 13 c || in_range 28 32 c.

Definition is_empty (s : string) : bool :=
  match s with EmptyString => true | String _ _ => false end.

Fixpoint lstrip (s : string) : string :=
  match s with
  | EmptyString => EmptyString
  | String c s' => if is_space c then lstrip s' else s
  end.

Fixpoint rstrip (s : string) : string :=
  match s with
  | EmptyString => EmptyString
  | String c s' =>
      let r := rstrip s' in
      if is_space c && is_empty r then EmptyString else String c r
  end.

(** [s.strip()] *)
Definition strip (s : string) : string := rstrip (lstrip s).

(** [s.startswith(p)] *)
Definition startswith (p s : string) : bool := String.prefix p s.

(** [sub in s] *)
Fixpoint contains (sub s : string) : bool :=
  String.prefix sub s
  || match s with
     | EmptyString => false
     | String _ s' => contains sub s'
     end.

(** [s[:n]] *)
Fixpoint take (n : nat) (s : string) : string :=
  match n, s with
  | S k, String c s' => String c (take k s')
  | _, _ => EmptyString
  end.

(** [s.split(c, 1)] for a one-character separator: [None] when the
    separator does not occur, otherwise the text before and after its
    first occurrence. *)
Fixpoint split_once (c : ascii) (s : string) : option (string * string) :=
  match s with
  | EmptyString => None
  | String x s' =>
      if Ascii.eqb x c then Some (EmptyString, s')
      else match split_once c s' with
           | Some (b, a) => Some (String x b, a)
           | None => None
           end
  end.

(** [s.split(c)[0]] *)
Definition before (c : ascii) (s : string) : string :=
  match split_once c s with
  | Some (b, _) => b
  | None => s
  end.

(** The characters of [s] are all in U+0000..U+007F. *)
Fixpoint ascii_only (s : string) : bool :=
  match s with
  | EmptyString => true
  | String c s' => (code c <? 128)%nat && ascii_only s'
  end.

(** [sep.join(parts)] *)
Fixpoint join (sep : string) (parts : list string) : string :=
  match parts with
  | [] => EmptyString
  | [p] => p
  | p :: ps => p +:+ sep +:+ join sep ps
  end.

End PyStr.

(** ** Regular expressions of the [re] module

    [search] only asks whether some substring matches, so a matcher by
    derivatives decides it; the match that [time_re] extracts is computed
    by [first_time_from_text] below. *)

Module Re.

Inductive regex : Type :=
| Void
| Eps
| Cls (p : ascii -> bool)
| Seq (r s : regex)
| Alt (r s : regex)
| Star (r : regex).

Fixpoint nullable (r : regex) : bool :=
  match r with
  | Void => false
  | Eps => true
  | Cls _ => false
  | Seq r s => nullable r && nullable s
  | Alt r s => nullable r || nullable s
  | Star _ => true
  end.

Definition seq' (r s : regex) : regex :=
  match r, s with
  | Void, _ => Void
  | _, Void => Void
  | Eps, _ => s
  | _, _ => Seq r s
  end.

Definition alt' (r s : regex) : regex :=
  match r, s with
  | Void, _ => s
  | _, Void => r
  | _, _ => Alt r s
  end.

Fixpoint deriv (c : ascii) (r : regex) : regex :=
  match r with
  | Void => Void
  | Eps => Void
  | Cls p => if p c then Eps else Void
  | Seq r s =>
      if nullable r then alt' (seq' (deriv c r) s) (deriv c s)
      else seq' (deriv c r) s
  | Alt r s => alt' (deriv c r) (deriv c s)
  | Star r => seq' (deriv c r) (Star r)
  end.

Fixpoint fullmatch (r : regex) (s : string) : bool :=
  match s with
  | EmptyString => nullable r
  | String c s' => fullmatch (deriv c r) s'
  end.

Definition chr (c : ascii) : regex := Cls (Ascii.eqb c).

Fixpoint lit (s : string) : regex :=
  match s with
  | EmptyString => Eps
  | String c s' => Seq (chr c) (lit s')
  end.

(** [.] matches everything but a line feed *)
Definition dot : regex := Cls (fun c => negb (Ascii.eqb c "010"%char)).
Definition digit : regex := Cls PyStr.is_digit.
Definition anything : regex := Star (Cls (fun _ => true)).
Definition plus (r : regex) : regex := Seq r (Star r).
Definition opt (r : regex) : regex := Alt Eps r.

(** [pattern.search(s)] as a truth value *)
Definition search (r : regex) (s : string) : bool :=
  fullmatch (Seq anything (Seq r anything)) s.

(** The strings a pattern matches. *)
Inductive matches : regex -> string -> Prop :=
| matches_eps : matches Eps EmptyString
| matches_cls p c : p c = true -> matches (Cls p) (String c EmptyString)
| matches_seq r s u v :
    matches r u -> matches s v -> matches (Seq r s) (u +:+ v)
| matches_alt_l r s u : matches r u -> matches (Alt r s) u
| matches_alt_r r s u : matches s u -> matches (Alt r s) u
| matches_star_nil r : matches (Star r) EmptyString
| matches_star_cons r u v :
    matches r u -> matches (Star r) v -> matches (Star r) (u +:+ v).

End Re.

(** ** Values decoded by [json.loads] *)

#[warnings="-register-all"]
Inductive pyval : Type :=
| PNone
| PBool (b : bool)
| PInt (n : Z)
| PStr (s : string)
| PList (l : list pyval)
| PDict (d : list (string * pyval)).

(** A decoded JSON object: the entries of the Python [dict]; a key is
    looked up at its first entry. *)
Abbreviation pydict := (list (string * pyval)).

Fixpoint assoc {V : Type} (k : string) (d : list (string * V)) : option V :=
  match d with
  | [] => None
  | (k', v) :: d' => if String.eqb k' k then Some v else assoc k d'
  end.

(** [d.get(k, default)] *)
Definition dict_get (d : pydict) (k : string) (default : pyval) : pyval :=
  match assoc k d with
  | Some v => v
  | None => default
  end.

(** [bool(v)] *)
Definition truthy (v : pyval) : bool :=
  match v with
  | PNone => false
  | PBool b => b
  | PInt n => negb (n =? 0)%Z
  | PStr s => negb (PyStr.is_empty s)
  | PList l => match l with [] => false | _ => true end
  | PDict d => match d with [] => false | _ => true end
  end.

(** [v if isinstance(v, dict) else {}] *)
Definition as_dict (v : pyval) : pydict :=
  match v with
  | PDict d => d
  | _ => []
  end.

(** Exceptions and results of code that may raise. *)
Inductive exn : Type := TypeError | AttributeError | ValueError.

Inductive result (A : Type) : Type :=
| Ok (a : A)
| Raise (e : exn).
Arguments Ok {A} a.
Arguments Raise {A} e.

Definition bind {A B : Type} (m : result A) (f : A -> result B) : result B :=
  match m with
  | Ok a => f a
  | Raise e => Raise e
  end.

Notation "x <- m ;; k" := (bind m (fun x => k))
  (at level 100, m at next level, right associativity).

(** A [for] loop whose body may raise. *)
Fixpoint for_each {S A : Type} (body : S -> A -> result S) (st : S) (l : list A)
  : result S :=
  match l with
  | [] => Ok st
  | x :: l' => st' <- body st x ;; for_each body st' l'
  end.

(** ** The document tree of BeautifulSoup *)

Module Soup.

(** The string classes of bs4 that [get_text] tells apart. *)
Inductive strclass : Type :=
| NavigableString | CData | Comment | Declaration | Doctype
| ProcessingInstruction | Script | Stylesheet | TemplateString
| RubyTextString | RubyParenthesisString.

Definition strclass_eqb (a b : strclass) : bool :=
  match a, b with
  | NavigableString, NavigableString | CData, CData | Comment, Comment
  | Declaration, Declaration | Doctype, Doctype
  | ProcessingInstruction, ProcessingInstruction | Script, Script
  | Stylesheet, Stylesheet | TemplateString, TemplateString
  | RubyTextString, RubyTextString
  | RubyParenthesisString, RubyParenthesisString => true
  | _, _ => false
  end.

#[warnings="-register-all"]
Inductive node : Type :=
| Tag (name : string) (attrs : list (string * string)) (children : list node)
| Str (cls : strclass) (text : string).

(** A node is addressed by the child indices on the way from the root
    (the [BeautifulSoup] object, whose [parent] is [None]). *)
Abbreviation pos := (list nat).

Fixpoint subtree (n : node) (p : pos) : option node :=
  match p with
  | [] => Some n
  | i :: p' =>
      match n with
      | Tag _ _ cs =>
          match cs !! i with
          | Some c => subtree c p'
          | None => None
          end
      | Str _ _ => None
      end
  end.

(** [node.parent] *)
Definition parent (p : pos) : option pos :=
  match p with
  | [] => None
  | _ :: _ => Some (removelast p)
  end.

(** [node.parents]: the chain of ancestors, nearest first. *)
Fixpoint parents_upto (fuel : nat) (p : pos) : list pos :=
  match fuel with
  | 0 => []
  | S k =>
      match parent p with
      | None => []
      | Some q => q :: parents_upto k q
      end
  end.

Definition parents (p : pos) : list pos := parents_upto (length p) p.

(** The children [cs], numbered from [i], each followed by its own
    descendants as [desc] lists them. *)
Definition under (desc : node -> list (pos * node))
  : nat -> list node -> list (pos * node) :=
  fix go (i : nat) (cs : list node) : list (pos * node) :=
    match cs with
    | [] => []
    | c :: cs' =>
        ([i], c) :: map (fun d => (i :: fst d, snd d)) (desc c)
          ++ go (S i) cs'
    end.

(** [node.descendants], in document order, each with its position
    relative to [node]. *)
Fixpoint descendants (n : node) : list (pos * node) :=
  match n with
  | Tag _ _ cs => under descendants 0 cs
  | Str _ _ => []
  end.

Definition tag_name (n : node) : option string :=
  match n with
  | Tag name _ _ => Some name
  | Str _ _ => None
  end.

(** [tag.get(a)] *)
Definition attr (a : string) (n : node) : option string :=
  match n with
  | Tag _ attrs _ => assoc a attrs
  | Str _ _ => None
  end.

(** The filter [("a", href=True)]. *)
Definition is_a_href (n : node) : bool :=
  match tag_name n, attr "href" n with
  | Some name, Some _ => String.eqb name "a"
  | _, _ => false
  end.

(** The filter [("script", type="application/ld+json")]. *)
Definition is_jsonld_script (n : node) : bool :=
  match tag_name n, attr "type" n with
  | Some name, Some t =>
      String.eqb name "script" && String.eqb t "application/ld+json"
  | _, _ => false
  end.

(** [node.find_all(...)] *)
Definition find_all (f : node -> bool) (n : node) : list (pos * node) :=
  filter (fun d => f (snd d) = true) (descendants n).

(** [node.find_parent(...)]: the nearest ancestor passing the filter. *)
Definition find_parent (f : node -> bool) (soup : node) (p : pos)
  : option (pos * node) :=
  list_find (fun d : pos * node => f (snd d) = true)
    (omap (fun q => match subtree soup q with
                    | Some n => Some (q, n)
                    | None => None
                    end) (parents p))
  ≫= (fun r => Some (snd r)).

(** The string classes a tag's [get_text] collects
    ([interesting_string_types], as set up by the HTML tree builder). *)
Definition interesting_string_types (name : string) : list strclass :=
  if String.eqb name "script" then [Script]
  else if String.eqb name "style" then [Stylesheet]
  else if String.eqb name "template" then [TemplateString]
  else if String.eqb name "rt" then [RubyTextString]
  else if String.eqb name "rp" then [RubyParenthesisString]
  else [NavigableString; CData].

(** The strings [get_text] joins; the pipeline calls it on tags only. *)
Definition all_strings (strip : bool) (n : node) : list string :=
  match n with
  | Tag name _ _ =>
      omap (fun d =>
              match snd d with
              | Str cls s =>
                  if existsb (strclass_eqb cls) (interesting_string_types name)
                  then if strip
                       then let s' := PyStr.strip s in
                            if PyStr.is_empty s' then None else Some s'
                       else Some s
                  else None
              | Tag _ _ _ => None
              end) (descendants n)
  | Str _ s => [s]
  end.

(** [node.get_text(separator, strip=...)] *)
Definition get_text (separator : string) (strip : bool) (n : node) : string :=
  PyStr.join separator (all_strings strip n).

End Soup.

Import Soup.

(** [list(dict.fromkeys(l))]: the distinct members of [l], each at its
    first occurrence. *)
Fixpoint dict_fromkeys (l : list string) : list string :=
  match l with
  | [] => []
  | x :: l' => x :: filter (fun y => y ≠ x) (dict_fromkeys l')
  end.

(** ** The canonical record *)

Record row : Type := Row {
  title : pyval;
  location : pyval;
  city : pyval;
  start_date : string;
  start_time : string;
  event_link : string;
  ticket_link : pyval;
  scraped_at : string
}.

(** The accumulators of one crawl run, and the number of clock readings
    taken so far. *)
Record crawl_state : Type := CrawlState {
  rows : list row;
  series_links : gset string;
  series_fallback : gmap string row;
  seen_event_pages : gset string;
  clock : nat
}.

Definition initial_state : crawl_state :=
  CrawlState [] ∅ ∅ ∅ 0.

(** [l in series_links] *)
Definition is_pending (l : string) (st : crawl_state) : bool :=
  bool_decide (l ∈ series_links st).

Definition append_row (r : row) (st : crawl_state) : crawl_state :=
  CrawlState (rows st ++ [r]) (series_links st) (series_fallback st)
    (seen_event_pages st) (clock st).

(** ** A small site, used to run the pipeline on concrete pages *)

Module Site.

Definition dq : string := String (ascii_of_nat 34) EmptyString.
Definition qs (s : string) : string := dq +:+ s +:+ dq.
Definition field (k v : string) : string := qs k +:+ ":" +:+ v.
Definition obj (fields : list string) : string :=
  "{" +:+ PyStr.join "," fields +:+ "}".

(** [urljoin] on a root-relative path without dot segments; it raises on
    a reference whose host opens a bracket and does not close it. *)
Definition urljoin (base href : string) : option string :=
  if PyStr.startswith "//[" href && negb (PyStr.contains "]" href)
  then None
  else Some (base +:+ href).

Definition utcnow (n : nat) : string := "2025-04-01T08:00:00Z".

Definition tickets (slug : string) : string :=
  "https://www.bilietai.lt/eng/tickets/" +:+ slug.

(** The JSON text of an event and the value it decodes to. *)
Definition event_json (name start : string) (venue ticket : option string)
  : string :=
  obj ([field "@type" (qs "Event"); field "name" (qs name);
        field "startDate" (qs start)]
       ++ match venue with
          | Some v => [field "location" (obj [field "name" (qs v)])]
          | None => []
          end
       ++ match ticket with
          | Some t => [field "offers" (obj [field "url" (qs t)])]
          | None => []
          end).

Definition event_val (name start : string) (venue ticket : option string)
  : pyval :=
  PDict ([("@type", PStr "Event"); ("name", PStr name);
          ("startDate", PStr start)]
         ++ match venue with
            | Some v => [("location", PDict [("name", PStr v)])]
            | None => []
            end
         ++ match ticket with
            | Some t => [("offers", PDict [("url", PStr t)])]
            | None => []
            end).

(** A card: a link to the event page next to the metadata block. *)
Definition card (href label payload : string) : node :=
  Tag "div" [("class", "card")]
    [Tag "a" [("href", href)] [Str NavigableString label];
     Tag "script" [("type", "application/ld+json")] [Str Script payload]].

Definition page (cards : list node) : node :=
  Tag "[document]" [] [Tag "html" [] [Tag "body" [] cards]].

Definition buy : option string := Some "https://www.bilietai.lt/buy/1".

(** The events of the site: name, startDate, venue, ticket URL. *)
Definition events : list (string * string * option string * option string) :=
  [("Opera", "2025-05-01T19:00", Some "Opera House", buy);
   ("Festival", "2025-05-02", None, None);
   ("Tour", "2025-06-01", None, None);
   ("Circus", "2025-07-01", None, None);
   ("Fair", "2025-08-01", None, None);
   ("Tour night", "2025-06-01T20:00", Some "Arena", buy);
   ("Tour in Kaunas", "2025-06-02T20:00", Some "Arena", buy)].

(** A block whose [startDate] is a number. *)
Definition gala_json : string :=
  obj [field "@type" (qs "Event"); field "startDate" "20250501"].
Definition gala_val : pyval :=
  PDict [("@type", PStr "Event"); ("startDate", PInt 20250501)].

Definition json_loads (raw : string) : option pyval :=
  assoc raw
    (map (fun ev : string * string * option string * option string =>
            let '(name, start, venue, ticket) := ev in
            (event_json name start venue ticket,
             event_val name start venue ticket)) events
     ++ [(gala_json, gala_val)]).

Definition opera_card : node :=
  card "/eng/tickets/opera-1" "Opera, doors 18:30"
    (event_json "Opera" "2025-05-01T19:00" (Some "Opera House") buy).
Definition festival_card : node :=
  card (tickets "festival-100") "Festival"
    (event_json "Festival" "2025-05-02" None None).
Definition tour_card : node :=
  card (tickets "tour-200") "Tour"
    (event_json "Tour" "2025-06-01" None None).
Definition circus_card : node :=
  card (tickets "circus-300") "Circus"
    (event_json "Circus" "2025-07-01" None None).
Definition fair_card : node :=
  card (tickets "fair-400") "Fair"
    (event_json "Fair" "2025-08-01" None None).

Definition gala_card : node :=
  card (tickets "gala-500") "Gala" gala_json.

Definition page1 : node :=
  page [opera_card; festival_card; tour_card; circus_card; fair_card].
Definition page3 : node := page [opera_card].

(** Listing page 1 shows the five cards, page 2 does not load, page 3
    shows the opera again. *)
Definition goto_listing (n : nat) : option node :=
  match n with
  | 1 => Some page1
  | 3 => Some page3
  | _ => None
  end.

(** The blocks of the first two cards: the position of the script tag
    and the event object. *)
Definition opera_block : pos * pydict :=
  ([0; 0; 0; 1]%nat,
   as_dict (event_val "Opera" "2025-05-01T19:00" (Some "Opera House") buy)).
Definition festival_block : pos * pydict :=
  ([0; 0; 1; 1]%nat, as_dict (event_val "Festival" "2025-05-02" None None)).

(** The festival's page lists an occurrence that links to the tour; the
    tour's page lists an occurrence of its own; the circus page does not
    load; the fair's page has no metadata block. *)
Definition goto_series (url : string) : option node :=
  if String.eqb url (tickets "festival-100")
  then Some (page [card (tickets "tour-200") "Tour night"
                     (event_json "Tour night" "2025-06-01T20:00"
                        (Some "Arena") buy)])
  else if String.eqb url (tickets "tour-200")
  then Some (page [card (tickets "tour-kaunas-201") "Tour in Kaunas"
                     (event_json "Tour in Kaunas" "2025-06-02T20:00"
                        (Some "Arena") buy)])
  else if String.eqb url (tickets "fair-400")
  then Some (page [Tag "p" [] [Str NavigableString "Sold out"]])
  else None.

Definition set_iter (s : gset string) : list string := elements s.

(** Python's [==] on the cells that can be hashed. *)
Definition num_of (v : pyval) : option Z :=
  match v with
  | PBool b => Some (Z.b2z b)
  | PInt n => Some n
  | _ => None
  end.

Definition cell_eqb (a b : pyval) : bool :=
  match a, b with
  | PNone, PNone => true
  | PStr x, PStr y => String.eqb x y
  | _, _ =>
      match num_of a, num_of b with
      | Some x, Some y => (x =? y)%Z
      | _, _ => false
      end
  end.

End Site.


(** ** Further pages, used to run the other properties *)

Module Samples.

(** A card whose metadata block sits one level deeper than its link. *)
Definition nested_page : node :=
  Site.page
    [Tag "div" [("class", "card")]
       [Tag "a" [("href", "/eng/tickets/opera-1")]
          [Str NavigableString "Opera"];
        Tag "span" []
          [Tag "script" [("type", "application/ld+json")]
             [Str Script
                (Site.event_json "Opera" "2025-05-01T19:00"
                   (Some "Opera House") Site.buy)]]]].
Definition nested_script : pos := [0; 0; 0; 1; 0]%nat.

(** A card with the links of two events. *)
Definition double_page : node :=
  Site.page
    [Tag "div" [("class", "card")]
       [Tag "a" [("href", "/eng/tickets/opera-1")]
          [Str NavigableString "Opera"];
        Tag "a" [("href", "/eng/tickets/ballet-2")]
          [Str NavigableString "Ballet"];
        Tag "script" [("type", "application/ld+json")]
          [Str Script
             (Site.event_json "Opera" "2025-05-01T19:00"
                (Some "Opera House") Site.buy)]]].
Definition double_script : pos := [0; 0; 0; 2]%nat.
Definition double_card : node :=
  Tag "div" [("class", "card")]
    [Tag "a" [("href", "/eng/tickets/opera-1")]
       [Str NavigableString "Opera"];
     Tag "a" [("href", "/eng/tickets/ballet-2")]
       [Str NavigableString "Ballet"];
     Tag "script" [("type", "application/ld+json")]
       [Str Script
          (Site.event_json "Opera" "2025-05-01T19:00"
             (Some "Opera House") Site.buy)]].

(** A card that names several venues, on a listing page of its own. *)
Definition marker_card : node :=
  Site.card "/eng/tickets/tour-night-210" "Tour night. Different venues"
    (Site.event_json "Tour night" "2025-06-01T20:00" (Some "Arena")
       Site.buy).
Definition marker_page : node := Site.page [marker_card].
Definition marker_block : pos * pydict :=
  ([0; 0; 0; 1]%nat,
   as_dict (Site.event_val "Tour night" "2025-06-01T20:00" (Some "Arena")
              Site.buy)).

(** A card whose link has an [href] that the URL library rejects: the
    host opens a bracket and does not close it. *)
Definition rejected_card : node :=
  Site.card "//[/eng/tickets/a-1" "Opera"
    (Site.event_json "Opera" "2025-05-01T19:00" (Some "Opera House")
       Site.buy).
Definition rejected_page : node := Site.page [rejected_card].
Definition rejected_block : pos * pydict :=
  ([0; 0; 0; 1]%nat,
   as_dict (Site.event_val "Opera" "2025-05-01T19:00" (Some "Opera House")
              Site.buy)).

(** An event object whose ticket URL the URL library rejects. *)
Definition rejected_ticket : pydict :=
  [("@type", PStr "Event"); ("startDate", PStr "2025-05-01");
   ("offers", PDict [("url", PStr "//[x")])].

(** No listing page loads. *)
Definition site_down (n : nat) : option node := None.

(** The lines of an event page of the Šiauliai arena: the time stands
    two lines below the date. *)
Definition event_lines : list string :=
  ["Koncertas"; "Data: 2025-05-01"; "Siauliu arena"; "Pradzia 19:00";
   "Bilietai"].

(** The anchors and the events of a listing page of the Compensa
    hall. *)
Definition href_path (href : string) : option string :=
  if PyStr.startswith "/renginiai/" href then Some href else None.
Definition hrefs : list string :=
  ["/renginiai/jazz"; "/apie"; " /renginiai/rock "; "/renginiai/jazz"].
Definition slugify (title : string) : string :=
  default "" (assoc title [("Jazz", "jazz"); ("Rock", "rock")]).
Definition events : list (string * string) :=
  [("Jazz", "https://www.bilietai.lt/jazz");
   ("Rock", "https://www.bilietai.lt/rock");
   ("Jazz", "https://www.bilietai.lt/jazz-2")].
Definition jazz_link : string :=
  "https://www.compensakoncertusale.lt/renginiai/jazz".
Definition rock_link : string :=
  "https://www.compensakoncertusale.lt/renginiai/rock".

(** A listing of the Twinsbet arena with one event. *)
Definition twinsbet_page : node :=
  Site.page
    [Tag "div" []
       [Tag "a" [("href", "show-1")] [Str NavigableString "  Big   Show "];
        Tag "span" [] [Str NavigableString "Date"];
        Tag "span" [] [Str NavigableString "2025-05-01"];
        Tag "span" [] [Str NavigableString " 19:00 "]]].

End Samples.
(** ** [scrape_bilietai_lt] *)

Section scrape_bilietai_lt.

Set Default Proof Using "Type".

(** [urllib.parse.urljoin]; [None] when it raises [ValueError] *)
Variable urljoin : string -> string -> option string.
(** [json.loads]; [None] when it raises *)
Variable json_loads : string -> option pyval.
(** [datetime.utcnow().isoformat(timespec="seconds") + "Z"] at the n-th
    reading of the clock *)
Variable utcnow : nat -> string.
(** [page.goto] followed by [BeautifulSoup(await page.content(), ...)]:
    the parsed listing page number [n], resp. the parsed page at a series
    link; [None] when [goto] raises *)
Variable goto_listing : nat -> option node.
Variable goto_series : string -> option node.
(** the order in which iterating a [set] yields its members *)
Variable set_iter : gset string -> list string.
(** whether the table library takes two cells to be equal *)
Variable cell_eqb : pyval -> pyval -> bool.

Definition site_root : string := "https://www.bilietai.lt".

Definition locale : Re.regex := Re.Alt (Re.lit "eng") (Re.lit "lit").

(** [/(?:eng|lit)/tickets/.+-\d+] *)
Definition event_page_re : Re.regex :=
  Re.Seq (Re.chr "/")
    (Re.Seq locale
       (Re.Seq (Re.lit "/tickets/")
          (Re.Seq (Re.plus Re.dot)
             (Re.Seq (Re.chr "-") (Re.plus Re.digit))))).

(** [https?://(?:www\.)?bilietai\.lt/(?:eng|lit)/tickets/.+-\d+] *)
Definition abs_event_page_re : Re.regex :=
  Re.Seq (Re.lit "http")
    (Re.Seq (Re.opt (Re.chr "s"))
       (Re.Seq (Re.lit "://")
          (Re.Seq (Re.opt (Re.lit "www."))
             (Re.Seq (Re.lit "bilietai.lt") event_page_re)))).

Definition abs_url (href : string) : result string :=
  match urljoin site_root href with
  | Some u => Ok u
  | None => Raise ValueError
  end.

Definition split_dt (s : pyval) : result (string * string) :=
  if negb (truthy s) then Ok ("", "")
  else
    match s with
    | PStr s =>
        match PyStr.split_once "T" s with
        | Some (d, t) => Ok (PyStr.strip d, PyStr.take 5 (PyStr.strip t))
        | None => Ok (PyStr.strip s, "")
        end
    | PList _ | PDict _ => Raise AttributeError
    | _ => Raise TypeError
    end.

(** Reads one character per class from the head of [s]: the text read
    and the rest. *)
Fixpoint match_classes (ps : list (ascii -> bool)) (s : string)
  : option (string * string) :=
  match ps with
  | [] => Some (EmptyString, s)
  | p :: ps' =>
      match s with
      | EmptyString => None
      | String c s' =>
          if p c
          then match match_classes ps' s' with
               | Some (m, rest) => Some (String c m, rest)
               | None => None
               end
          else None
      end
  end.

Definition at_word_end (rest : string) : bool :=
  match rest with
  | EmptyString => true
  | String c _ => negb (PyStr.is_word c)
  end.

(** One attempt of [(\d{1,2}:\d{2})\b] at the head of [s], with the given
    number of leading digits. *)
Definition time_attempt (leading : nat) (s : string) : option string :=
  match match_classes
          (repeat PyStr.is_digit leading
             ++ [Ascii.eqb ":"%char; PyStr.is_digit; PyStr.is_digit]) s with
  | Some (m, rest) => if at_word_end rest then Some m else None
  | None => None
  end.

(** The match at the head of [s]: two leading digits are tried before one. *)
Definition time_here (s : string) : option string :=
  match time_attempt 2 s with
  | Some m => Some m
  | None => time_attempt 1 s
  end.

(** [time_re.search]: the leftmost position with a match; [prev_word]
    tells whether the character before [s] is a word character. *)
Fixpoint time_search (prev_word : bool) (s : string) : option string :=
  match (if prev_word then None else time_here s) with
  | Some m => Some m
  | None =>
      match s with
      | EmptyString => None
      | String c s' => time_search (PyStr.is_word c) s'
      end
  end.

Definition first_time_from_text (text : string) : string :=
  match time_search false text with
  | Some m => m
  | None => ""
  end.

Definition is_event (d : pydict) : bool :=
  match assoc "@type" d with
  | Some (PStr t) => String.eqb t "Event"
  | _ => false
  end.

(** The pairs the generator yields: the position of the script tag and
    the event object. *)
Definition iter_event_jsonld (soup : node) : list (pos * pydict) :=
  flat_map
    (fun s : pos * node =>
       let raw := get_text "" true (snd s) in
       if PyStr.is_empty raw then []
       else
         match json_loads raw with
         | None => []
         | Some data =>
             let objs := match data with PList l => l | _ => [data] end in
             omap (fun obj =>
                     match obj with
                     | PDict d => if is_event d then Some (fst s, d) else None
                     | _ => None
                     end) objs
         end)
    (find_all is_jsonld_script soup).

(** The link an [href] stands for when it has the shape of an event
    page ([None] otherwise); the resolver applies this test to the
    enclosing link and to each link under an ancestor. *)
Definition detail_link (href : string) : result (option string) :=
  if PyStr.startswith "/" href && Re.search event_page_re href
  then u <- abs_url href ;; Ok (Some u)
  else if Re.search abs_event_page_re href
       then Ok (Some (PyStr.before "#" href))
       else Ok None.

Definition href_of (n : node) : string := default "" (attr "href" n).

(** The loop [for a2 in node.find_all("a", href=True)] that fills
    [links], over the anchors found. *)
Fixpoint links_of (anchors : list (pos * node)) : result (list string) :=
  match anchors with
  | [] => Ok []
  | a2 :: anchors' =>
      l <- detail_link (href_of (snd a2)) ;;
      links <- links_of anchors' ;;
      Ok (match l with
          | Some u => u :: links
          | None => links
          end)
  end.

(** The [links] list built at one ancestor. *)
Definition links_under (n : node) : result (list string) :=
  links_of (find_all is_a_href n).

(** The loop [for _ in range(10)] with its cursor [node]. *)
Fixpoint ascend (soup : node) (fuel : nat) (cur : pos)
  : result (option pos * string) :=
  match fuel with
  | 0 => Ok (None, "")
  | S fuel' =>
      match parent cur with
      | None => Ok (None, "")
      | Some up =>
          match subtree soup up with
          | None => Ok (None, "")
          | Some n =>
              links <- links_under n ;;
              match dict_fromkeys links with
              | [u] => Ok (Some up, u)
              | _ => ascend soup fuel' up
              end
          end
      end
  end.

Definition find_container_and_event_link (soup : node) (script_tag : pos)
  : result (option pos * string) :=
  match find_parent is_a_href soup script_tag with
  | Some (a, n) =>
      l <- detail_link (href_of n) ;;
      match l with
      | Some link => Ok (Some a, link)
      | None => ascend soup 10 script_tag
      end
  | None => ascend soup 10 script_tag
  end.

Definition node_at (soup : node) (container : option pos) : option node :=
  container ≫= subtree soup.

(** [container.get_text(" ", strip=True) if container else ""] *)
Definition flat_text (container : option node) : string :=
  match container with
  | Some c => get_text " " true c
  | None => ""
  end.

Definition row_from_event (now : string) (e : pydict)
    (container : option node) (event_page_link : string) : result row :=
  let start_raw := dict_get e "startDate" (PStr "") in
  dt <- split_dt start_raw ;;
  let container_text := flat_text container in
  let start_time :=
    if PyStr.is_empty (snd dt) then first_time_from_text container_text
    else snd dt in
  let loc := as_dict (dict_get e "location" PNone) in
  let addr := as_dict (dict_get loc "address" PNone) in
  let offers := as_dict (dict_get e "offers" PNone) in
  ticket_link <-
    match dict_get offers "url" (PStr "") with
    | PStr t =>
        if PyStr.startswith "/" t then u <- abs_url t ;; Ok (PStr u)
        else Ok (PStr t)
    | v => Ok v
    end ;;
  Ok {| title := dict_get e "name" (PStr "");
        location := dict_get loc "name" (PStr "");
        city := dict_get addr "addressLocality" (PStr "");
        start_date := fst dt;
        start_time := start_time;
        event_link := event_page_link;
        ticket_link := ticket_link;
        scraped_at := now |}.

(** [container.get_text() if container else ""] *)
Definition raw_text (container : option node) : string :=
  match container with
  | Some c => get_text "" false c
  | None => ""
  end.

Definition is_series (r : row) (container : option node) : bool :=
  negb (truthy (location r))
  || PyStr.contains "Different venues" (raw_text container).

(** The body of the loop over the blocks of one listing page. *)
Definition listing_block (soup : node) (st : crawl_state) (b : pos * pydict)
  : result crawl_state :=
  res <- find_container_and_event_link soup (fst b) ;;
  let '(container, event_page_link) := res in
  if PyStr.is_empty event_page_link
     || bool_decide (event_page_link ∈ seen_event_pages st)
  then Ok st
  else
    let seen := {[event_page_link]} ∪ seen_event_pages st in
    r <- row_from_event (utcnow (clock st)) (snd b)
           (node_at soup container) event_page_link ;;
    if is_series r (node_at soup container)
    then Ok (CrawlState (rows st)
               ({[event_page_link]} ∪ series_links st)
               (<[event_page_link := r]> (series_fallback st))
               seen (S (clock st)))
    else Ok (CrawlState (rows st ++ [r]) (series_links st)
               (series_fallback st) seen (S (clock st))).

(** The body of the loop over the listing pages. *)
Definition listing_page (st : crawl_state) (page_num : nat)
  : result crawl_state :=
  match goto_listing page_num with
  | None => Ok st
  | Some soup => for_each (listing_block soup) st (iter_event_jsonld soup)
  end.

Definition listing_phase (pages_to_check : Z) (st : crawl_state)
  : result crawl_state :=
  for_each listing_page st (seq 1 (Z.to_nat pages_to_check)).

(** [rows.append(series_fallback[series_url])] under the test
    [series_url in series_fallback]. *)
Definition emit_fallback (series_url : string) (st : crawl_state)
  : crawl_state :=
  match series_fallback st !! series_url with
  | Some r => append_row r st
  | None => st
  end.

(** The body of the loop over the blocks of a series page; the flag is
    [found]. *)
Definition series_block (soup : node) (series_url : string)
    (acc : crawl_state * bool) (b : pos * pydict)
  : result (crawl_state * bool) :=
  let st := fst acc in
  let e := snd b in
  let loc := dict_get e "location" (PDict []) in
  let offers := dict_get e "offers" (PDict []) in
  match loc, offers with
  | PDict loc, PDict offers =>
      if negb (truthy (dict_get loc "name" PNone)) then Ok acc
      else if negb (truthy (dict_get offers "url" PNone)) then Ok acc
      else
        res <- find_container_and_event_link soup (fst b) ;;
        let '(container, link) := res in
        if PyStr.is_empty link || String.eqb link series_url then Ok acc
        else
          r <- row_from_event (utcnow (clock st)) e
                 (node_at soup container) link ;;
          Ok (CrawlState (rows st ++ [r]) (series_links st)
                (series_fallback st) (seen_event_pages st) (S (clock st)),
              true)
  | _, _ => Ok acc
  end.

(** The body of the loop over the pending series links. *)
Definition series_step (st : crawl_state) (series_url : string)
  : result crawl_state :=
  match goto_series series_url with
  | None => Ok (emit_fallback series_url st)
  | Some soup =>
      acc <- for_each (series_block soup series_url) (st, false)
               (iter_event_jsonld soup) ;;
      if negb (snd acc) then Ok (emit_fallback series_url (fst acc))
      else Ok (fst acc)
  end.

Definition series_phase (st : crawl_state) : result crawl_state :=
  for_each series_step st (set_iter (series_links st)).

(** The cells of the columns named in [subset]. *)
Definition dedup_key (r : row) : list pyval :=
  [title r; PStr (start_date r); PStr (start_time r); location r].

Definition hashable (v : pyval) : bool :=
  match v with
  | PList _ | PDict _ => false
  | _ => true
  end.

Fixpoint key_eqb (k1 k2 : list pyval) : bool :=
  match k1, k2 with
  | [], [] => true
  | a :: k1', b :: k2' => cell_eqb a b && key_eqb k1' k2'
  | _, _ => false
  end.

(** The rows [duplicated(keep="first")] does not mark: [seen] holds the
    keys met so far. *)
Fixpoint keep_first (seen : list (list pyval)) (l : list row) : list row :=
  match l with
  | [] => []
  | r :: l' =>
      if existsb (key_eqb (dedup_key r)) seen then keep_first seen l'
      else r :: keep_first (dedup_key r :: seen) l'
  end.

(** [pd.DataFrame(rows).drop_duplicates(subset=[...]).reset_index(drop=True)]:
    an empty frame is returned as it is; a cell of a key column that
    cannot be hashed makes the call raise. *)
Definition drop_duplicates (l : list row) : result (list row) :=
  match l with
  | [] => Ok []
  | _ =>
      if forallb (fun r => forallb hashable (dedup_key r)) l
      then Ok (keep_first [] l)
      else Raise TypeError
  end.

(** The rows accumulated by the two phases, before de-duplication. *)
Definition crawl (pages_to_check : Z) : result crawl_state :=
  st <- listing_phase pages_to_check initial_state ;;
  series_phase st.

Definition scrape_bilietai_lt (pages_to_check : Z) : result (list row) :=
  st <- crawl pages_to_check ;;
  drop_duplicates (rows st).


(** ** Notions used to state the properties *)

(** The links of the records in the output accumulator. *)
Definition row_links (st : crawl_state) : list string :=
  event_link <$> rows st.

(** What holds of the accumulators while the listing pages are read. *)
Record listing_inv (st : crawl_state) : Prop := ListingInv {
  inv_rows_nodup : NoDup (row_links st);
  inv_seen : ∀ l, l ∈ seen_event_pages st ↔
                  l ∈ row_links st ∨ l ∈ series_links st;
  inv_disjoint : ∀ l, l ∈ row_links st → l ∉ series_links st;
  inv_fallback_dom : ∀ l, l ∈ series_links st ↔
                          is_Some (series_fallback st !! l);
  inv_fallback_link : ∀ l r, series_fallback st !! l = Some r →
                             event_link r = l;
  inv_nonempty : "" ∉ seen_event_pages st
}.

(** No link is both the link of a record in the output accumulator and a
    pending series link. *)
Definition link_roles_exclusive (st : crawl_state) : Prop :=
  ∀ r, r ∈ rows st → event_link r ≠ "" → event_link r ∉ series_links st.

(** A state met during the series phase of a run over [pages_to_check]
    listing pages: [st1] is the state the listing phase ends in, and
    [st] is reached from it after the loop has gone through [visited]. *)
Definition in_series_phase (pages_to_check : Z) (st1 : crawl_state)
    (visited : list string) (st : crawl_state) : Prop :=
  listing_phase pages_to_check initial_state = Ok st1
  ∧ for_each series_step st1 visited = Ok st.

(** The pair the resolver returns for a block; no container and the
    empty link where it raises. *)
Definition resolved (soup : node) (b : pos * pydict) : option pos * string :=
  match find_container_and_event_link soup (fst b) with
  | Ok res => res
  | Raise _ => (None, "")
  end.

(** The link the resolver returns for a block, and its container. *)
Definition resolved_link (soup : node) (b : pos * pydict) : string :=
  snd (resolved soup b).

Definition resolved_container (soup : node) (b : pos * pydict)
  : option node :=
  node_at soup (fst (resolved soup b)).

(** [r] is the record built from block [b] of [soup] at some reading of
    the clock. *)
Definition built_from (soup : node) (b : pos * pydict) (r : row) : Prop :=
  ∃ now, row_from_event now (snd b) (resolved_container soup b)
           (resolved_link soup b) = Ok r.

(** An event object with a non-empty venue name and a non-empty ticket
    URL. *)
Definition has_venue_and_ticket (e : pydict) : bool :=
  match dict_get e "location" (PDict []), dict_get e "offers" (PDict []) with
  | PDict loc, PDict offers =>
      truthy (dict_get loc "name" PNone)
      && truthy (dict_get offers "url" PNone)
  | _, _ => false
  end.

(** The resolver returns on every block of [soup] that has a venue and
    a ticket URL: these are the blocks the loop over a series page
    resolves. *)
Definition resolver_returns (soup : node) : Prop :=
  ∀ b, b ∈ iter_event_jsonld soup → has_venue_and_ticket (snd b) = true →
       ∃ res, find_container_and_event_link soup (fst b) = Ok res.

(** Iterating a set yields each of its members once. *)
Definition set_iter_enumerates : Prop :=
  ∀ s, NoDup (set_iter s) ∧ ∀ x, x ∈ set_iter s ↔ x ∈ s.

(** The ticket URL of the event object is no site-relative path, or the
    URL library joins it to the site root. *)
Definition ticket_url_joins (e : pydict) : Prop :=
  match dict_get (as_dict (dict_get e "offers" PNone)) "url" (PStr "") with
  | PStr t => PyStr.startswith "/" t = true → is_Some (urljoin site_root t)
  | _ => True
  end.

(** The blocks of a series page that qualify: venue and ticket URL are
    there, a link was resolved, and it is not the series link itself. *)
Definition qualifies (soup : node) (series_url : string)
    (b : pos * pydict) : bool :=
  has_venue_and_ticket (snd b)
  && negb (PyStr.is_empty (resolved_link soup b))
  && negb (String.eqb (resolved_link soup b) series_url).

Definition expansion (soup : node) (series_url : string)
  : list (pos * pydict) :=
  filter (fun b => qualifies soup series_url b = true)
    (iter_event_jsonld soup).

(** [s] is one of the strings of the container [c] that [get_text]
    collects: the text of a string node beneath [c] whose class is one
    that [c] takes. *)
Definition container_string (c : node) (s : string) : Prop :=
  ∃ name attrs cs q cls,
    c = Tag name attrs cs
    ∧ (q, Str cls s) ∈ descendants c
    ∧ existsb (strclass_eqb cls) (interesting_string_types name) = true.

(** [listing_reach st st']: the listing phase, being in state [st], gets
    to [st'] by running the loop body on further blocks and pages. *)
Inductive listing_reach : crawl_state → crawl_state → Prop :=
| reach_here st : listing_reach st st
| reach_block soup st b st' st'' :
    listing_block soup st b = Ok st' →
    listing_reach st' st'' → listing_reach st st''
| reach_page st n st' st'' :
    listing_page st n = Ok st' →
    listing_reach st' st'' → listing_reach st st''.

(** The table library's equality of cells is an equivalence on the cells
    that can be hashed. *)
Definition cell_equivalence : Prop :=
  (∀ a, hashable a = true → cell_eqb a a = true)
  ∧ (∀ a b, hashable a = true → hashable b = true →
            cell_eqb a b = true → cell_eqb b a = true)
  ∧ (∀ a b c, hashable a = true → hashable b = true → hashable c = true →
              cell_eqb a b = true → cell_eqb b c = true →
              cell_eqb a c = true).

(** Two records with the same [(title, start_date, start_time, location)]. *)
Definition same_key (r1 r2 : row) : bool :=
  key_eqb (dedup_key r1) (dedup_key r2).

(** The records of [l] that are the first with their key, [earlier]
    being the records that come before [l]. *)
Fixpoint first_occurrences (earlier l : list row) : list row :=
  match l with
  | [] => []
  | r :: l' =>
      if existsb (same_key r) earlier
      then first_occurrences (earlier ++ [r]) l'
      else r :: first_occurrences (earlier ++ [r]) l'
  end.

Definition hashable_key (r : row) : bool := forallb hashable (dedup_key r).

(** The [i]-th ancestor of the node at [p], nearest first: its position
    and the subtree it roots. *)
Definition ancestor (soup : node) (p : pos) (i : nat) : option (pos * node) :=
  match parents p !! i with
  | Some q =>
      match subtree soup q with
      | Some n => Some (q, n)
      | None => None
      end
  | None => None
  end.

(** The detail-shaped links beneath [n], de-duplicated by URL, are the
    single link [u]. *)
Definition sole_link (n : node) (u : string) : Prop :=
  ∃ links, links_under n = Ok links ∧ ∀ x, x ∈ links ↔ x = u.

(** The links beneath [n] are read, and de-duplicated by URL they are
    not exactly one. *)
Definition no_sole_link (n : node) : Prop :=
  ∃ links, links_under n = Ok links ∧ ¬ ∃ u, ∀ x, x ∈ links ↔ x = u.

Definition ambiguous_upto (soup : node) (p : pos) (bound : nat) : Prop :=
  ∀ j up n, (j < bound)%nat → ancestor soup p j = Some (up, n) →
            no_sole_link n.

(** [a], with subtree [n], is the link element that encloses the node at
    [p] most closely: the nearest ancestor that is an [a] tag with an
    [href]. *)
Definition enclosing_link (soup : node) (p : pos) (a : pos) (n : node)
  : Prop :=
  ∃ i, ancestor soup p i = Some (a, n)
       ∧ is_a_href n = true
       ∧ ∀ j a' n', (j < i)%nat → ancestor soup p j = Some (a', n') →
                    is_a_href n' = false.

Definition no_enclosing_detail_link (soup : node) (p : pos) : Prop :=
  ∀ a n, enclosing_link soup p a n → detail_link (href_of n) = Ok None.

(** What the resolver is to return for the block at [script_tag], in the
    words of its contract. *)
Inductive resolves (soup : node) (script_tag : pos)
  : option pos * string → Prop :=
| resolves_enclosing a n link :
    enclosing_link soup script_tag a n →
    detail_link (href_of n) = Ok (Some link) →
    resolves soup script_tag (Some a, link)
| resolves_ancestor i up n u :
    no_enclosing_detail_link soup script_tag →
    (i < 10)%nat →
    ancestor soup script_tag i = Some (up, n) →
    sole_link n u →
    ambiguous_upto soup script_tag i →
    resolves soup script_tag (Some up, u)
| resolves_nothing :
    no_enclosing_detail_link soup script_tag →
    ambiguous_upto soup script_tag 10 →
    resolves soup script_tag (None, "").

(** Where the resolver raises: the URL library rejects the [href] of the
    enclosing link element; or, there being no enclosing link to an event
    page, it rejects an [href] beneath one of the first ten ancestors,
    the nearer ancestors having been passed over. *)
Definition resolver_raises (soup : node) (script_tag : pos) : Prop :=
  (∃ a n, enclosing_link soup script_tag a n
          ∧ detail_link (href_of n) = Raise ValueError)
  ∨ (no_enclosing_detail_link soup script_tag
     ∧ ∃ i up n, (i < 10)%nat
                 ∧ ancestor soup script_tag i = Some (up, n)
                 ∧ links_under n = Raise ValueError
                 ∧ ambiguous_upto soup script_tag i).

(** The URL library joins the [href] of every link element of the
    document to the site root. *)
Definition hrefs_join (soup : node) : Prop :=
  ∀ p a, subtree soup p = Some a → is_a_href a = true →
         is_Some (urljoin site_root (href_of a)).

(** [m] has as many characters as there are classes in [ps], each in its
    class. *)
Fixpoint fits (ps : list (ascii → bool)) (m : string) : bool :=
  match ps, m with
  | [], EmptyString => true
  | p :: ps', String c m' => p c && fits ps' m'
  | _, _ => false
  end.

Definition time_classes (leading : nat) : list (ascii → bool) :=
  repeat PyStr.is_digit leading
    ++ [Ascii.eqb ":"%char; PyStr.is_digit; PyStr.is_digit].

(** An hour:minute token: one or two digits, a colon, two digits. *)
Fixpoint digits (s : string) : bool :=
  match s with
  | EmptyString => true
  | String c s' => PyStr.is_digit c && digits s'
  end.

Definition is_time_token (m : string) : Prop :=
  ∃ h mi, m = h +:+ ":" +:+ mi
          ∧ (String.length h = 1 ∨ String.length h = 2)%nat
          ∧ String.length mi = 2%nat
          ∧ digits h = true ∧ digits mi = true.

Fixpoint ends_with_word (s : string) : bool :=
  match s with
  | EmptyString => false
  | String c EmptyString => PyStr.is_word c
  | String _ s' => ends_with_word s'
  end.

Definition starts_with_word (s : string) : bool :=
  match s with
  | EmptyString => false
  | String c _ => PyStr.is_word c
  end.

(** [m] is a token of [text] standing between word boundaries, after
    [pre] and before [post]. *)
Definition time_at (text pre m post : string) : Prop :=
  text = pre +:+ m +:+ post
  ∧ is_time_token m
  ∧ ends_with_word pre = false
  ∧ starts_with_word post = false.

(** [m] is the first such token of [text], or the empty string when
    [text] has none. *)
Definition first_time (text m : string) : Prop :=
  (∃ pre post,
      time_at text pre m post
      ∧ ∀ pre' m' post', time_at text pre' m' post' →
                         (String.length pre ≤ String.length pre')%nat)
  ∨ (m = "" ∧ ∀ pre' m' post', ¬ time_at text pre' m' post').

(** ** Further notions *)

(** [r] is the fallback record cached for the pending series link it
    carries. *)
Definition is_cached_fallback (st : crawl_state) (r : row) : Prop :=
  event_link r ∈ series_links st
  ∧ series_fallback st !! event_link r = Some r.


(** [r] is a record the builder returns, for some event object,
    container and link. *)
Definition is_built (r : row) : Prop :=
  ∃ now e container link, row_from_event now e container link = Ok r.

(** ** Fragments of the other scrapers *)

(** *** [scrape_compensa]: the year of an event *)

(** [guess_year]; [today.year] and [today.month] of
    [datetime.today().date()] are arguments. *)
Definition guess_year (today_year today_month month_num : Z) : Z :=
  if (month_num - today_month <? -6)%Z then (today_year + 1)%Z
  else today_year.

(** *** [scrape_siauliuarena]: the date and the time of an event page *)

(** [\d{4}-\d{2}-\d{2}] *)
Definition date_classes : list (ascii → bool) :=
  [PyStr.is_digit; PyStr.is_digit; PyStr.is_digit; PyStr.is_digit;
   Ascii.eqb "-"%char; PyStr.is_digit; PyStr.is_digit;
   Ascii.eqb "-"%char; PyStr.is_digit; PyStr.is_digit].

(** [date_re.search(line)]: the leftmost match, [None] when there is
    none. *)
Fixpoint date_search (s : string) : option string :=
  match match_classes date_classes s with
  | Some (m, _) => Some m
  | None =>
      match s with
      | EmptyString => None
      | String _ s' => date_search s'
      end
  end.

(** The loop [for j in range(idx + 1, min(idx + 5, len(lines)))] over
    the lines after the one with the date: the first time found, or the
    initial [time_str].  (An index of the range is below [len(lines)].) *)
Fixpoint time_in_lines (lines : list string) (js : list nat) : string :=
  match js with
  | [] => ""
  | j :: js' =>
      match lines !! j with
      | Some l =>
          match time_search false l with
          | Some m => m
          | None => time_in_lines lines js'
          end
      | None => ""
      end
  end.

(** The loop [for idx, line in enumerate(lines)], from the line of
    index [idx] on: the pair [(date_str, time_str)] it leaves. *)
Fixpoint scan_lines (lines : list string) (idx : nat) (rest : list string)
  : string * string :=
  match rest with
  | [] => ("", "")
  | line :: rest' =>
      match date_search line with
      | None => scan_lines lines (S idx) rest'
      | Some d =>
          (d,
           match time_search false line with
           | Some m => m
           | None =>
               time_in_lines lines
                 (seq (S idx) (Nat.min (idx + 5) (length lines) - S idx))
           end)
      end
  end.

Definition date_time_of_lines (lines : list string) : string * string :=
  scan_lines lines 0 lines.

(** A date token: four digits, a dash, two digits, a dash, two digits. *)
Definition is_date (m : string) : Prop := fits date_classes m = true.

(** The first time of day found in the lines [ls], taken in order; the
    empty string when none has one. *)
Fixpoint first_time_among (ls : list string) : string :=
  match ls with
  | [] => ""
  | l :: ls' =>
      match time_search false l with
      | Some m => m
      | None => first_time_among ls'
      end
  end.

(** *** [scrape_compensa]: the event-page link of an event

    The state of the loop over the events of one listing page:
    [link_idx] and [last_link_for_title]; [event_page_links] is the list
    built from the anchors of the page. *)
Record link_state : Type := LinkState {
  link_idx : nat;
  last_link_for_title : gmap string string
}.

(** The loop [for j in range(link_idx, min(link_idx + 8, len(links)))]:
    the first index whose link contains the slug, with that link.  (An
    index of the range is below [len(event_page_links)].) *)
Fixpoint find_slug (title_slug : string) (event_page_links : list string)
    (js : list nat) : option (nat * string) :=
  match js with
  | [] => None
  | j :: js' =>
      match event_page_links !! j with
      | Some l =>
          if negb (PyStr.is_empty title_slug) && PyStr.contains title_slug l
          then Some (j, l)
          else find_slug title_slug event_page_links js'
      | None => None
      end
  end.

(** The link an event gets, and the state it leaves: a link of the next
    eight that contains the slug of the title; otherwise the next link;
    and, once the links are used up, the link last given to the same
    title, or the ticket link. *)
Definition assign_link (event_page_links : list string)
    (title title_slug ticket_link : string) (st : link_state)
  : string * link_state :=
  let by_slug :=
    find_slug title_slug event_page_links
      (seq (link_idx st)
         (Nat.min (link_idx st + 8) (length event_page_links)
          - link_idx st)) in
  let '(event_link, idx) :=
    match by_slug with
    | Some (j, l) => (Some l, S j)
    | None => (None, link_idx st)
    end in
  let '(event_link, idx) :=
    match event_link with
    | Some _ => (event_link, idx)
    | None =>
        if (idx <? length event_page_links)%nat
        then (event_page_links !! idx, S idx)
        else (None, idx)
    end in
  let event_link :=
    match event_link with
    | Some l => l
    | None =>
        match last_link_for_title st !! title with
        | Some l => if PyStr.is_empty l then ticket_link else l
        | None => ticket_link
        end
    end in
  (event_link,
   LinkState idx (<[title := event_link]> (last_link_for_title st))).

(** The loop over the anchors of a listing page, which builds
    [event_page_links]: [hrefs] are the [href] values of the anchors, in
    document order; [href_path] stands for [href_re.match] and its group
    [path]; [seen] is the set of the links met so far. *)
Fixpoint collect_links (href_path : string → option string)
    (hrefs : list string) (seen : gset string) : list string :=
  match hrefs with
  | [] => []
  | href :: hrefs' =>
      match href_path (PyStr.strip href) with
      | None => collect_links href_path hrefs' seen
      | Some path =>
          let full := "https://www.compensakoncertusale.lt" +:+ path in
          if bool_decide (full ∈ seen)
          then collect_links href_path hrefs' seen
          else full :: collect_links href_path hrefs' ({[full]} ∪ seen)
      end
  end.

Definition event_page_links (href_path : string → option string)
    (hrefs : list string) : list string :=
  collect_links href_path hrefs ∅.

(** The links given to the events of one page that reach the
    assignment, in order; an event is its title and its ticket link. *)
Fixpoint assign_links (slugify : string → string)
    (event_page_links : list string) (events : list (string * string))
    (st : link_state) : list string :=
  match events with
  | [] => []
  | (title, ticket_link) :: events' =>
      let '(event_link, st') :=
        assign_link event_page_links title (slugify title) ticket_link st in
      event_link :: assign_links slugify event_page_links events' st'
  end.

(** *** [scrape_twinsbet]

    The page is the parsed document; [previous] and [following] are
    [previous_elements] and [next_elements] of a node: the nodes before
    it in document order, nearest first, and the nodes after it. *)

Record venue_event : Type := VenueEvent {
  ev_name : string;
  ev_location : string;
  ev_city : string;
  ev_date : string;
  ev_time : string;
  ev_link : string
}.

(** [re.search(r"\d{4}-\d{2}-\d{2}", s)] as a truth value *)
Definition has_date (s : string) : bool :=
  match date_search s with
  | Some _ => true
  | None => false
  end.

(** [^\s*\d{2}:\d{2}\s*$]: between [^] and [$] the pattern takes the
    whole text (a final line feed that [$] would leave out is white
    space, which [\s*] takes as well). *)
Definition time_line_re : Re.regex :=
  Re.Seq (Re.Star (Re.Cls PyStr.is_space))
    (Re.Seq Re.digit
       (Re.Seq Re.digit
          (Re.Seq (Re.chr ":")
             (Re.Seq Re.digit
                (Re.Seq Re.digit (Re.Star (Re.Cls PyStr.is_space))))))).

(** [s.split()]: the maximal runs of characters that are no white
    space. *)
Fixpoint split_ws (s : string) : list string :=
  match s with
  | EmptyString => []
  | String c s' =>
      if PyStr.is_space c then split_ws s'
      else
        match s' with
        | EmptyString => [String c EmptyString]
        | String c' _ =>
            if PyStr.is_space c' then String c EmptyString :: split_ws s'
            else
              match split_ws s' with
              | w :: ws => String c w :: ws
              | [] => [String c EmptyString]
              end
        end
  end.

Definition is_valid_name_text (s : string) : bool :=
  if PyStr.is_empty s || PyStr.is_empty (PyStr.strip s) then false
  else
    let text := PyStr.strip s in
    if PyStr.contains "Price from" text || PyStr.contains "Buy a ticket" text
    then false
    else if existsb (String.eqb text) ["Category"; "All categories"; "Date"]
    then false
    else if has_date text then false
    else true.

(** [find_next(string=...)] and [find_previous(string=...)]: the first
    string of [els] that passes the test. *)
Fixpoint find_string (f : string → bool) (els : list node) : option string :=
  match els with
  | [] => None
  | Str _ s :: els' => if f s then Some s else find_string f els'
  | Tag _ _ _ :: els' => find_string f els'
  end.

(** [find_previous("a", href=True)]: the first tag of [els] that passes
    the filter. *)
Fixpoint find_tag (f : node → bool) (els : list node) : option node :=
  match els with
  | [] => None
  | n :: els' => if f n then Some n else find_tag f els'
  end.

Definition twinsbet_url : string := "https://twinsbetarena.lt/en/events/".

(** The body of the loop over [date_nodes], for a string with a date. *)
Definition twinsbet_event (previous : list node) (text : string)
    (following : list node) : result (option venue_event) :=
  match date_search text with
  | None => Ok None
  | Some date_str =>
      let time_str :=
        match find_string (Re.fullmatch time_line_re) following with
        | Some time_node => PyStr.strip time_node
        | None => ""
        end in
      let event_name :=
        match find_string is_valid_name_text previous with
        | Some name_node => PyStr.join " " (split_ws (PyStr.strip name_node))
        | None => ""
        end in
      event_link <-
        match find_tag is_a_href previous with
        | Some link_tag =>
            match urljoin twinsbet_url (href_of link_tag) with
            | Some u => Ok u
            | None => Raise ValueError
            end
        | None => Ok ""
        end ;;
      Ok (Some (VenueEvent event_name "Twinsbet Arena" "Vilnius"
                  date_str time_str event_link))
  end.

(** The loop over [soup.find_all(string=...)], as a walk through the
    document: the strings with a date, each with the nodes before and
    after it. *)
Fixpoint twinsbet_walk (previous following : list node)
  : result (list venue_event) :=
  match following with
  | [] => Ok []
  | n :: following' =>
      new <- match n with
             | Str _ text =>
                 if has_date text
                 then e <- twinsbet_event previous text following' ;;
                      Ok (match e with
                          | Some e => [e]
                          | None => []
                          end)
                 else Ok []
             | Tag _ _ _ => Ok []
             end ;;
      events <- twinsbet_walk (n :: previous) following' ;;
      Ok (new ++ events)
  end.

Definition twinsbet_events (soup : node) : result (list venue_event) :=
  twinsbet_walk [] (snd <$> descendants soup).

Definition venue_event_eqb (a b : venue_event) : bool :=
  String.eqb (ev_name a) (ev_name b)
  && String.eqb (ev_location a) (ev_location b)
  && String.eqb (ev_city a) (ev_city b)
  && String.eqb (ev_date a) (ev_date b)
  && String.eqb (ev_time a) (ev_time b)
  && String.eqb (ev_link a) (ev_link b).

(** [drop_duplicates()] over all the columns, which hold texts: a row
    equal to an earlier one is dropped. *)
Fixpoint drop_equal_rows (seen l : list venue_event) : list venue_event :=
  match l with
  | [] => []
  | e :: l' =>
      if existsb (venue_event_eqb e) seen then drop_equal_rows seen l'
      else e :: drop_equal_rows (e :: seen) l'
  end.

Definition scrape_twinsbet (soup : node) : result (list venue_event) :=
  events <- twinsbet_events soup ;;
  Ok (drop_equal_rows [] events).

(** [\d{2}:\d{2}] *)
Definition clock_classes : list (ascii → bool) :=
  [PyStr.is_digit; PyStr.is_digit; Ascii.eqb ":"%char;
   PyStr.is_digit; PyStr.is_digit].

(** A text of white space only. *)
Fixpoint blank (s : string) : bool :=
  match s with
  | EmptyString => true
  | String c s' => PyStr.is_space c && blank s'
  end.

(** A string node whose text holds a date. *)
Definition is_dated_string (n : node) : bool :=
  match n with
  | Str _ text => has_date text
  | Tag _ _ _ => false
  end.
(** * Properties *)

(** Drops the library calls a goal does not mention. *)
Local Ltac drop_unused :=
  try clear cell_eqb; try clear set_iter; try clear goto_series;
  try clear goto_listing; try clear utcnow; try clear json_loads;
  try clear urljoin.

(** Takes the hypotheses apart and closes a goal they contradict. *)
Local Ltac outcome_kinds :=
  repeat match goal with
         | H : _ ∧ _ |- _ => destruct H
         | H : _ ∨ _ |- _ => destruct H
         | H : ∃ _, _ |- _ => destruct H
         end;
  subst; simpl in *; solve [done | congruence | eauto].

(** ** Loops and results *)

Lemma bind_Ok {A B : Type} (m : result A) (f : A → result B) (b : B) :
  bind m f = Ok b → ∃ a, m = Ok a ∧ f a = Ok b.
Proof. destruct m as [a|e]; simpl; [eauto | discriminate]. Qed.

Lemma for_each_app {S A : Type} (body : S → A → result S) st l1 l2 :
  for_each body st (l1 ++ l2)
  = bind (for_each body st l1) (fun st' => for_each body st' l2).
Proof.
  revert st. induction l1 as [|x l1 IH]; intros st; simpl; [done|].
  destruct (body st x) as [st'|e]; simpl; [apply IH | done].
Qed.

Lemma for_each_invariant {S A : Type} (body : S → A → result S)
    (P : S → Prop) :
  (∀ st x st', P st → body st x = Ok st' → P st') →
  ∀ l st st', P st → for_each body st l = Ok st' → P st'.
Proof.
  intros Hstep. induction l as [|x l IH]; intros st st' HP Hrun; simpl in *.
  - by simplify_eq.
  - apply bind_Ok in Hrun as (st1 & Hx & Hrest). eauto.
Qed.

(** ** The record builder *)

Lemma row_from_event_fields now e container link r :
  row_from_event now e container link = Ok r →
  event_link r = link
  ∧ scraped_at r = now
  ∧ title r = dict_get e "name" (PStr "")
  ∧ location r
    = dict_get (as_dict (dict_get e "location" PNone)) "name" (PStr "")
  ∧ city r
    = dict_get
        (as_dict (dict_get (as_dict (dict_get e "location" PNone))
                    "address" PNone))
        "addressLocality" (PStr "").
Proof.
  unfold row_from_event. intros H.
  apply bind_Ok in H as (dt & _ & H).
  apply bind_Ok in H as (ticket & _ & H). by simplify_eq.
Qed.

Lemma row_from_event_link now e container link r :
  row_from_event now e container link = Ok r → event_link r = link.
Proof. intros H. by apply row_from_event_fields in H as (? & _). Qed.

Lemma is_empty_true s : PyStr.is_empty s = true ↔ s = "".
Proof. destruct s; simpl; split; congruence. Qed.

Lemma is_empty_false s : PyStr.is_empty s = false ↔ s ≠ "".
Proof. destruct s; simpl; split; congruence. Qed.

(** ** The listing phase *)

(** The two ways a block of a listing page leaves the loop body. *)
Lemma listing_block_cases soup st b st' :
  listing_block soup st b = Ok st' →
  let res := resolved soup b in
  (st' = st ∧ (snd res = "" ∨ snd res ∈ seen_event_pages st))
  ∨ (snd res ≠ "" ∧ (snd res ∉ seen_event_pages st)
     ∧ ∃ r, row_from_event (utcnow (clock st)) (snd b)
              (node_at soup (fst res)) (snd res) = Ok r
            ∧ st' = if is_series r (node_at soup (fst res))
                    then CrawlState (rows st)
                           ({[(snd res)]} ∪ series_links st)
                           (<[(snd res) := r]> (series_fallback st))
                           ({[(snd res)]} ∪ seen_event_pages st)
                           (S (clock st))
                    else CrawlState (rows st ++ [r]) (series_links st)
                           (series_fallback st)
                           ({[(snd res)]} ∪ seen_event_pages st)
                           (S (clock st))).
Proof.
  unfold listing_block, resolved.
  destruct (find_container_and_event_link soup (fst b))
    as [[container link]|e]; [|done].
  simpl. destruct (PyStr.is_empty link) eqn:Hempty; simpl.
  - intros ?; simplify_eq. left. split; [done|].
    left. by apply is_empty_true.
  - case_bool_decide as Hseen; simpl.
    + intros ?; simplify_eq. left. auto.
    + intros H. apply bind_Ok in H as (r & Hr & H). right.
      split; [by apply is_empty_false|]. split; [done|].
      exists r. split; [done|].
      destruct (is_series r (node_at soup container)); by simplify_eq.
Qed.

Lemma initial_state_inv : listing_inv initial_state.
Proof. drop_unused.
  split; unfold row_links; simpl.
  - constructor.
  - intros l. rewrite elem_of_nil, !elem_of_empty. tauto.
  - intros l. by rewrite elem_of_nil.
  - intros l. rewrite lookup_empty, elem_of_empty. split; [done|].
    by intros [? ?].
  - intros l r. by rewrite lookup_empty.
  - apply not_elem_of_empty.
Qed.

Lemma listing_block_inv soup st b st' :
  listing_inv st → listing_block soup st b = Ok st' → listing_inv st'.
Proof. drop_unused.
  intros Hinv H. apply listing_block_cases in H. simpl in H.
  destruct H as [[-> _] | (Hne & Hfresh & r & Hr & ->)]; [done|].
  apply row_from_event_link in Hr.
  set (link := snd (resolved soup b)) in *.
  destruct Hinv as [Hnd Hseen Hdisj Hdom Hlink Hnon].
  assert (link ∉ row_links st) as Hrow by (rewrite Hseen in Hfresh; tauto).
  assert (link ∉ series_links st) as Hser by (rewrite Hseen in Hfresh; tauto).
  destruct (is_series r _); split; unfold row_links in *; simpl.
  - done.
  - intros l. rewrite !elem_of_union, !elem_of_singleton, Hseen. tauto.
  - intros l Hl. rewrite elem_of_union, elem_of_singleton.
    intros [-> | ?]; [done | by eapply Hdisj].
  - intros l. rewrite elem_of_union, elem_of_singleton, lookup_insert.
    case_decide; subst; rewrite ?Hdom; split; eauto.
    intros [? | ?]; [congruence | done].
  - intros l r'. rewrite lookup_insert.
    case_decide; [by intros; simplify_eq | apply Hlink].
  - rewrite elem_of_union, elem_of_singleton. intros [? | ?]; congruence.
  - rewrite fmap_app. simpl. apply NoDup_app. split; [done|].
    split; [|apply NoDup_singleton].
    intros l Hl. rewrite list_elem_of_singleton. intros ->. congruence.
  - intros l. rewrite fmap_app, elem_of_app, elem_of_union,
      elem_of_singleton, Hseen. simpl. rewrite list_elem_of_singleton, Hr.
    tauto.
  - intros l. rewrite fmap_app, elem_of_app. simpl.
    rewrite list_elem_of_singleton, Hr.
    intros [? | ->]; [by apply Hdisj | done].
  - done.
  - done.
  - rewrite elem_of_union, elem_of_singleton. intros [? | ?]; congruence.
Qed.

Lemma listing_page_inv st n st' :
  listing_inv st → listing_page st n = Ok st' → listing_inv st'.
Proof.
  unfold listing_page. destruct (goto_listing n) as [soup|].
  - intros Hinv. apply for_each_invariant; [|done].
    intros ????. by apply listing_block_inv.
  - by intros ? ?; simplify_eq.
Qed.

Lemma listing_phase_inv pages st1 :
  listing_phase pages initial_state = Ok st1 → listing_inv st1.
Proof.
  apply for_each_invariant; [|apply initial_state_inv].
  intros ????. by apply listing_page_inv.
Qed.

Lemma listing_block_seen soup st b st' :
  listing_block soup st b = Ok st' →
  seen_event_pages st ⊆ seen_event_pages st'
  ∧ (resolved_link soup b ≠ "" → resolved_link soup b ∈ seen_event_pages st').
Proof.
  intros H. apply listing_block_cases in H. simpl in H.
  unfold resolved_link.
  destruct H as [[-> [He | Hin]] | (Hne & Hfresh & r & Hr & ->)].
  - split; [done | congruence].
  - split; [done | auto].
  - destruct (is_series r _); simpl; split;
      solve [apply union_subseteq_r
            | intros _; apply elem_of_union_l; by apply elem_of_singleton].
Qed.

Lemma listing_page_seen st n st' :
  listing_page st n = Ok st' →
  seen_event_pages st ⊆ seen_event_pages st'.
Proof.
  unfold listing_page. destruct (goto_listing n) as [soup|].
  - intros H.
    eapply (for_each_invariant (listing_block soup)
              (fun s => seen_event_pages st ⊆ seen_event_pages s));
      [|reflexivity|exact H].
    intros s b s' Hs Hb. apply listing_block_seen in Hb as [Hb _].
    by etrans.
  - by intros ?; simplify_eq.
Qed.

(** ** The series phase *)

Lemma emit_fallback_some url st fb :
  series_fallback st !! url = Some fb →
  emit_fallback url st = append_row fb st.
Proof. unfold emit_fallback. by intros ->. Qed.

(** The two ways a block of a series page leaves the loop body. *)
Lemma series_block_cases soup url st found b acc' :
  series_block soup url (st, found) b = Ok acc' →
  (qualifies soup url b = false ∧ acc' = (st, found))
  ∨ (qualifies soup url b = true
     ∧ ∃ r, row_from_event (utcnow (clock st)) (snd b)
              (resolved_container soup b) (resolved_link soup b) = Ok r
            ∧ acc' = (CrawlState (rows st ++ [r]) (series_links st)
                        (series_fallback st) (seen_event_pages st)
                        (S (clock st)), true)).
Proof.
  unfold series_block, qualifies, has_venue_and_ticket, resolved_link,
    resolved_container, resolved. simpl.
  destruct (dict_get (snd b) "location" (PDict [])) as [| | | |?|loc];
    try (intros ?; simplify_eq; by left).
  destruct (dict_get (snd b) "offers" (PDict [])) as [| | | |?|offers];
    try (intros ?; simplify_eq; by left).
  destruct (truthy (dict_get loc "name" PNone)); simpl;
    [|intros ?; simplify_eq; by left].
  destruct (truthy (dict_get offers "url" PNone)); simpl;
    [|intros ?; simplify_eq; by left].
  destruct (find_container_and_event_link soup (fst b))
    as [[container link]|e]; [|done].
  simpl. destruct (PyStr.is_empty link); simpl;
    [intros ?; simplify_eq; by left|].
  destruct (String.eqb link url); simpl;
    [intros ?; simplify_eq; by left|].
  intros H. apply bind_Ok in H as (r & Hr & H). simplify_eq.
  right. eauto.
Qed.

Lemma qualifies_true soup url b :
  qualifies soup url b = true →
  has_venue_and_ticket (snd b) = true
  ∧ resolved_link soup b ≠ "" ∧ resolved_link soup b ≠ url.
Proof.
  unfold qualifies. rewrite !andb_true_iff, !negb_true_iff.
  intros [[? ?%is_empty_false] ?%String.eqb_neq]. done.
Qed.

Lemma series_block_skip soup url acc b :
  qualifies soup url b = false →
  (has_venue_and_ticket (snd b) = true →
   ∃ res, find_container_and_event_link soup (fst b) = Ok res) →
  series_block soup url acc b = Ok acc.
Proof.
  unfold series_block, qualifies, has_venue_and_ticket, resolved_link,
    resolved.
  destruct (dict_get (snd b) "location" (PDict [])) as [| | | |?|loc];
    try done.
  destruct (dict_get (snd b) "offers" (PDict [])) as [| | | |?|offers];
    try done.
  destruct (truthy (dict_get loc "name" PNone)); [|done].
  destruct (truthy (dict_get offers "url" PNone)); [|done].
  intros Hq [[container link] Hres]; [done|]. rewrite Hres in *.
  simpl in *. destruct (PyStr.is_empty link); [done|].
  by destruct (String.eqb link url).
Qed.

(** When no block qualifies, the inner loop returns and changes nothing,
    the resolver returning on the blocks it is called on. *)
Lemma series_blocks_skip soup url l acc :
  filter (fun b => qualifies soup url b = true) l = [] →
  (∀ b, b ∈ l → has_venue_and_ticket (snd b) = true →
        ∃ res, find_container_and_event_link soup (fst b) = Ok res) →
  for_each (series_block soup url) acc l = Ok acc.
Proof.
  induction l as [|b l IH]; simpl; [done|].
  destruct (qualifies soup url b) eqn:Hq.
  - by rewrite filter_cons_True.
  - rewrite filter_cons_False by congruence. intros Hl Hret.
    rewrite series_block_skip;
      [|done|apply Hret; by apply elem_of_cons; left].
    simpl. apply IH; [done|].
    intros b' Hb'. apply Hret. by apply elem_of_cons; right.
Qed.

Lemma series_block_raise soup url acc b e :
  has_venue_and_ticket (snd b) = true →
  find_container_and_event_link soup (fst b) = Raise e →
  series_block soup url acc b = Raise e.
Proof.
  unfold series_block, has_venue_and_ticket.
  destruct (dict_get (snd b) "location" (PDict [])) as [| | | |?|loc];
    try done.
  destruct (dict_get (snd b) "offers" (PDict [])) as [| | | |?|offers];
    try done.
  destruct (truthy (dict_get loc "name" PNone)); [|done].
  destruct (truthy (dict_get offers "url" PNone)); [|done].
  by intros _ ->.
Qed.

(** When no block qualifies, the inner loop changes nothing where it
    returns, and where it does not, it raises what the resolver raises
    on a block with a venue and a ticket URL. *)
Lemma series_blocks_skip_cases soup url l acc :
  filter (fun b => qualifies soup url b = true) l = [] →
  match for_each (series_block soup url) acc l with
  | Ok acc' => acc' = acc
  | Raise e =>
      ∃ b, b ∈ l ∧ has_venue_and_ticket (snd b) = true
           ∧ find_container_and_event_link soup (fst b) = Raise e
  end.
Proof.
  induction l as [|b l IH]; simpl; [done|].
  destruct (qualifies soup url b) eqn:Hq.
  { by rewrite filter_cons_True. }
  rewrite filter_cons_False by congruence. intros Hl.
  specialize (IH Hl).
  assert (series_block soup url acc b = Ok acc
          ∨ ∃ e, series_block soup url acc b = Raise e
                 ∧ has_venue_and_ticket (snd b) = true
                 ∧ find_container_and_event_link soup (fst b) = Raise e)
    as [-> | (e & -> & Hv & He)].
  { destruct (find_container_and_event_link soup (fst b)) as [res|e] eqn:Hres.
    - left. apply series_block_skip; eauto.
    - destruct (has_venue_and_ticket (snd b)) eqn:Hv.
      + right. exists e. split; [by apply series_block_raise | done].
      + left. apply series_block_skip; [done | congruence]. }
  - simpl. destruct (for_each (series_block soup url) acc l) as [acc'|e];
      [done|].
    destruct IH as (b' & Hb' & ?). exists b'.
    split; [by apply elem_of_cons; right | done].
  - simpl. exists b. split; [by apply elem_of_cons; left | done].
Qed.

(** A turn on a page without a qualifying block: where it returns, it
    has taken the fallback branch; where it does not, it raises what
    the resolver raises on a block with a venue and a ticket URL. *)
Lemma series_step_no_expansion_cases st url soup :
  goto_series url = Some soup → expansion soup url = [] →
  match series_step st url with
  | Ok st' => st' = emit_fallback url st
  | Raise e =>
      ∃ b, b ∈ iter_event_jsonld soup
           ∧ has_venue_and_ticket (snd b) = true
           ∧ find_container_and_event_link soup (fst b) = Raise e
  end.
Proof.
  intros Hgo Hexp. unfold series_step. rewrite Hgo.
  pose proof (series_blocks_skip_cases soup url (iter_event_jsonld soup)
                (st, false) Hexp) as Hloop.
  destruct (for_each _ _ _) as [acc|e]; [|done]. by subst acc.
Qed.

Lemma series_step_no_expansion st url soup :
  goto_series url = Some soup → expansion soup url = [] →
  resolver_returns soup →
  series_step st url = Ok (emit_fallback url st).
Proof.
  intros Hgo Hexp Hret. unfold series_step. rewrite Hgo.
  by rewrite series_blocks_skip.
Qed.

(** A run of the inner loop appends one record per qualifying block, in
    order, and touches nothing else but the clock. *)
Lemma series_blocks_run soup url l st found st' found' :
  for_each (series_block soup url) (st, found) l = Ok (st', found') →
  ∃ new,
    rows st' = rows st ++ new
    ∧ Forall2 (built_from soup)
        (filter (fun b => qualifies soup url b = true) l) new
    ∧ found' = found || negb (bool_decide (new = []))
    ∧ series_links st' = series_links st
    ∧ series_fallback st' = series_fallback st
    ∧ seen_event_pages st' = seen_event_pages st
    ∧ (new = [] → st' = st).
Proof.
  revert st found. induction l as [|b l IH]; intros st found H; simpl in H.
  - simplify_eq. exists []. rewrite app_nil_r. simpl.
    rewrite orb_false_r. split_and!; auto.
  - apply bind_Ok in H as ([st1 found1] & Hb & Hrest).
    apply series_block_cases in Hb
      as [[Hq ?] | (Hq & r & Hr & ?)]; simplify_eq.
    + apply IH in Hrest as (new & ? & ? & ? & ? & ? & ? & ?).
      exists new. rewrite filter_cons_False by congruence. done.
    + apply IH in Hrest as (new & Hrows & Hnew & ? & ? & ? & ? & ?).
      simpl in *. exists (r :: new).
      rewrite filter_cons_True by done.
      split; [by rewrite Hrows, <- app_assoc|].
      split; [constructor; [by eexists | done]|].
      split; [by rewrite orb_true_r|]. done.
Qed.

(** What one turn of the loop over the series links does. *)
Lemma series_step_cases st url st' :
  series_step st url = Ok st' →
  series_links st' = series_links st
  ∧ series_fallback st' = series_fallback st
  ∧ seen_event_pages st' = seen_event_pages st
  ∧ match goto_series url with
    | None => st' = emit_fallback url st
    | Some soup =>
        match expansion soup url with
        | [] => st' = emit_fallback url st
        | _ :: _ =>
            ∃ new, rows st' = rows st ++ new
                   ∧ Forall2 (built_from soup) (expansion soup url) new
        end
    end.
Proof.
  unfold series_step, expansion.
  destruct (goto_series url) as [soup|].
  - intros H. apply bind_Ok in H as ([st2 found] & Hrun & H).
    apply series_blocks_run in Hrun
      as (new & Hrows & Hnew & -> & Hl & Hf & Hs & Hsame).
    simpl in H.
    destruct (filter _ _) as [|b q] eqn:Hq.
    + inversion Hnew; subst. rewrite (Hsame eq_refl) in *. simpl in H.
      simplify_eq.
      split_and!; try done; unfold emit_fallback;
        by destruct (series_fallback st !! url).
    + inversion Hnew as [|? r ? new' Hb Hnew']; subst.
      simpl in H. simplify_eq. split_and!; eauto.
  - intros ?; simplify_eq.
    split_and!; try done; unfold emit_fallback;
      by destruct (series_fallback st !! url).
Qed.

Lemma series_phase_keeps st1 visited st :
  for_each series_step st1 visited = Ok st →
  series_links st = series_links st1
  ∧ series_fallback st = series_fallback st1
  ∧ seen_event_pages st = seen_event_pages st1.
Proof.
  intros H.
  eapply (for_each_invariant series_step
            (fun s => series_links s = series_links st1
                      ∧ series_fallback s = series_fallback st1
                      ∧ seen_event_pages s = seen_event_pages st1));
    [|split_and!; reflexivity|exact H].
  intros s url s' (Hl & Hf & Hs) Hstep.
  apply series_step_cases in Hstep as (-> & -> & -> & _). done.
Qed.

(** The series phase only appends to the output accumulator. *)
Lemma series_phase_appends st1 visited st :
  for_each series_step st1 visited = Ok st →
  ∃ expanded, rows st = rows st1 ++ expanded.
Proof.
  intros H.
  eapply (for_each_invariant series_step
            (fun s => ∃ expanded, rows s = rows st1 ++ expanded));
    [|by exists []; rewrite app_nil_r|exact H].
  intros s url s' [expanded Hs] Hstep.
  apply series_step_cases in Hstep as (_ & _ & _ & Hc).
  assert (∃ new, rows s' = rows s ++ new) as [new Hnew].
  { unfold emit_fallback, append_row in Hc.
    destruct (goto_series url) as [soup|].
    - destruct (expansion soup url).
      + destruct (series_fallback s !! url); subst s'; simpl; eauto.
        exists []. by rewrite app_nil_r.
      + destruct Hc as (new & ? & _). eauto.
    - destruct (series_fallback s !! url); subst s'; simpl; eauto.
      exists []. by rewrite app_nil_r. }
  exists (expanded ++ new). by rewrite Hnew, Hs, app_assoc.
Qed.

(** Every pending series link has its fallback record, at every state
    of the series phase. *)
Lemma series_phase_fallback pages st1 visited st url :
  in_series_phase pages st1 visited st →
  url ∈ series_links st1 →
  ∃ fb, series_fallback st !! url = Some fb ∧ event_link fb = url.
Proof.
  intros [H1 H2] Hurl.
  apply listing_phase_inv in H1 as [_ _ _ Hdom Hlink _].
  apply series_phase_keeps in H2 as (_ & -> & _).
  apply Hdom in Hurl as [fb Hfb]. eauto.
Qed.

Lemma listing_reach_inv st st' :
  listing_reach st st' → listing_inv st → listing_inv st'.
Proof.
  induction 1 as [|soup st b st' st'' Hb _ IH|st n st' st'' Hp _ IH];
    intros Hinv; [done| |].
  - apply IH. by eapply listing_block_inv.
  - apply IH. by eapply listing_page_inv.
Qed.

Lemma listing_reach_seen st st' :
  listing_reach st st' → seen_event_pages st ⊆ seen_event_pages st'.
Proof.
  induction 1 as [|soup st b st' st'' Hb _ IH|st n st' st'' Hp _ IH];
    [done| |].
  - apply listing_block_seen in Hb as [Hb _]. by etrans.
  - apply listing_page_seen in Hp. by etrans.
Qed.

Lemma listing_reach_trans st1 st2 st3 :
  listing_reach st1 st2 → listing_reach st2 st3 → listing_reach st1 st3.
Proof.
  induction 1; intros H3; [done| |].
  - eapply reach_block; eauto.
  - eapply reach_page; eauto.
Qed.

Lemma listing_reach_blocks soup l st st' :
  for_each (listing_block soup) st l = Ok st' → listing_reach st st'.
Proof.
  revert st. induction l as [|b l IH]; intros st H; simpl in H.
  - simplify_eq. constructor.
  - apply bind_Ok in H as (st1 & Hb & H). eapply reach_block; eauto.
Qed.

Lemma listing_reach_pages l st st' :
  for_each listing_page st l = Ok st' → listing_reach st st'.
Proof.
  revert st. induction l as [|n l IH]; intros st H; simpl in H.
  - simplify_eq. constructor.
  - apply bind_Ok in H as (st1 & Hb & H). eapply reach_page; eauto.
Qed.

Lemma venue_truthy e :
  has_venue_and_ticket e = true →
  truthy (dict_get (as_dict (dict_get e "location" PNone)) "name" (PStr ""))
  = true.
Proof.
  unfold has_venue_and_ticket, dict_get.
  destruct (assoc "location" e) as [[| | | | |loc]|]; try done.
  - destruct (match assoc "offers" e with Some v => v | None => PDict [] end);
      try done.
    simpl. destruct (assoc "name" loc); simpl; [|done].
    by intros [? _]%andb_true_iff.
  - destruct (match assoc "offers" e with Some v => v | None => PDict [] end);
      done.
Qed.

(** ** The claims about the crawl *)

(** C6. Once a block with a resolved link has gone through the loop body
    of the listing phase, every later block that resolves to the same
    link, on the same or on a later listing page, is dropped by the
    seen-link guard: the state is left as it is, and the link stays
    routed exactly once, either as the link of one record of the output
    accumulator or as a pending series link. *)
Theorem seen_link_guard st soup1 b1 st1 st2 soup2 b2 :
  listing_reach initial_state st →
  listing_block soup1 st b1 = Ok st1 →
  resolved_link soup1 b1 ≠ "" →
  listing_reach st1 st2 →
  resolved_link soup2 b2 = resolved_link soup1 b1 →
  listing_block soup2 st2 b2 = Ok st2
  ∧ NoDup (row_links st2)
  ∧ (resolved_link soup1 b1 ∈ row_links st2
     ↔ resolved_link soup1 b1 ∉ series_links st2).
Proof.
  intros Hst Hb1 Hne H12 Heq.
  assert (listing_inv st2) as [Hnd Hseen Hdisj _ _ _].
  { eapply listing_reach_inv; [exact H12|].
    eapply listing_block_inv; [|exact Hb1].
    eapply listing_reach_inv; [exact Hst | apply initial_state_inv]. }
  assert (resolved_link soup1 b1 ∈ seen_event_pages st2) as Hin.
  { apply listing_block_seen in Hb1 as [_ Hb1].
    apply listing_reach_seen in H12. apply H12. auto. }
  split_and!; [|done|].
  - unfold listing_block. rewrite <- Heq in Hin, Hne.
    unfold resolved_link, resolved in Hin, Hne.
    destruct (find_container_and_event_link soup2 (fst b2))
      as [[c l]|e]; [|done].
    simpl in *. rewrite bool_decide_eq_true_2 by done.
    by rewrite orb_true_r.
  - apply Hseen in Hin. split; [apply Hdisj | tauto].
Qed.

(** C8, as amended.  When the listing phase ends, no record of the output
    accumulator carries the link of a pending series, and no two records
    of the output accumulator carry the same link; and in the series
    phase a record built from a block of the page of a series link never
    carries that series link. *)
Theorem listing_link_roles_exclusive pages st1 :
  listing_phase pages initial_state = Ok st1 →
  link_roles_exclusive st1
  ∧ NoDup (row_links st1)
  ∧ ∀ url soup b r,
      url ∈ series_links st1 → b ∈ expansion soup url →
      built_from soup b r → event_link r ≠ url.
Proof.
  intros H. apply listing_phase_inv in H as [Hnd _ Hdisj _ _ _].
  split_and!; [|done|].
  - intros r Hr _. apply Hdisj.
    unfold row_links. by apply list_elem_of_fmap_2.
  - intros url soup b r _ Hb [now Hr].
    apply list_elem_of_filter in Hb as [Hq _].
    apply qualifies_true in Hq as (_ & _ & Hne).
    apply row_from_event_link in Hr. congruence.
Qed.

(** C10. At every state of the series phase, every pending series link
    has a fallback record cached under it, and that record carries the
    link; hence both fallback branches, the one taken when the page does
    not render and the one taken when no block of the page qualifies,
    append that record, and every turn of the loop that returns appends
    at least one record for its series link.  (The branch for a page
    without a qualifying block is reached when the resolver returns on
    the blocks of the page; a turn on such a page that does not return
    raises what the resolver raises on a block with a venue and a ticket
    URL, and drops nothing silently.) *)
Theorem series_links_have_fallback pages st1 visited st url :
  in_series_phase pages st1 visited st →
  url ∈ series_links st →
  series_links st = series_links st1
  ∧ series_links st ⊆ dom (series_fallback st)
  ∧ ∃ fb,
      series_fallback st !! url = Some fb
      ∧ event_link fb = url
      ∧ (goto_series url = None →
         series_step st url = Ok (append_row fb st))
      ∧ (∀ soup, goto_series url = Some soup → expansion soup url = [] →
         resolver_returns soup →
         series_step st url = Ok (append_row fb st))
      ∧ (∀ st', series_step st url = Ok st' →
         ∃ new, new ≠ [] ∧ rows st' = rows st ++ new)
      ∧ (∀ soup, goto_series url = Some soup → expansion soup url = [] →
         match series_step st url with
         | Ok st' => st' = append_row fb st
         | Raise e =>
             ∃ b, b ∈ iter_event_jsonld soup
                  ∧ has_venue_and_ticket (snd b) = true
                  ∧ find_container_and_event_link soup (fst b) = Raise e
         end).
Proof.
  intros Hphase Hurl.
  pose proof Hphase as [H1 H2].
  apply series_phase_keeps in H2 as (Hl & Hf & _).
  apply listing_phase_inv in H1 as [_ _ _ Hdom _ _].
  split; [done|]. split.
  { intros l Hin. apply elem_of_dom. rewrite Hf. apply Hdom.
    by rewrite <- Hl. }
  rewrite Hl in Hurl.
  destruct (series_phase_fallback _ _ _ _ _ Hphase Hurl) as (fb & Hfb & Hlink).
  exists fb. split_and!; [done|done| | | |].
  - intros Hgo. unfold series_step. rewrite Hgo.
    by rewrite (emit_fallback_some _ _ _ Hfb).
  - intros soup Hgo Hexp Hret.
    rewrite (series_step_no_expansion _ _ _ Hgo Hexp Hret).
    by rewrite (emit_fallback_some _ _ _ Hfb).
  - intros st' Hstep. apply series_step_cases in Hstep as (_ & _ & _ & Hc).
    rewrite (emit_fallback_some _ _ _ Hfb) in Hc.
    destruct (goto_series url) as [soup|].
    + destruct (expansion soup url) as [|b q].
      * subst st'. by exists [fb].
      * destruct Hc as (new & Hrows & Hnew). exists new. split; [|done].
        intros ->. inversion Hnew.
    + subst st'. by exists [fb].
  - intros soup Hgo Hexp.
    pose proof (series_step_no_expansion_cases st url soup Hgo Hexp) as Hc.
    by rewrite (emit_fallback_some _ _ _ Hfb) in Hc.
Qed.

(** C4. In a run, every pending series link whose page does not render
    gets exactly one record, the fallback record cached for it: the loop
    over the pending links comes to the link once, its turn appends that
    record and nothing else, and the loop goes on with the links that
    are left, up to the end of the run.  (Iterating the set of pending
    links yields each link once.)  The same turn does the same in any
    other state of the series phase. *)
Theorem render_failure_emits_fallback pages st1 st url :
  set_iter_enumerates →
  listing_phase pages initial_state = Ok st1 →
  series_phase st1 = Ok st →
  url ∈ series_links st1 →
  goto_series url = None →
  ∃ fb visited rest s,
    set_iter (series_links st1) = visited ++ url :: rest
    ∧ (url ∉ visited) ∧ (url ∉ rest)
    ∧ in_series_phase pages st1 visited s
    ∧ series_fallback st1 !! url = Some fb
    ∧ event_link fb = url
    ∧ series_step s url = Ok (append_row fb s)
    ∧ rows (append_row fb s) = rows s ++ [fb]
    ∧ for_each series_step (append_row fb s) rest = Ok st
    ∧ (∃ later, rows st = rows s ++ [fb] ++ later)
    ∧ (∀ visited' s' rest',
         in_series_phase pages st1 visited' s' →
         series_step s' url = Ok (append_row fb s')
         ∧ for_each series_step s' (url :: rest')
           = for_each series_step (append_row fb s') rest').
Proof.
  intros Henum H1 H2 Hurl Hgo. unfold series_phase in H2.
  destruct (Henum (series_links st1)) as [Hnd Hmem].
  pose proof (proj2 (Hmem url) Hurl) as Hin.
  apply list_elem_of_split in Hin as (visited & rest & Heq).
  rewrite Heq in Hnd, H2.
  apply NoDup_app in Hnd as (_ & Hvis & Hrest).
  apply NoDup_cons in Hrest as [Hrest _].
  rewrite for_each_app in H2. apply bind_Ok in H2 as (s & Hs & H2).
  assert (in_series_phase pages st1 visited s) as Hphase by done.
  destruct (series_phase_fallback _ _ _ _ _ Hphase Hurl)
    as (fb & Hfb & Hlink).
  assert (∀ visited' s', in_series_phase pages st1 visited' s' →
                         series_step s' url = Ok (append_row fb s'))
    as Hturn.
  { intros visited' s' [_ Hkeep].
    apply series_phase_keeps in Hkeep as (_ & Hf & _).
    unfold series_step. rewrite Hgo.
    rewrite (emit_fallback_some _ _ fb); [done|].
    rewrite Hf.
    destruct Hphase as [_ Hkeep].
    apply series_phase_keeps in Hkeep as (_ & Hf' & _). congruence. }
  pose proof (Hturn _ _ Hphase) as Hstep.
  simpl in H2. rewrite Hstep in H2. simpl in H2.
  destruct Hphase as [_ Hkeep].
  apply series_phase_keeps in Hkeep as (_ & Hf & _). rewrite Hf in Hfb.
  exists fb, visited, rest, s.
  split_and!; [done| |done|done|done|done|done|done|done| |].
  - intros Hv. apply (Hvis url Hv). by apply elem_of_cons; left.
  - apply series_phase_appends in H2 as [later Hlater].
    exists later. rewrite Hlater. simpl. by rewrite <- app_assoc.
  - intros visited' s' rest' Hphase'. split; [by eapply Hturn|].
    simpl. by rewrite (Hturn _ _ Hphase').
Qed.

(** C5. On a series page that renders, the records appended are the ones
    built from the qualifying blocks, one per block and in page order: a
    qualifying block is an event object with a non-empty venue name and a
    non-empty ticket URL whose resolved link is neither empty nor the
    series link itself, so no such record carries the series link.  When
    no block qualifies, the fallback record cached for the series link is
    appended, once, the resolver returning on the blocks with a venue
    and a ticket URL; a turn on such a page that does not return raises
    what the resolver raises on one of these blocks. *)
Theorem expansion_filters_and_fallback pages st1 visited st url soup :
  in_series_phase pages st1 visited st →
  url ∈ series_links st1 →
  goto_series url = Some soup →
  ∃ fb,
    series_fallback st1 !! url = Some fb
    ∧ (expansion soup url = [] → resolver_returns soup →
       series_step st url = Ok (append_row fb st)
       ∧ rows (append_row fb st) = rows st ++ [fb])
    ∧ (expansion soup url = [] →
       match series_step st url with
       | Ok st' => st' = append_row fb st
       | Raise e =>
           ∃ b, b ∈ iter_event_jsonld soup
                ∧ has_venue_and_ticket (snd b) = true
                ∧ find_container_and_event_link soup (fst b) = Raise e
       end)
    ∧ (∀ st', expansion soup url ≠ [] → series_step st url = Ok st' →
       ∃ new, rows st' = rows st ++ new
              ∧ Forall2 (built_from soup) (expansion soup url) new)
    ∧ (∀ b, b ∈ expansion soup url ↔
            b ∈ iter_event_jsonld soup
            ∧ has_venue_and_ticket (snd b) = true
            ∧ resolved_link soup b ≠ ""
            ∧ resolved_link soup b ≠ url)
    ∧ (∀ b r, b ∈ expansion soup url → built_from soup b r →
              event_link r ≠ url
              ∧ event_link r ≠ ""
              ∧ truthy (location r) = true).
Proof.
  intros Hphase Hurl Hgo.
  destruct (series_phase_fallback _ _ _ _ _ Hphase Hurl) as (fb & Hfb & Hlink).
  destruct Hphase as [_ Hkeep].
  apply series_phase_keeps in Hkeep as (_ & Hf & _).
  assert (∀ b, b ∈ expansion soup url ↔
               b ∈ iter_event_jsonld soup
               ∧ has_venue_and_ticket (snd b) = true
               ∧ resolved_link soup b ≠ ""
               ∧ resolved_link soup b ≠ url) as Hexp.
  { intros b. unfold expansion. rewrite list_elem_of_filter.
    unfold qualifies.
    rewrite !andb_true_iff, !negb_true_iff, is_empty_false,
      String.eqb_neq. tauto. }
  exists fb. rewrite <- Hf. split_and!; [done| | | |done|].
  - intros Hnil Hret. split; [|done].
    rewrite (series_step_no_expansion _ _ _ Hgo Hnil Hret).
    by rewrite (emit_fallback_some _ _ _ Hfb).
  - intros Hnil.
    pose proof (series_step_no_expansion_cases st url soup Hgo Hnil) as Hc.
    by rewrite (emit_fallback_some _ _ _ Hfb) in Hc.
  - intros st' Hne Hstep.
    apply series_step_cases in Hstep as (_ & _ & _ & Hc).
    rewrite Hgo in Hc. by destruct (expansion soup url).
  - intros b r Hb [now Hr]. apply Hexp in Hb as (_ & Hv & Hn & Hu).
    apply row_from_event_fields in Hr as (-> & _ & _ & -> & _).
    split_and!; [done|done|]. by apply venue_truthy.
Qed.

(** ** De-duplication *)

Section dedup.

Hypothesis cell_equiv : cell_equivalence.

Lemma hashable_key_cells r :
  hashable_key r = true →
  hashable (title r) = true ∧ hashable (location r) = true.
Proof.
  unfold hashable_key, dedup_key. simpl.
  rewrite !andb_true_iff. tauto.
Qed.

Lemma same_key_cells r1 r2 :
  same_key r1 r2 = true ↔
  cell_eqb (title r1) (title r2) = true
  ∧ cell_eqb (PStr (start_date r1)) (PStr (start_date r2)) = true
  ∧ cell_eqb (PStr (start_time r1)) (PStr (start_time r2)) = true
  ∧ cell_eqb (location r1) (location r2) = true.
Proof.
  unfold same_key, dedup_key. simpl. rewrite !andb_true_iff. tauto.
Qed.

Lemma same_key_refl r : hashable_key r = true → same_key r r = true.
Proof using cell_equiv.
  destruct cell_equiv as (Hrefl & _ & _).
  intros [? ?]%hashable_key_cells. apply same_key_cells.
  split_and!; by apply Hrefl.
Qed.

Lemma same_key_sym r1 r2 :
  hashable_key r1 = true → hashable_key r2 = true →
  same_key r1 r2 = true → same_key r2 r1 = true.
Proof using cell_equiv.
  destruct cell_equiv as (_ & Hsym & _).
  intros [? ?]%hashable_key_cells [? ?]%hashable_key_cells.
  rewrite !same_key_cells. intros (? & ? & ? & ?).
  split_and!; by apply Hsym.
Qed.

Lemma same_key_trans r1 r2 r3 :
  hashable_key r1 = true → hashable_key r2 = true →
  hashable_key r3 = true →
  same_key r1 r2 = true → same_key r2 r3 = true → same_key r1 r3 = true.
Proof using cell_equiv.
  destruct cell_equiv as (_ & _ & Htrans).
  intros [? ?]%hashable_key_cells [? ?]%hashable_key_cells
    [? ?]%hashable_key_cells.
  rewrite !same_key_cells. intros (? & ? & ? & ?) (? & ? & ? & ?).
  split_and!.
  - by apply (Htrans _ (title r2)).
  - by apply (Htrans _ (PStr (start_date r2))).
  - by apply (Htrans _ (PStr (start_time r2))).
  - by apply (Htrans _ (location r2)).
Qed.

(** The hash table of [keep_first] answers as a scan of all earlier
    records would: it holds a key for every class met so far. *)
Lemma keep_first_first_occurrences kept earlier l :
  Forall (fun r => hashable_key r = true) (earlier ++ l) →
  kept ⊆ earlier →
  (∀ r, r ∈ earlier → ∃ r0, r0 ∈ kept ∧ same_key r r0 = true) →
  keep_first (dedup_key <$> kept) l = first_occurrences earlier l.
Proof using cell_equiv.
  revert kept earlier.
  induction l as [|r l IH]; intros kept earlier Hhash Hsub Hcover;
    [done|].
  cbn [keep_first first_occurrences].
  apply Forall_app in Hhash as [Hearlier Hl].
  apply Forall_cons in Hl as [Hr Hl].
  assert (Forall (fun r => hashable_key r = true) ((earlier ++ [r]) ++ l))
    as Hhash'.
  { rewrite <- app_assoc. apply Forall_app. split; [done|].
    by apply Forall_cons. }
  rewrite Forall_forall in Hearlier.
  assert (existsb (key_eqb (dedup_key r)) (dedup_key <$> kept)
          = existsb (same_key r) earlier) as ->.
  { apply eq_true_iff_eq. rewrite !existsb_exists. split.
    - intros (k & Hk & Heq).
      apply list_elem_of_In, list_elem_of_fmap in Hk as (r0 & -> & Hr0).
      exists r0. split; [|done]. apply list_elem_of_In. auto.
    - intros (r1 & Hr1 & Heq). apply list_elem_of_In in Hr1.
      destruct (Hcover _ Hr1) as (r0 & Hr0 & Heq0).
      exists (dedup_key r0). split.
      + apply list_elem_of_In, list_elem_of_fmap. eauto.
      + apply (same_key_trans r r1 r0); auto. }
  destruct (existsb (same_key r) earlier) eqn:Hex.
  - apply IH; [done| |].
    + intros x Hx. apply elem_of_app. auto.
    + intros x [Hx | ->%list_elem_of_singleton]%elem_of_app; [auto|].
      apply existsb_exists in Hex as (r1 & Hr1 & Heq).
      apply list_elem_of_In in Hr1.
      destruct (Hcover _ Hr1) as (r0 & Hr0 & Heq0).
      exists r0. split; [done|].
      apply (same_key_trans r r1 r0); auto.
  - f_equal. rewrite <- (IH (r :: kept) (earlier ++ [r])); [done|done| |].
    + intros x [-> | Hx]%elem_of_cons; apply elem_of_app;
        [right; by apply list_elem_of_singleton | auto].
    + intros x [Hx | ->%list_elem_of_singleton]%elem_of_app.
      * destruct (Hcover _ Hx) as (r0 & Hr0 & Heq0).
        exists r0. split; [by apply elem_of_cons; right | done].
      * exists r. split; [by apply elem_of_cons; left|].
        by apply same_key_refl.
Qed.

(** No record of [first_occurrences] has the key of a record before
    it. *)
Lemma first_occurrences_fresh earlier l r :
  r ∈ first_occurrences earlier l →
  r ∈ l ∧ ∀ r0, r0 ∈ earlier → same_key r r0 = false.
Proof.
  revert earlier. induction l as [|x l IH]; intros earlier; simpl.
  - by intros ?%elem_of_nil.
  - destruct (existsb (same_key x) earlier) eqn:Hex.
    + intros [Hin Hfresh]%IH. split; [by apply elem_of_cons; right|].
      intros r0 Hr0. apply Hfresh, elem_of_app. auto.
    + intros [-> | [Hin Hfresh]%IH]%elem_of_cons.
      * split; [by apply elem_of_cons; left|].
        intros r0 Hr0. destruct (same_key x r0) eqn:Heq; [|done].
        assert (existsb (same_key x) earlier = true); [|congruence].
        apply existsb_exists. exists r0.
        split; [by apply list_elem_of_In | done].
      * split; [by apply elem_of_cons; right|].
        intros r0 Hr0. apply Hfresh, elem_of_app. auto.
Qed.

Lemma first_occurrences_unique earlier l i j ri rj :
  first_occurrences earlier l !! i = Some ri →
  first_occurrences earlier l !! j = Some rj →
  (i < j)%nat → same_key rj ri = false.
Proof.
  revert earlier i j. induction l as [|x l IH]; intros earlier i j;
    simpl; [done|].
  destruct (existsb (same_key x) earlier); [by apply IH|].
  destruct i as [|i], j as [|j]; simpl; try lia.
  - intros ? Hj _. simplify_eq.
    apply list_elem_of_lookup_2, first_occurrences_fresh in Hj as [_ Hj].
    apply Hj, elem_of_app. right. by apply list_elem_of_singleton.
  - intros Hi Hj Hlt. eapply IH; eauto. lia.
Qed.

End dedup.

Lemma drop_duplicates_Ok l table :
  drop_duplicates l = Ok table →
  table = keep_first [] l ∧ Forall (fun r => hashable_key r = true) l.
Proof.
  unfold drop_duplicates. destruct l as [|r l]; [by intros; simplify_eq|].
  destruct (forallb _ _) eqn:Hall; [|done].
  intros ?; simplify_eq. split; [done|].
  apply Forall_forall. intros x Hx.
  rewrite forallb_forall in Hall. apply Hall. by apply list_elem_of_In.
Qed.

(** C2. The table returned holds the records of the merged rows, the
    direct ones followed by the expanded ones, that are the first in
    insertion order with their [(title, start_date, start_time,
    location)]; no two of its records have the same key, and every merged
    record has its key in the table. *)
Theorem final_table_keys_unique pages table :
  cell_equivalence →
  scrape_bilietai_lt pages = Ok table →
  ∃ st,
    crawl pages = Ok st
    ∧ (∃ st1 expanded, listing_phase pages initial_state = Ok st1
                       ∧ rows st = rows st1 ++ expanded)
    ∧ table = first_occurrences [] (rows st)
    ∧ (∀ i j ri rj, table !! i = Some ri → table !! j = Some rj →
                    same_key ri rj = true → i = j)
    ∧ (∀ r, r ∈ rows st → ∃ r0, r0 ∈ table ∧ same_key r r0 = true).
Proof.
  intros Hequiv Hrun. unfold scrape_bilietai_lt in Hrun.
  apply bind_Ok in Hrun as (st & Hcrawl & Hdrop).
  assert (∃ st1 expanded, listing_phase pages initial_state = Ok st1
                          ∧ rows st = rows st1 ++ expanded) as Hmerged.
  { unfold crawl in Hcrawl. apply bind_Ok in Hcrawl as (st1 & H1 & H2).
    apply series_phase_appends in H2 as [expanded ?]. eauto. }
  apply drop_duplicates_Ok in Hdrop as [Htable Hhash].
  assert (table = first_occurrences [] (rows st)) as Hfirst.
  { rewrite Htable.
    apply (keep_first_first_occurrences Hequiv [] []); [done|done|].
    by intros r ?%elem_of_nil. }
  assert (∀ r, r ∈ table → hashable_key r = true) as Hkeys.
  { intros r Hr. rewrite Hfirst in Hr.
    apply first_occurrences_fresh in Hr as [Hr _].
    rewrite Forall_forall in Hhash. auto. }
  exists st. split_and!; [done|done|done| |].
  - intros i j ri rj Hi Hj Heq.
    destruct (Nat.lt_trichotomy i j) as [Hlt | [-> | Hlt]]; [|done|].
    + rewrite Hfirst in Hi, Hj.
      pose proof (first_occurrences_unique _ _ _ _ _ _ Hi Hj Hlt) as Hne.
      rewrite <- Hfirst in Hi, Hj.
      apply list_elem_of_lookup_2 in Hi, Hj.
      apply (same_key_sym Hequiv) in Heq; auto. congruence.
    + rewrite Hfirst in Hi, Hj.
      pose proof (first_occurrences_unique _ _ _ _ _ _ Hj Hi Hlt). congruence.
  - rewrite Hfirst. rewrite Forall_forall in Hhash.
    assert (∀ earlier l r,
               Forall (fun r => hashable_key r = true) (earlier ++ l) →
               r ∈ l →
               (∃ r0, r0 ∈ earlier ∧ same_key r r0 = true)
               ∨ ∃ r0, r0 ∈ first_occurrences earlier l
                       ∧ same_key r r0 = true) as Hcover.
    { intros earlier l. revert earlier.
      induction l as [|x l IH]; intros earlier r Hh;
        [by intros ?%elem_of_nil|].
      assert (Forall (fun r => hashable_key r = true) ((earlier ++ [x]) ++ l))
        as Hh' by (by rewrite <- app_assoc).
      rewrite Forall_forall in Hh.
      assert (hashable_key x = true) as Hx.
      { apply Hh, elem_of_app. right. by apply elem_of_cons; left. }
      simpl. intros [-> | Hin]%elem_of_cons.
      - destruct (existsb (same_key x) earlier) eqn:Hex.
        + left. apply existsb_exists in Hex as (r0 & Hr0 & Heq).
          exists r0. split; [by apply list_elem_of_In | done].
        + right. exists x. split; [by apply elem_of_cons; left|].
          by apply same_key_refl.
      - destruct (IH (earlier ++ [x]) r Hh' Hin)
          as [(r0 & Hr0 & Heq) | (r0 & Hr0 & Heq)].
        + apply elem_of_app in Hr0 as [Hr0 | ->%list_elem_of_singleton].
          * left. eauto.
          * destruct (existsb (same_key x) earlier) eqn:Hex.
            -- left. apply existsb_exists in Hex as (r1 & Hr1 & Heq1).
               apply list_elem_of_In in Hr1.
               exists r1. split; [done|].
               apply (same_key_trans Hequiv r x r1); auto.
               ++ apply Hh, elem_of_app. right. by apply elem_of_cons; right.
               ++ apply Hh, elem_of_app. by left.
            -- right. exists x. split; [by apply elem_of_cons; left | done].
        + right. exists r0. split; [|done].
          destruct (existsb (same_key x) earlier);
            [done | by apply elem_of_cons; right]. }
    intros r Hr.
    destruct (Hcover [] (rows st) r) as [(r0 & Hr0 & _) | ?];
      [by apply Forall_forall | done | by apply elem_of_nil in Hr0 | done].
Qed.

(** ** The matcher by derivatives decides the [re] semantics *)

Local Arguments String.append !_ _ / : simpl nomatch.

Import Re.

Lemma append_nil_inv u v : u +:+ v = "" → u = "" ∧ v = "".
Proof. destruct u; simpl; [done | discriminate]. Qed.

Lemma append_cons_inv u v c s :
  u +:+ v = String c s →
  (u = "" ∧ v = String c s) ∨ ∃ u', u = String c u' ∧ s = u' +:+ v.
Proof. drop_unused.
  destruct u as [|x u]; simpl; [auto|].
  intros ?; simplify_eq. right. eauto.
Qed.

Lemma matches_void s : ¬ matches Void s.
Proof. inversion 1. Qed.

Lemma nullable_matches r : nullable r = true ↔ matches r "".
Proof. drop_unused.
  split.
  - induction r as [| |p|r1 IH1 r2 IH2|r1 IH1 r2 IH2|r IH]; simpl;
      try done.
    + intros _. constructor.
    + intros [? ?]%andb_true_iff.
      change "" with ("" +:+ ""). constructor; auto.
    + intros [? | ?]%orb_true_iff; [apply matches_alt_l | apply matches_alt_r];
        auto.
    + intros _. constructor.
  - remember "" as s eqn:Hs. intros H.
    induction H as [|p c Hp|r1 r2 u v _ IH1 _ IH2|r1 r2 u _ IH|r1 r2 u _ IH
                   |r|r u v _ _ _ _]; simpl; try done.
    + apply append_nil_inv in Hs as [-> ->]. by rewrite IH1, IH2.
    + by rewrite IH.
    + rewrite IH by done. apply orb_true_r.
Qed.

Lemma seq'_matches r s u : matches (seq' r s) u ↔ matches (Seq r s) u.
Proof. drop_unused.
  assert (∀ t, matches t u ↔ matches (Seq Eps t) u) as Heps.
  { intros t. split.
    - intros H. change u with ("" +:+ u). constructor; [constructor | done].
    - inversion 1 as [| |? ? u1 u2 H1 H2| | | |]; subst. by inversion H1. }
  assert (∀ t, matches Void u ↔ matches (Seq t Void) u) as Hvoid_r.
  { intros t. split; [by intros ?%matches_void|].
    inversion 1 as [| |? ? u1 u2 H1 H2| | | |]; subst.
    by apply matches_void in H2. }
  assert (∀ t, matches Void u ↔ matches (Seq Void t) u) as Hvoid_l.
  { intros t. split; [by intros ?%matches_void|].
    inversion 1 as [| |? ? u1 u2 H1 H2| | | |]; subst.
    by apply matches_void in H1. }
  destruct r, s; simpl; auto.
Qed.

Lemma alt'_matches r s u : matches (alt' r s) u ↔ matches (Alt r s) u.
Proof. drop_unused.
  assert (∀ t, matches t u ↔ matches (Alt Void t) u) as Hl.
  { intros t. split; [apply matches_alt_r|].
    inversion 1; subst; [by exfalso; eapply matches_void | done]. }
  assert (∀ t, matches t u ↔ matches (Alt t Void) u) as Hr.
  { intros t. split; [apply matches_alt_l|].
    inversion 1; subst; [done | by exfalso; eapply matches_void]. }
  destruct r, s; simpl; auto.
Qed.

Lemma matches_seq_inv r s w :
  matches (Seq r s) w ↔ ∃ u v, w = u +:+ v ∧ matches r u ∧ matches s v.
Proof. drop_unused.
  split.
  - inversion 1; subst. eauto.
  - intros (u & v & -> & ? & ?). by constructor.
Qed.

Lemma matches_alt_inv r s w :
  matches (Alt r s) w ↔ matches r w ∨ matches s w.
Proof. drop_unused.
  split.
  - inversion 1; subst; auto.
  - intros [? | ?]; [by apply matches_alt_l | by apply matches_alt_r].
Qed.

(** A non-empty match of a starred pattern begins with a non-empty match
    of the pattern. *)
Lemma matches_star_cons_inv r c s :
  matches (Star r) (String c s) →
  ∃ u v, s = u +:+ v ∧ matches r (String c u) ∧ matches (Star r) v.
Proof. drop_unused.
  remember (Star r) as t eqn:Ht. remember (String c s) as w eqn:Hw.
  intros H. revert s Hw.
  induction H as [| | | | | |r' u v Hu _ Hv IH]; intros w Hw; try done.
  simplify_eq. apply append_cons_inv in Hw as [[-> ->] | (u' & -> & ->)].
  - by apply IH.
  - eauto.
Qed.

Lemma deriv_matches c r s : matches (deriv c r) s ↔ matches r (String c s).
Proof. drop_unused.
  revert s.
  induction r as [| |p|r1 IH1 r2 IH2|r1 IH1 r2 IH2|r IH]; intros s; simpl.
  - split; inversion 1.
  - split; inversion 1.
  - destruct (p c) eqn:Hp; split.
    + inversion 1; subst. by constructor.
    + inversion 1; subst. constructor.
    + inversion 1.
    + inversion 1; subst. congruence.
  - assert (matches (Seq (deriv c r1) r2) s ↔
              ∃ u v, s = u +:+ v ∧ matches r1 (String c u) ∧ matches r2 v)
      as Hstep.
    { rewrite matches_seq_inv. split; intros (u & v & -> & H1 & H2);
        exists u, v; split_and!; try done; by apply IH1. }
    assert (matches (Seq r1 r2) (String c s) ↔
              (nullable r1 = true ∧ matches r2 (String c s))
              ∨ ∃ u v, s = u +:+ v ∧ matches r1 (String c u) ∧ matches r2 v)
      as Hseq.
    { rewrite matches_seq_inv. split.
      - intros (u & v & Heq & H1 & H2). symmetry in Heq.
        apply append_cons_inv in Heq as [[-> ->] | (u' & -> & ->)].
        + left. split; [by apply nullable_matches | done].
        + right. eauto.
      - intros [[Hn H2] | (u & v & -> & H1 & H2)].
        + exists "", (String c s). split_and!; [done| |done].
          by apply nullable_matches.
        + exists (String c u), v. done. }
    rewrite Hseq. destruct (nullable r1).
    + rewrite alt'_matches, matches_alt_inv, seq'_matches, Hstep, IH2.
      split; [intros [? | ?]; auto | intros [[_ ?] | ?]; auto].
    + rewrite seq'_matches, Hstep.
      split; [auto | intros [[? _] | ?]; [done | auto]].
  - rewrite alt'_matches, !matches_alt_inv, IH1, IH2. done.
  - rewrite seq'_matches, matches_seq_inv. split.
    + intros (u & v & -> & H1 & H2). apply IH in H1.
      change (String c (u +:+ v)) with (String c u +:+ v). by constructor.
    + intros (u & v & -> & H1 & H2)%matches_star_cons_inv.
      exists u, v. split_and!; [done| |done]. by apply IH.
Qed.

(** [fullmatch] decides whether the pattern matches the whole string. *)
Lemma fullmatch_matches r s : fullmatch r s = true ↔ matches r s.
Proof. drop_unused.
  revert r. induction s as [|c s IH]; intros r; simpl.
  - apply nullable_matches.
  - rewrite IH. apply deriv_matches.
Qed.

Lemma matches_anything s : matches anything s.
Proof. drop_unused.
  induction s as [|c s IH]; [constructor|].
  change (String c s) with (String c "" +:+ s).
  constructor; [by constructor | done].
Qed.

(** [search] finds a match of the pattern somewhere in the string. *)
Lemma search_matches r s :
  search r s = true ↔ ∃ pre m post, s = pre +:+ m +:+ post ∧ matches r m.
Proof. drop_unused.
  unfold search. rewrite fullmatch_matches, matches_seq_inv. split.
  - intros (pre & w & -> & _ & (m & post & -> & Hm & _)%matches_seq_inv).
    eauto.
  - intros (pre & m & post & -> & Hm). exists pre, (m +:+ post).
    split_and!; [done | apply matches_anything|].
    apply matches_seq_inv. exists m, post.
    split_and!; [done | done | apply matches_anything].
Qed.

(** ** The container and link resolver *)

(** An [href] has the shape of an event page when a part of it matches
    one of the two patterns; a root-relative one is joined to the site
    root, an absolute one is cut at its fragment. *)
Lemma detail_link_shape href l :
  detail_link href = Ok (Some l) ↔
  let relative :=
    PyStr.startswith "/" href = true
    ∧ ∃ pre m post, href = pre +:+ m +:+ post ∧ Re.matches event_page_re m in
  let absolute :=
    ∃ pre m post,
      href = pre +:+ m +:+ post ∧ Re.matches abs_event_page_re m in
  (relative ∧ urljoin site_root href = Some l)
  ∨ (¬ relative ∧ absolute ∧ l = PyStr.before "#" href).
Proof.
  unfold detail_link, abs_url. cbv zeta. rewrite <- !search_matches.
  destruct (PyStr.startswith "/" href);
    destruct (Re.search event_page_re href);
    destruct (Re.search abs_event_page_re href);
    destruct (urljoin site_root href) as [u|]; simpl;
    (split;
     [ intros ?; simplify_eq;
       solve [ left; done
             | right; split_and!; [intros [? ?]; done | done | done] ]
     | intros [[[? ?] ?] | (Hno & ? & ->)]; simplify_eq;
       solve [ done | exfalso; apply Hno; done ] ]).
Qed.

(** The resolver only ever raises what the URL library raises. *)
Lemma detail_link_raises href e :
  detail_link href = Raise e →
  e = ValueError ∧ urljoin site_root href = None.
Proof.
  unfold detail_link, abs_url.
  destruct (PyStr.startswith "/" href && Re.search event_page_re href).
  - destruct (urljoin site_root href); simpl; [done|].
    by intros ?; simplify_eq.
  - by destruct (Re.search abs_event_page_re href).
Qed.

Lemma detail_link_returns href :
  is_Some (urljoin site_root href) → ∃ o, detail_link href = Ok o.
Proof.
  intros [u Hu]. destruct (detail_link href) as [o|e] eqn:H; [eauto|].
  apply detail_link_raises in H as [_ H]. congruence.
Qed.

(** The loop over the anchors returns when every [href] is taken, and
    then it has collected the links they stand for. *)
Lemma links_of_Ok anchors links :
  links_of anchors = Ok links →
  (∀ x, x ∈ links ↔
        ∃ a, a ∈ anchors ∧ detail_link (href_of (snd a)) = Ok (Some x))
  ∧ ∀ a, a ∈ anchors → ∃ o, detail_link (href_of (snd a)) = Ok o.
Proof.
  revert links. induction anchors as [|a anchors IH]; intros links; simpl.
  - intros ?; simplify_eq. split.
    + intros x. split; [by intros ?%elem_of_nil|].
      by intros (a & ?%elem_of_nil & _).
    + by intros a ?%elem_of_nil.
  - intros H. apply bind_Ok in H as (l & Hl & H).
    apply bind_Ok in H as (rest & Hrest & H). simplify_eq.
    destruct (IH rest Hrest) as [IH1 IH2]. split.
    + intros x. split.
      * destruct l as [u|].
        -- intros [-> | Hx]%elem_of_cons.
           ++ exists a. split; [by apply elem_of_cons; left | done].
           ++ apply IH1 in Hx as (a' & ? & ?). exists a'.
              split; [by apply elem_of_cons; right | done].
        -- intros Hx. apply IH1 in Hx as (a' & ? & ?). exists a'.
           split; [by apply elem_of_cons; right | done].
      * intros (a' & [-> | Ha']%elem_of_cons & Hx).
        -- rewrite Hl in Hx. simplify_eq. by apply elem_of_cons; left.
        -- assert (x ∈ rest) as Hin by (apply IH1; eauto).
           destruct l; [by apply elem_of_cons; right | done].
    + intros a' [-> | Ha']%elem_of_cons; eauto.
Qed.

Lemma links_of_returns anchors :
  (∀ a, a ∈ anchors → ∃ o, detail_link (href_of (snd a)) = Ok o) →
  ∃ links, links_of anchors = Ok links.
Proof.
  induction anchors as [|a anchors IH]; intros Hall; simpl; [eauto|].
  destruct (Hall a) as [o Ho]; [by apply elem_of_cons; left|].
  destruct IH as [links Hlinks].
  { intros a' Ha'. apply Hall. by apply elem_of_cons; right. }
  rewrite Ho, Hlinks. simpl. eauto.
Qed.

Lemma links_of_raises anchors e :
  links_of anchors = Raise e →
  e = ValueError
  ∧ ∃ a, a ∈ anchors ∧ urljoin site_root (href_of (snd a)) = None.
Proof.
  induction anchors as [|a anchors IH]; simpl; [done|].
  destruct (detail_link (href_of (snd a))) as [l|e'] eqn:Hl; simpl.
  - destruct (links_of anchors) as [rest|e'']; simpl; [done|].
    intros ?; simplify_eq. destruct (IH eq_refl) as (-> & a' & ? & ?).
    split; [done|]. exists a'. split; [by apply elem_of_cons; right|done].
  - intros ?; simplify_eq. apply detail_link_raises in Hl as [-> Hl].
    split; [done|]. exists a. split; [by apply elem_of_cons; left|done].
Qed.

(** The links collected at an ancestor are the links that the [a] tags
    with an [href] beneath it stand for. *)
Lemma links_under_elem n links x :
  links_under n = Ok links →
  x ∈ links ↔
  ∃ p a, (p, a) ∈ descendants n ∧ is_a_href a = true
         ∧ detail_link (href_of a) = Ok (Some x).
Proof.
  unfold links_under, find_all. intros [H _]%links_of_Ok. rewrite H. split.
  - intros ([p a] & [Ha Hin]%list_elem_of_filter & Hx). eauto.
  - intros (p & a & Hin & Ha & Hx). exists (p, a).
    split; [by apply list_elem_of_filter | done].
Qed.

Lemma dict_fromkeys_elem l x : x ∈ dict_fromkeys l ↔ x ∈ l.
Proof. drop_unused.
  induction l as [|y l IH]; simpl; [done|].
  rewrite !elem_of_cons, list_elem_of_filter, IH.
  destruct (decide (x = y)); tauto.
Qed.

Lemma filter_nil_all {A : Type} (P : A → Prop) `{∀ x, Decision (P x)}
    (l : list A) :
  filter P l = [] ↔ ∀ x, x ∈ l → ¬ P x.
Proof.
  induction l as [|y l IH]; simpl.
  - split; [by intros _ x ?%elem_of_nil | done].
  - destruct (decide (P y)) as [Hy|Hy].
    + rewrite filter_cons_True by done. split; [done|].
      intros Hall. exfalso. apply (Hall y); [by apply elem_of_cons; left|done].
    + rewrite filter_cons_False by done. rewrite IH. split.
      * intros Hall x [-> | ?]%elem_of_cons; auto.
      * intros Hall x Hx. apply Hall. by apply elem_of_cons; right.
Qed.

(** The de-duplicated list has one member exactly when the list, taken as
    a set, is a singleton. *)
Lemma dict_fromkeys_singleton l u :
  dict_fromkeys l = [u] ↔ ∀ x, x ∈ l ↔ x = u.
Proof.
  destruct l as [|y l]; simpl.
  - split; [done|]. intros H. exfalso.
    apply (elem_of_nil u), H. done.
  - split.
    + intros Heq. injection Heq as -> Hfil.
      rewrite filter_nil_all in Hfil. intros x. rewrite elem_of_cons.
      split; [|auto]. intros [-> | Hx]; [done|].
      destruct (decide (x = u)); [done|].
      exfalso. apply (Hfil x); [by apply dict_fromkeys_elem | done].
    + intros Hall. assert (y = u) as ->.
      { apply Hall. by apply elem_of_cons; left. }
      f_equal. apply filter_nil_all. intros x Hx Hne. apply Hne, Hall.
      apply elem_of_cons; right. by apply dict_fromkeys_elem.
Qed.

Lemma sole_link_fromkeys n links u :
  links_under n = Ok links →
  sole_link n u ↔ dict_fromkeys links = [u].
Proof.
  intros Hl. unfold sole_link. rewrite dict_fromkeys_singleton. split.
  - intros (links' & Hl' & H). rewrite Hl in Hl'. by simplify_eq.
  - eauto.
Qed.

Lemma sole_link_unique n u1 u2 : sole_link n u1 → sole_link n u2 → u1 = u2.
Proof.
  intros (l1 & Hl1 & H1) (l2 & Hl2 & H2). rewrite Hl1 in Hl2.
  simplify_eq. apply H2, H1. done.
Qed.

Lemma sole_link_not_ambiguous n u : sole_link n u → ¬ no_sole_link n.
Proof.
  intros (l1 & Hl1 & H1) (l2 & Hl2 & H2). rewrite Hl1 in Hl2.
  simplify_eq. eauto.
Qed.

Lemma under_elem desc k cs p m :
  (p, m) ∈ under desc k cs →
  ∃ i c, cs !! i = Some c
         ∧ ((p = [(k + i)%nat] ∧ m = c)
            ∨ ∃ p', p = (k + i)%nat :: p' ∧ (p', m) ∈ desc c).
Proof. drop_unused.
  revert k. induction cs as [|c cs IH]; intros k; simpl.
  - by intros ?%elem_of_nil.
  - rewrite elem_of_cons, elem_of_app. intros [Heq | [Hin | Hin]].
    + simplify_eq. exists 0%nat, c. rewrite Nat.add_0_r. auto.
    + apply list_elem_of_fmap in Hin as ([p' m'] & Heq & Hin).
      simpl in Heq. simplify_eq. exists 0%nat, c. rewrite Nat.add_0_r.
      split; [done|]. right. eauto.
    + apply IH in Hin as (i & c' & Hi & Hcase). exists (S i), c'.
      replace (k + S i)%nat with (S k + i)%nat by lia. done.
Qed.

(** Every descendant stands at the position it is listed with. *)
Lemma descendants_subtree p n m :
  (p, m) ∈ descendants n → subtree n p = Some m.
Proof. drop_unused.
  revert n. induction p as [|x p IH]; intros n Hin.
  - destruct n as [name attrs cs|]; simpl in Hin.
    + apply under_elem in Hin as (i & c & _ & [[? _] | (p' & ? & _)]); done.
    + by apply elem_of_nil in Hin.
  - destruct n as [name attrs cs|]; simpl in Hin.
    + apply under_elem in Hin as (i & c & Hi & [[? ->] | (p' & ? & Hin)]);
        simplify_eq; simpl; rewrite Hi; [by destruct c | by apply IH].
    + by apply elem_of_nil in Hin.
Qed.

(** The script tag of every block the generator yields is a node of the
    document. *)
Lemma iter_event_jsonld_position soup b :
  b ∈ iter_event_jsonld soup → is_Some (subtree soup (fst b)).
Proof. drop_unused.
  unfold iter_event_jsonld. intros Hin.
  apply list_elem_of_In, in_flat_map in Hin as ([p s] & Hs & Hb).
  apply list_elem_of_In, list_elem_of_filter in Hs as [_ Hs].
  apply descendants_subtree in Hs. simpl in Hb.
  destruct (PyStr.is_empty _); [done|].
  destruct (json_loads _) as [data|]; [|done].
  apply list_elem_of_In, list_elem_of_omap in Hb as (obj & _ & Hobj).
  destruct obj as [| | | | |d]; try done.
  destruct (is_event d); [|done]. simplify_eq. simpl. eauto.
Qed.

Lemma subtree_app soup p q :
  subtree soup (p ++ q) = subtree soup p ≫= fun n => subtree n q.
Proof.
  revert soup. induction p as [|i p IH]; intros soup; simpl; [done|].
  destruct soup as [name attrs cs|]; [|done].
  destruct (cs !! i); [apply IH | done].
Qed.

Lemma subtree_removelast soup p :
  is_Some (subtree soup p) → is_Some (subtree soup (removelast p)).
Proof.
  destruct (decide (p = [])) as [-> | Hne]; [done|].
  rewrite (app_removelast_last 0%nat Hne) at 1. rewrite subtree_app.
  destruct (subtree soup (removelast p)); [eauto | by intros [? ?]].
Qed.

Lemma length_removelast_cons {A : Type} (x : A) (l : list A) :
  length (removelast (x :: l)) = length l.
Proof.
  revert x. induction l as [|y l IH]; intros x; [done|].
  change (removelast (x :: y :: l)) with (x :: removelast (y :: l)).
  cbn [length]. by rewrite IH.
Qed.

Lemma parents_cons x p :
  parents (x :: p) = removelast (x :: p) :: parents (removelast (x :: p)).
Proof.
  unfold parents. rewrite length_removelast_cons.
  change (length (x :: p)) with (S (length p)). done.
Qed.

Lemma ancestor_nil soup i : ancestor soup [] i = None.
Proof. unfold ancestor. by destruct i. Qed.

Lemma ancestor_0 soup x p n :
  subtree soup (removelast (x :: p)) = Some n →
  ancestor soup (x :: p) 0 = Some (removelast (x :: p), n).
Proof.
  intros H. unfold ancestor. rewrite parents_cons.
  cbn -[removelast subtree]. by rewrite H.
Qed.

Lemma ancestor_S soup x p i :
  ancestor soup (x :: p) (S i) = ancestor soup (removelast (x :: p)) i.
Proof. unfold ancestor. by rewrite parents_cons. Qed.

Lemma parents_upto_length fuel p : (length (parents_upto fuel p) ≤ fuel)%nat.
Proof. drop_unused.
  revert p. induction fuel as [|fuel IH]; intros p; simpl; [done|].
  destruct (parent p) as [q|]; simpl; [|lia]. specialize (IH q). lia.
Qed.

Lemma parents_valid soup p :
  is_Some (subtree soup p) →
  Forall (fun q => is_Some (subtree soup q)) (parents p).
Proof. drop_unused.
  remember (length p) as k eqn:Hk. revert p Hk.
  induction k as [|k IH]; intros p Hk Hvalid.
  - destruct p; [constructor | done].
  - destruct p as [|x p]; [done|]. rewrite parents_cons.
    apply subtree_removelast in Hvalid as Hup.
    constructor; [done|]. apply IH; [|done].
    rewrite length_removelast_cons. simpl in Hk. lia.
Qed.

(** The list [find_parent] scans is the chain of ancestors. *)
Lemma find_parent_candidates soup p i :
  is_Some (subtree soup p) →
  omap (fun q => match subtree soup q with
                 | Some n => Some (q, n)
                 | None => None
                 end) (parents p) !! i
  = ancestor soup p i.
Proof. drop_unused.
  intros Hvalid. unfold ancestor.
  pose proof (parents_valid soup p Hvalid) as Hall.
  revert i. induction Hall as [|q l [n Hn] _ IH]; intros i; [done|].
  simpl. rewrite Hn. destruct i as [|i]; simpl; [by rewrite Hn | apply IH].
Qed.

(** [find_parent] returns the link element that encloses the block most
    closely. *)
Lemma find_parent_enclosing soup p a n :
  is_Some (subtree soup p) →
  find_parent is_a_href soup p = Some (a, n) ↔ enclosing_link soup p a n.
Proof. drop_unused.
  intros Hvalid. unfold find_parent, enclosing_link. split.
  - destruct (list_find _ _) as [[i [q m]]|] eqn:Hfind; [|done].
    simpl. intros ?; simplify_eq.
    apply list_find_Some in Hfind as (Hi & Hf & Hmin).
    rewrite find_parent_candidates in Hi by done.
    exists i. split_and!; [done|done|].
    intros j a' n' Hj Hanc.
    rewrite <- find_parent_candidates in Hanc by done.
    specialize (Hmin j (a', n') Hanc Hj). simpl in Hmin.
    by destruct (is_a_href n').
  - intros (i & Hi & Hf & Hmin).
    rewrite <- find_parent_candidates in Hi by done.
    assert (list_find (fun d : pos * node => is_a_href (snd d) = true)
              (omap (fun q => match subtree soup q with
                              | Some n => Some (q, n)
                              | None => None
                              end) (parents p)) = Some (i, (a, n))) as ->;
      [|done].
    apply list_find_Some. split_and!; [done|done|].
    intros j [a' n'] Hj Hlt. rewrite find_parent_candidates in Hj by done.
    simpl. by rewrite (Hmin j a' n' Hlt Hj).
Qed.

Lemma enclosing_link_unique soup p a1 n1 a2 n2 :
  enclosing_link soup p a1 n1 → enclosing_link soup p a2 n2 →
  a1 = a2 ∧ n1 = n2.
Proof. drop_unused.
  intros (i & Hi & Hfi & Hmi) (j & Hj & Hfj & Hmj).
  destruct (Nat.lt_trichotomy i j) as [Hlt | [-> | Hlt]].
  - rewrite (Hmj _ _ _ Hlt Hi) in Hfi. done.
  - by simplify_eq.
  - rewrite (Hmi _ _ _ Hlt Hj) in Hfj. done.
Qed.

(** The loop stops at the first of the [fuel] nearest ancestors under
    which the links collapse to one, and fails when there is none; it
    raises at the first of them under which a link is rejected. *)
Lemma ascend_spec soup fuel cur :
  is_Some (subtree soup cur) →
  match ascend soup fuel cur with
  | Ok (Some up, u) =>
      ∃ i n, (i < fuel)%nat ∧ ancestor soup cur i = Some (up, n)
             ∧ sole_link n u ∧ ambiguous_upto soup cur i
  | Ok (None, u) => u = "" ∧ ambiguous_upto soup cur fuel
  | Raise e =>
      e = ValueError
      ∧ ∃ i up n, (i < fuel)%nat ∧ ancestor soup cur i = Some (up, n)
                  ∧ links_under n = Raise ValueError
                  ∧ ambiguous_upto soup cur i
  end.
Proof.
  revert cur. induction fuel as [|fuel IH]; intros cur Hcur; simpl.
  { split; [done|]. intros j ???. lia. }
  destruct cur as [|x p]; simpl.
  { split; [done|]. intros j up n _. by rewrite ancestor_nil. }
  apply subtree_removelast in Hcur as Hup. destruct Hup as [n Hn].
  change (match p with [] => [] | _ :: _ => x :: removelast p end)
    with (removelast (x :: p)).
  rewrite Hn.
  assert (is_Some (subtree soup (removelast (x :: p)))) as Hvalid by eauto.
  specialize (IH _ Hvalid).
  destruct (links_under n) as [links|e] eqn:Hlinks; simpl.
  2:{ apply links_of_raises in Hlinks as Hval. destruct Hval as [-> _].
      split; [done|]. exists 0%nat, (removelast (x :: p)), n.
      split_and!; [lia | by apply ancestor_0 | done | intros j ???; lia]. }
  (* the level just above is passed over when its links are not one *)
  assert ((∀ w, dict_fromkeys links ≠ [w]) →
          match ascend soup fuel (removelast (x :: p)) with
          | Ok (Some up, u) =>
              ∃ i m, (i < S fuel)%nat
                     ∧ ancestor soup (x :: p) i = Some (up, m)
                     ∧ sole_link m u ∧ ambiguous_upto soup (x :: p) i
          | Ok (None, u) => u = "" ∧ ambiguous_upto soup (x :: p) (S fuel)
          | Raise e =>
              e = ValueError
              ∧ ∃ i up m, (i < S fuel)%nat
                          ∧ ancestor soup (x :: p) i = Some (up, m)
                          ∧ links_under m = Raise ValueError
                          ∧ ambiguous_upto soup (x :: p) i
          end) as Hpass.
  { intros Hnot.
    assert (∀ bound, ambiguous_upto soup (removelast (x :: p)) bound →
                     ambiguous_upto soup (x :: p) (S bound)) as Hshift.
    { intros bound Hamb [|j] up' n' Hj; [|rewrite ancestor_S; apply Hamb; lia].
      rewrite (ancestor_0 _ _ _ _ Hn). intros ?; simplify_eq.
      exists links. split; [done|]. intros [w Hw].
      apply dict_fromkeys_singleton in Hw. by apply Hnot in Hw. }
    destruct (ascend soup fuel (removelast (x :: p))) as [[[up|] v]|e].
    - destruct IH as (i & m & Hi & Hanc & Hsole & Hamb).
      exists (S i), m. rewrite ancestor_S.
      split_and!; [lia | done | done | by apply Hshift].
    - destruct IH as [-> Hamb]. split; [done | by apply Hshift].
    - destruct IH as (-> & i & up & m & Hi & Hanc & Hraise & Hamb).
      split; [done|]. exists (S i), up, m. rewrite ancestor_S.
      split_and!; [lia | done | done | by apply Hshift]. }
  destruct (dict_fromkeys links) as [|u [|u' rest]] eqn:Hkeys.
  - by apply Hpass.
  - exists 0%nat, n. split; [lia|].
    split; [by apply ancestor_0|].
    split; [by apply (sole_link_fromkeys _ links)|]. intros j ???. lia.
  - by apply Hpass.
Qed.

Lemma resolves_functional soup p r1 r2 :
  resolves soup p r1 → resolves soup p r2 → r1 = r2.
Proof.
  intros H1 H2.
  destruct H1 as [a n link Hpar Hlink | i up n u Hno Hi Hanc Hsole Hamb
                 | Hno Hamb];
    destruct H2 as [a' n' link' Hpar' Hlink' | i' up' n' u' Hno' Hi' Hanc'
                      Hsole' Hamb' | Hno' Hamb'].
  - destruct (enclosing_link_unique _ _ _ _ _ _ Hpar Hpar') as [-> ->].
    congruence.
  - rewrite (Hno' _ _ Hpar) in Hlink. done.
  - rewrite (Hno' _ _ Hpar) in Hlink. done.
  - rewrite (Hno _ _ Hpar') in Hlink'. done.
  - destruct (Nat.lt_trichotomy i i') as [Hlt | [-> | Hlt]].
    + exfalso. by apply (sole_link_not_ambiguous _ _ Hsole),
        (Hamb' _ _ _ Hlt Hanc).
    + simplify_eq. f_equal. by eapply sole_link_unique.
    + exfalso. by apply (sole_link_not_ambiguous _ _ Hsole'),
        (Hamb _ _ _ Hlt Hanc').
  - exfalso. by apply (sole_link_not_ambiguous _ _ Hsole),
      (Hamb' _ _ _ Hi Hanc).
  - rewrite (Hno _ _ Hpar') in Hlink'. done.
  - exfalso. by apply (sole_link_not_ambiguous _ _ Hsole'),
      (Hamb _ _ _ Hi' Hanc').
  - done.
Qed.

(** Where the resolver raises, its contract allows no result. *)
Lemma resolver_raises_unresolved soup p res :
  resolver_raises soup p → ¬ resolves soup p res.
Proof.
  intros [(a & n & Henc & Hraise)
         | (Hno & i & up & n & Hi & Hanc & Hraise & Hamb)] Hres.
  - destruct Hres as [a' n' link Hpar Hlink | i up n' u Hno _ _ _ _
                     | Hno _].
    + destruct (enclosing_link_unique _ _ _ _ _ _ Henc Hpar) as [-> ->].
      congruence.
    + rewrite (Hno _ _ Henc) in Hraise. done.
    + rewrite (Hno _ _ Henc) in Hraise. done.
  - destruct Hres as [a' n' link Hpar Hlink | i' up' n' u _ Hi' Hanc' Hsole
                        Hamb' | _ Hamb'].
    + rewrite (Hno _ _ Hpar) in Hlink. done.
    + destruct (Nat.lt_trichotomy i i') as [Hlt | [-> | Hlt]].
      * destruct (Hamb' _ _ _ Hlt Hanc) as (l & Hl & _). congruence.
      * simplify_eq. destruct Hsole as (l & Hl & _). congruence.
      * by apply (sole_link_not_ambiguous _ _ Hsole),
          (Hamb _ _ _ Hlt Hanc').
    + destruct (Hamb' _ _ _ Hi Hanc) as (l & Hl & _). congruence.
Qed.

Lemma resolver_resolves soup script_tag :
  is_Some (subtree soup script_tag) →
  match find_container_and_event_link soup script_tag with
  | Ok res => resolves soup script_tag res
  | Raise e => e = ValueError ∧ resolver_raises soup script_tag
  end.
Proof.
  intros Hvalid. unfold find_container_and_event_link.
  pose proof (ascend_spec soup 10 script_tag Hvalid) as Hasc.
  assert (no_enclosing_detail_link soup script_tag →
          match ascend soup 10 script_tag with
          | Ok res => resolves soup script_tag res
          | Raise e => e = ValueError ∧ resolver_raises soup script_tag
          end) as Hloop.
  { intros Hno. destruct (ascend soup 10 script_tag) as [[[up|] u]|e].
    - destruct Hasc as (i & n & ? & ? & ? & ?).
      by eapply resolves_ancestor.
    - destruct Hasc as [-> ?]. by apply resolves_nothing.
    - destruct Hasc as (-> & Hraise). split; [done|]. by right. }
  destruct (find_parent is_a_href soup script_tag) as [[a n]|] eqn:Hpar.
  - apply find_parent_enclosing in Hpar as Henc; [|done].
    destruct (detail_link (href_of n)) as [[link|]|e] eqn:Hlink; simpl.
    + by eapply resolves_enclosing.
    + apply Hloop. intros a' n' Henc'.
      by destruct (enclosing_link_unique _ _ _ _ _ _ Henc Henc') as [-> ->].
    + apply detail_link_raises in Hlink as Hval. destruct Hval as [-> _].
      split; [done|]. left. eauto.
  - apply Hloop. intros a' n' Henc'.
    apply find_parent_enclosing in Henc'; [|done]. congruence.
Qed.

Lemma ancestor_subtree soup p i up n :
  ancestor soup p i = Some (up, n) → subtree soup up = Some n.
Proof. drop_unused.
  unfold ancestor. destruct (parents p !! i) as [q|]; [|done].
  destruct (subtree soup q) as [m|] eqn:Hm; [|done].
  by intros ?; simplify_eq.
Qed.

(** The resolver returns when the URL library joins the [href] of every
    link element of the document. *)
Lemma resolver_returns_when_joined soup script_tag :
  is_Some (subtree soup script_tag) →
  hrefs_join soup →
  ∃ res, find_container_and_event_link soup script_tag = Ok res.
Proof.
  intros Hvalid Hjoin.
  pose proof (resolver_resolves soup script_tag Hvalid) as Hres.
  destruct (find_container_and_event_link soup script_tag) as [res|e];
    [eauto|].
  destruct Hres as [_ [(a & n & (i & Hanc & Ha & _) & Hraise)
                      | (_ & i & up & n & _ & Hanc & Hraise & _)]].
  - apply detail_link_raises in Hraise as [_ Hnone].
    apply ancestor_subtree in Hanc.
    destruct (Hjoin a n Hanc Ha) as [? ?]. congruence.
  - apply links_of_raises in Hraise as (_ & [q a] & Hin & Hnone).
    apply list_elem_of_filter in Hin as [Ha Hin]. simpl in *.
    apply ancestor_subtree in Hanc. apply descendants_subtree in Hin.
    destruct (Hjoin (up ++ q) a) as [? ?]; [|done|congruence].
    by rewrite subtree_app, Hanc.
Qed.

(** C1, as amended.  For every metadata block of a document (the script
    tag of a block is a node of the document,
    [iter_event_jsonld_position]) the resolver terminates.  When it
    returns, what it returns is the one result its contract allows: the
    link element that encloses the block most closely and its URL, when
    that element points to an event page; otherwise the nearest of the
    first ten ancestors under which the detail-shaped links,
    de-duplicated by URL, are exactly one, with that link; otherwise no
    container and the empty link; never more than one link.  It returns
    whenever the URL library joins the [href] of every link element of
    the document to the site root.  Otherwise it may raise, and then it raises [ValueError], the URL
    library having rejected the [href] of the enclosing link element or
    of a link beneath an ancestor the loop has reached; the contract
    allows no result there. *)
Theorem resolver_returns_the_unambiguous_link soup script_tag :
  is_Some (subtree soup script_tag) →
  match find_container_and_event_link soup script_tag with
  | Ok res =>
      resolves soup script_tag res
      ∧ (∀ res', resolves soup script_tag res' → res' = res)
      ∧ (fst res = None → snd res = "")
  | Raise e =>
      e = ValueError
      ∧ resolver_raises soup script_tag
      ∧ ∀ res, ¬ resolves soup script_tag res
  end
  ∧ (hrefs_join soup →
     ∃ res, find_container_and_event_link soup script_tag = Ok res).
Proof.
  intros Hvalid.
  pose proof (resolver_resolves soup script_tag Hvalid) as Hres.
  split; [|by apply resolver_returns_when_joined].
  destruct (find_container_and_event_link soup script_tag) as [res|e].
  - split_and!; [done| |].
    + intros res' Hres'. by eapply resolves_functional.
    + destruct Hres; simpl; done.
  - destruct Hres as [-> Hraise]. split_and!; [done|done|].
    intros res. by apply resolver_raises_unresolved.
Qed.

(** ** Dates and times *)

Lemma app_empty_r s : s +:+ "" = s.
Proof. induction s as [|c s IH]; simpl; [done | by rewrite IH]. Qed.

Lemma app_assoc_str s1 s2 s3 : (s1 +:+ s2) +:+ s3 = s1 +:+ s2 +:+ s3.
Proof. induction s1 as [|c s1 IH]; simpl; [done | by rewrite IH]. Qed.

Lemma contains_char_cons c x s :
  PyStr.contains (String c "") (String x s)
  = Ascii.eqb c x || PyStr.contains (String c "") s.
Proof.
  simpl. destruct (ascii_dec c x) as [-> | Hne].
  - rewrite Ascii.eqb_refl. by destruct s.
  - apply Ascii.eqb_neq in Hne. by rewrite Hne.
Qed.

Lemma split_once_app c d t :
  PyStr.contains (String c "") d = false →
  PyStr.split_once c (d +:+ String c t) = Some (d, t).
Proof.
  induction d as [|x d IH].
  - intros _. simpl. by rewrite Ascii.eqb_refl.
  - rewrite contains_char_cons. intros [Hcx Hd]%orb_false_iff.
    simpl. rewrite Ascii.eqb_sym, Hcx. by rewrite IH.
Qed.

Lemma split_once_None c s :
  PyStr.contains (String c "") s = false → PyStr.split_once c s = None.
Proof.
  induction s as [|x s IH]; [done|].
  rewrite contains_char_cons. intros [Hcx Hs]%orb_false_iff.
  simpl. rewrite Ascii.eqb_sym, Hcx. by rewrite IH.
Qed.

Lemma at_word_end_starts post :
  at_word_end post = true ↔ starts_with_word post = false.
Proof. destruct post; simpl; [done|]. apply negb_true_iff. Qed.

Lemma colon_eqb x : Ascii.eqb ":" x = true → x = ":"%char.
Proof. intros H. symmetry. by apply Ascii.eqb_eq. Qed.

Lemma time_token_nonempty m : is_time_token m → m ≠ "".
Proof.
  intros (h & mi & -> & [Hh | Hh] & _); destruct h; simpl in *; done.
Qed.

Lemma match_classes_spec ps s m rest :
  match_classes ps s = Some (m, rest) ↔ s = m +:+ rest ∧ fits ps m = true.
Proof.
  split.
  - revert s m. induction ps as [|p ps IH]; intros s m; simpl.
    + by intros ?; simplify_eq.
    + destruct s as [|c s]; [done|].
      destruct (p c) eqn:Hp; [|done].
      destruct (match_classes ps s) as [[m' rest']|] eqn:Hrec; [|done].
      intros ?; simplify_eq. apply IH in Hrec as [-> Hfit].
      simpl. by rewrite Hp.
  - intros [-> Hfit]. revert m Hfit.
    induction ps as [|p ps IH]; intros m Hfit.
    + by destruct m.
    + destruct m as [|c m]; [done|]. simpl in Hfit.
      apply andb_true_iff in Hfit as [Hp Hfit].
      simpl. by rewrite Hp, (IH _ Hfit).
Qed.

Lemma time_attempt_spec k s m :
  time_attempt k s = Some m ↔
  ∃ post, s = m +:+ post ∧ fits (time_classes k) m = true
          ∧ starts_with_word post = false.
Proof.
  unfold time_attempt. fold (time_classes k). split.
  - destruct (match_classes _ s) as [[m' rest]|] eqn:Hm; [|done].
    apply match_classes_spec in Hm as [-> Hfit].
    destruct (at_word_end rest) eqn:Hend; [|done].
    intros ?; simplify_eq. exists rest.
    split_and!; [done|done|]. by apply at_word_end_starts.
  - intros (post & -> & Hfit & Hpost).
    assert (match_classes (time_classes k) (m +:+ post) = Some (m, post))
      as -> by (by apply match_classes_spec).
    apply at_word_end_starts in Hpost. by rewrite Hpost.
Qed.

Lemma time_token_fits m :
  is_time_token m ↔
  fits (time_classes 1) m = true ∨ fits (time_classes 2) m = true.
Proof.
  split.
  - intros (h & mi & -> & Hh & Hmi & Hdh & Hdmi).
    destruct mi as [|c [|d [|]]]; simpl in Hmi; try lia.
    simpl in Hdmi. apply andb_true_iff in Hdmi as [Hc [Hd _]%andb_true_iff].
    destruct Hh as [Hh | Hh].
    + destruct h as [|a [|]]; simpl in Hh; try lia.
      simpl in Hdh. apply andb_true_iff in Hdh as [Ha _].
      left. simpl. by rewrite Ha, Hc, Hd.
    + destruct h as [|a [|b [|]]]; simpl in Hh; try lia.
      simpl in Hdh. apply andb_true_iff in Hdh as [Ha [Hb _]%andb_true_iff].
      right. simpl. by rewrite Ha, Hb, Hc, Hd.
  - intros [Hfit | Hfit].
    + destruct m as [|a [|x [|c [|d [|]]]]]; simpl in Hfit;
        rewrite ?andb_false_r in Hfit; try done.
      apply andb_true_iff in Hfit as [Ha Hfit].
      apply andb_true_iff in Hfit as [Hx Hfit].
      apply andb_true_iff in Hfit as [Hc Hfit].
      apply andb_true_iff in Hfit as [Hd _].
      apply colon_eqb in Hx as ->.
      exists (String a ""), (String c (String d "")). simpl.
      rewrite Ha, Hc, Hd. auto.
    + destruct m as [|a [|b [|x [|c [|d [|]]]]]]; simpl in Hfit;
        rewrite ?andb_false_r in Hfit; try done.
      apply andb_true_iff in Hfit as [Ha Hfit].
      apply andb_true_iff in Hfit as [Hb Hfit].
      apply andb_true_iff in Hfit as [Hx Hfit].
      apply andb_true_iff in Hfit as [Hc Hfit].
      apply andb_true_iff in Hfit as [Hd _].
      apply colon_eqb in Hx as ->.
      exists (String a (String b "")), (String c (String d "")). simpl.
      rewrite Ha, Hb, Hc, Hd. auto.
Qed.

(** The attempt at the head of [s] succeeds exactly when a token followed
    by a word boundary starts there, and returns that token. *)
Lemma time_here_spec s m :
  time_here s = Some m ↔
  ∃ post, s = m +:+ post ∧ is_time_token m ∧ starts_with_word post = false.
Proof.
  unfold time_here. split.
  - destruct (time_attempt 2 s) as [m2|] eqn:H2.
    + intros ?; simplify_eq.
      apply time_attempt_spec in H2 as (post & ? & ? & ?).
      exists post. split_and!; [done| |done]. apply time_token_fits. auto.
    + intros (post & ? & ? & ?)%time_attempt_spec.
      exists post. split_and!; [done| |done]. apply time_token_fits. auto.
  - intros (post & -> & [Hfit | Hfit]%time_token_fits & Hpost).
    + destruct (time_attempt 2 (m +:+ post)) as [m2|] eqn:H2.
      * exfalso.
        apply time_attempt_spec in H2 as (post2 & Heq & Hfit2 & _).
        destruct m as [|a [|x m]]; simpl in Hfit;
          rewrite ?andb_false_r in Hfit; try done.
        apply andb_true_iff in Hfit as [_ [Hx _]%andb_true_iff].
        apply colon_eqb in Hx as ->.
        destruct m2 as [|a2 [|b2 m2]]; simpl in Hfit2;
          rewrite ?andb_false_r in Hfit2; try done.
        apply andb_true_iff in Hfit2 as [_ [Hb _]%andb_true_iff].
        simpl in Heq. by simplify_eq.
      * apply time_attempt_spec. eauto.
    + assert (time_attempt 2 (m +:+ post) = Some m) as ->; [|done].
      apply time_attempt_spec. eauto.
Qed.

Lemma ends_with_word_snoc pre c :
  ends_with_word (pre +:+ String c "") = PyStr.is_word c.
Proof.
  induction pre as [|x pre IH]; [done|].
  simpl. rewrite IH. by destruct pre.
Qed.

Lemma app_snoc pre c s : pre +:+ String c s = (pre +:+ String c "") +:+ s.
Proof. by rewrite app_assoc_str. Qed.

(** [time_search] returns the token of the leftmost position of [s] where
    a token stands between word boundaries; [pre] is the text before
    [s]. *)
Lemma time_search_spec s pre :
  match time_search (ends_with_word pre) s with
  | Some m =>
      ∃ skip post,
        s = skip +:+ m +:+ post
        ∧ is_time_token m
        ∧ ends_with_word (pre +:+ skip) = false
        ∧ starts_with_word post = false
        ∧ ∀ skip' m' post',
            s = skip' +:+ m' +:+ post' → is_time_token m' →
            ends_with_word (pre +:+ skip') = false →
            starts_with_word post' = false →
            (String.length skip ≤ String.length skip')%nat
  | None =>
      ∀ skip' m' post',
        s = skip' +:+ m' +:+ post' → is_time_token m' →
        ends_with_word (pre +:+ skip') = false →
        starts_with_word post' = false → False
  end.
Proof.
  revert pre. induction s as [|c s IH]; intros pre.
  - assert (time_search (ends_with_word pre) "" = None) as ->.
    { simpl. by destruct (ends_with_word pre). }
    intros skip' m' post' Heq Htok _ _.
    apply time_token_nonempty in Htok.
    destruct skip'; [|done]. by destruct m'.
  - cbn [time_search].
    destruct (if ends_with_word pre then None else time_here (String c s))
      as [m|] eqn:Hhere.
    + destruct (ends_with_word pre) eqn:Hpre; [done|].
      apply time_here_spec in Hhere as (post & Heq & Htok & Hpost).
      exists "", post. simpl. rewrite app_empty_r.
      split_and!; try done. intros. lia.
    + assert (∀ m' post', String c s = m' +:+ post' → is_time_token m' →
                          ends_with_word pre = false →
                          starts_with_word post' = false → False) as Hnot.
      { intros m' post' Heq Htok Hpre Hpost. rewrite Hpre in Hhere.
        assert (time_here (String c s) = Some m'); [|congruence].
        apply time_here_spec. eauto. }
      specialize (IH (pre +:+ String c "")).
      rewrite ends_with_word_snoc in IH.
      destruct (time_search (PyStr.is_word c) s) as [m|].
      * destruct IH as (skip & post & -> & Htok & Hpre & Hpost & Hmin).
        exists (String c skip), post. simpl.
        rewrite app_snoc. split_and!; try done.
        intros [|c' skip'] m' post' Heq Htok' Hpre' Hpost'.
        -- exfalso. simpl in Heq. rewrite app_empty_r in Hpre'.
           by eapply Hnot.
        -- simpl in Heq. simplify_eq. rewrite app_snoc in Hpre'.
           simpl. apply le_n_S. by eapply Hmin.
      * intros [|c' skip'] m' post' Heq Htok' Hpre' Hpost'.
        -- simpl in Heq. rewrite app_empty_r in Hpre'. by eapply Hnot.
        -- simpl in Heq. simplify_eq. rewrite app_snoc in Hpre'.
           by eapply IH.
Qed.

(** The fallback time is the first hour:minute token of the text. *)
Lemma first_time_from_text_spec text :
  first_time text (first_time_from_text text).
Proof.
  unfold first_time, first_time_from_text, time_at.
  pose proof (time_search_spec text "") as H. simpl in H.
  destruct (time_search false text) as [m|].
  - destruct H as (skip & post & -> & Htok & Hpre & Hpost & Hmin).
    left. exists skip, post. split; [done|].
    intros pre' m' post' (Heq & ? & ? & ?). by eapply Hmin.
  - right. split; [done|].
    intros pre' m' post' (Heq & ? & ? & ?). by eapply H.
Qed.

Lemma split_dt_text s :
  split_dt (PStr s)
  = Ok (match PyStr.split_once "T" s with
        | Some (d, t) => (PyStr.strip d, PyStr.take 5 (PyStr.strip t))
        | None => (PyStr.strip s, "")
        end).
Proof.
  unfold split_dt. destruct s as [|c s]; [done|].
  simpl truthy. cbn [negb]. by destruct (PyStr.split_once "T" (String c s)) as [[d t]|].
Qed.

(** The builder returns when [split_dt] does and the ticket URL is
    joined; the record it returns. *)
Lemma row_from_event_Ok now e container link dt :
  split_dt (dict_get e "startDate" (PStr "")) = Ok dt →
  ticket_url_joins e →
  ∃ ticket,
    row_from_event now e container link
    = Ok {| title := dict_get e "name" (PStr "");
            location :=
              dict_get (as_dict (dict_get e "location" PNone)) "name"
                (PStr "");
            city :=
              dict_get
                (as_dict (dict_get (as_dict (dict_get e "location" PNone))
                            "address" PNone))
                "addressLocality" (PStr "");
            start_date := fst dt;
            start_time :=
              if PyStr.is_empty (snd dt)
              then first_time_from_text (flat_text container)
              else snd dt;
            event_link := link;
            ticket_link := ticket;
            scraped_at := now |}
    ∧ (assoc "url" (as_dict (dict_get e "offers" PNone)) = None →
       ticket = PStr "").
Proof.
  intros Hdt Hjoin. unfold row_from_event, ticket_url_joins, abs_url in *.
  rewrite Hdt. cbn [bind].
  set (v := dict_get (as_dict (dict_get e "offers" PNone)) "url" (PStr ""))
    in *.
  assert (assoc "url" (as_dict (dict_get e "offers" PNone)) = None →
          v = PStr "") as Hnone by (unfold v, dict_get; by intros ->).
  destruct v as [| | |t| |]; simpl;
    try (eexists; split; [reflexivity | intros H; by specialize (Hnone H)]).
  destruct (PyStr.startswith "/" t) eqn:Ht; simpl.
  - destruct (Hjoin eq_refl) as [u ->]. simpl.
    eexists. split; [reflexivity|]. intros H.
    specialize (Hnone H). by simplify_eq.
  - eexists. split; [reflexivity|]. intros H. by specialize (Hnone H).
Qed.

(** C7. For a [startDate] that is a text, the record builder returns a
    record, the ticket URL being one the URL library joins; the texts
    are texts of ASCII characters.  A value [d T t] with no [T] in [d]
    gives the date [d] and the first five characters of [t] as the
    time; when that leaves no time of day, the time is the first
    hour:minute token of the flattened text of the container.  So
    "2025-05-01T19:00" gives the date "2025-05-01" and the time "19:00",
    and "2025-05-01" with the container text "Doors 18:30, show 19:00"
    gives the time "18:30". *)
Theorem record_builder_date_time now e container link s :
  dict_get e "startDate" (PStr "") = PStr s →
  PyStr.ascii_only s = true →
  PyStr.ascii_only (raw_text container) = true →
  ticket_url_joins e →
  ∃ r,
    row_from_event now e container link = Ok r
    ∧ (∀ d t, s = d +:+ "T" +:+ t → PyStr.contains "T" d = false →
              start_date r = PyStr.strip d
              ∧ (PyStr.take 5 (PyStr.strip t) ≠ "" →
                 start_time r = PyStr.take 5 (PyStr.strip t))
              ∧ (PyStr.take 5 (PyStr.strip t) = "" →
                 first_time (flat_text container) (start_time r)))
    ∧ (PyStr.contains "T" s = false →
       start_date r = PyStr.strip s
       ∧ first_time (flat_text container) (start_time r))
    ∧ (s = "2025-05-01T19:00" →
       start_date r = "2025-05-01" ∧ start_time r = "19:00")
    ∧ (s = "2025-05-01" →
       flat_text container = "Doors 18:30, show 19:00" →
       start_date r = "2025-05-01" ∧ start_time r = "18:30").
Proof.
  intros Hs _ _ Hjoin.
  destruct (row_from_event_Ok now e container link _
              (eq_trans (f_equal split_dt Hs) (split_dt_text s)) Hjoin)
    as (ticket & Hr & _).
  eexists. split; [exact Hr|]. cbn [start_date start_time].
  split_and!.
  - intros d t -> Hd. change (d +:+ "T" +:+ t) with (d +:+ String "T" t).
    rewrite (split_once_app _ _ _ Hd). cbn [fst snd].
    split_and!; [done| |].
    + intros Hne. apply is_empty_false in Hne. by rewrite Hne.
    + intros Hnil. rewrite Hnil. simpl. apply first_time_from_text_spec.
  - intros Hno. rewrite (split_once_None _ _ Hno). cbn [fst snd].
    split; [done|]. simpl. apply first_time_from_text_spec.
  - intros ->. by vm_compute.
  - intros -> Htext. rewrite Htext. by vm_compute.
Qed.

(** C9, at the input where the builder fails: an event object whose
    [startDate] is a number.  The membership test ["T" in s] of
    [split_dt] raises, and no record is built. *)
Theorem row_from_event_raises_on_numeric_start now container link :
  row_from_event now
    [("@type", PStr "Event"); ("startDate", PInt 20250501)] container link
  = Raise TypeError.
Proof. reflexivity. Qed.

(** With a [startDate] that is absent or a text, and a ticket URL the
    URL library joins, the builder returns, and every nested field that
    is absent comes out as the empty string. *)
Lemma row_from_event_missing_fields now e container link :
  (assoc "startDate" e = None ∨ ∃ s, assoc "startDate" e = Some (PStr s)) →
  ticket_url_joins e →
  ∃ r,
    row_from_event now e container link = Ok r
    ∧ (assoc "name" e = None → title r = PStr "")
    ∧ (assoc "name" (as_dict (dict_get e "location" PNone)) = None →
       location r = PStr "")
    ∧ (assoc "addressLocality"
         (as_dict (dict_get (as_dict (dict_get e "location" PNone))
                     "address" PNone)) = None →
       city r = PStr "")
    ∧ (assoc "url" (as_dict (dict_get e "offers" PNone)) = None →
       ticket_link r = PStr "")
    ∧ (assoc "startDate" e = None → start_date r = "").
Proof.
  intros Hstart Hjoin.
  assert (∃ s, dict_get e "startDate" (PStr "") = PStr s
               ∧ (assoc "startDate" e = None → s = "")) as (s & Hs & Hnone).
  { unfold dict_get. destruct Hstart as [-> | [s ->]]; eauto.
    exists s. split; [done|]. done. }
  destruct (row_from_event_Ok now e container link _
              (eq_trans (f_equal split_dt Hs) (split_dt_text s)) Hjoin)
    as (ticket & Hr & Hticket).
  eexists. split; [exact Hr|]. simpl. unfold dict_get.
  split_and!; try (by intros ->); [done|].
  intros H. by rewrite (Hnone H).
Qed.

(** ** The series marker *)

Lemma prefix_app_r sub s post :
  String.prefix sub s = true → String.prefix sub (s +:+ post) = true.
Proof. drop_unused.
  revert s. induction sub as [|a sub IH]; intros s.
  { intros _. by destruct (s +:+ post). }
  destruct s as [|b s]; simpl; [done|].
  destruct (ascii_dec a b); [apply IH | done].
Qed.

(** A part of a text that holds [sub] makes the text hold it. *)
Lemma contains_app sub pre s post :
  PyStr.contains sub s = true →
  PyStr.contains sub (pre +:+ s +:+ post) = true.
Proof. drop_unused.
  intros H. induction pre as [|c pre IH].
  - simpl. clear -H. induction s as [|c s IH].
    + simpl in *. rewrite orb_false_r in H.
      destruct sub; [|done]. by destruct post.
    + cbn [PyStr.contains] in H. apply orb_true_iff in H as [H | H].
      * change (String c s +:+ post) with (String c (s +:+ post)).
        cbn [PyStr.contains].
        change (String c (s +:+ post)) with (String c s +:+ post).
        by rewrite (prefix_app_r _ _ _ H).
      * change (String c s +:+ post) with (String c (s +:+ post)).
        cbn [PyStr.contains]. rewrite (IH H). apply orb_true_r.
  - change (String c pre +:+ s +:+ post)
      with (String c (pre +:+ s +:+ post)).
    cbn [PyStr.contains]. rewrite IH. apply orb_true_r.
Qed.

Lemma join_empty_elem l s :
  s ∈ l → ∃ pre post, PyStr.join "" l = pre +:+ s +:+ post.
Proof. drop_unused.
  induction l as [|x l IH]; [by intros ?%elem_of_nil|].
  assert (PyStr.join "" (x :: l) = x +:+ PyStr.join "" l) as ->.
  { destruct l; simpl; [by rewrite app_empty_r | done]. }
  intros [-> | Hin]%elem_of_cons.
  - by exists "", (PyStr.join "" l).
  - destruct (IH Hin) as (pre & post & ->).
    exists (x +:+ pre), post. by rewrite app_assoc_str.
Qed.

(** The raw text of a container holds each of its strings. *)
Lemma container_string_raw c s :
  container_string c s →
  ∃ pre post, raw_text (Some c) = pre +:+ s +:+ post.
Proof. drop_unused.
  intros (name & attrs & cs & q & cls & -> & Hin & Hcls).
  unfold raw_text, get_text. apply join_empty_elem.
  cbn [all_strings]. apply list_elem_of_omap.
  exists (q, Str cls s). split; [done|]. simpl. by rewrite Hcls.
Qed.

(** C3. A record built on a listing page is a series placeholder exactly
    when its venue name is empty (in Python's sense: the empty string, or
    a null, zero, false or empty value) or the raw text of its container
    contains the phrase "Different venues"; a placeholder is put into the
    pending series set with the record cached as its fallback, and the
    output accumulator is left as it was; any other record is appended to
    the output accumulator.  In particular an event object whose
    [location.name] is empty is routed to the series set; so is a record
    with a venue when one of the strings of its container holds the
    phrase; and a record with a venue whose container text does not hold
    the phrase is appended to the output accumulator. *)
Theorem series_classification_routes soup st b r :
  resolved_link soup b ≠ "" →
  resolved_link soup b ∉ seen_event_pages st →
  row_from_event (utcnow (clock st)) (snd b) (resolved_container soup b)
    (resolved_link soup b) = Ok r →
  let link := resolved_link soup b in
  let container := resolved_container soup b in
  let pending :=
    CrawlState (rows st) ({[link]} ∪ series_links st)
      (<[link := r]> (series_fallback st))
      ({[link]} ∪ seen_event_pages st) (S (clock st)) in
  let direct :=
    CrawlState (rows st ++ [r]) (series_links st) (series_fallback st)
      ({[link]} ∪ seen_event_pages st) (S (clock st)) in
  (is_series r container = true ↔
     truthy (location r) = false
     ∨ PyStr.contains "Different venues" (raw_text container) = true)
  ∧ (is_series r container = true → listing_block soup st b = Ok pending)
  ∧ (is_series r container = false → listing_block soup st b = Ok direct)
  ∧ (truthy (dict_get (as_dict (dict_get (snd b) "location" PNone))
               "name" (PStr "")) = false →
     listing_block soup st b = Ok pending)
  ∧ (∀ c s, container = Some c → container_string c s →
            PyStr.contains "Different venues" s = true →
            listing_block soup st b = Ok pending)
  ∧ (truthy (location r) = true →
     (∀ c, container = Some c →
           PyStr.contains "Different venues" (get_text "" false c) = false) →
     listing_block soup st b = Ok direct).
Proof.
  intros Hne Hfresh Hr link container pending direct.
  assert (listing_block soup st b
          = Ok (if is_series r container then pending else direct)) as Hrun.
  { unfold listing_block. subst link container pending direct.
    unfold resolved_link, resolved_container, resolved in *.
    destruct (find_container_and_event_link soup (fst b))
      as [[c l]|e]; [|done].
    simpl in *. apply is_empty_false in Hne. rewrite Hne. simpl.
    rewrite bool_decide_eq_false_2 by done. rewrite Hr. simpl.
    by destruct (is_series r (node_at soup c)). }
  assert (is_series r container = true ↔
            truthy (location r) = false
            ∨ PyStr.contains "Different venues" (raw_text container) = true)
    as Hiff.
  { unfold is_series. rewrite orb_true_iff, negb_true_iff. done. }
  split_and!; [done| | | | |].
  - intros Hs. by rewrite Hrun, Hs.
  - intros Hs. by rewrite Hrun, Hs.
  - intros Hloc. apply row_from_event_fields in Hr as (_ & _ & _ & Hl & _).
    rewrite <- Hl in Hloc.
    assert (is_series r container = true) as Hs by (apply Hiff; auto).
    by rewrite Hrun, Hs.
  - intros c s Hc Hstr Hmark.
    assert (is_series r container = true) as Hs.
    { apply Hiff. right. rewrite Hc.
      destruct (container_string_raw c s Hstr) as (pre & post & ->).
      by apply contains_app. }
    by rewrite Hrun, Hs.
  - intros Hloc Hnone.
    assert (is_series r container = false) as Hs.
    { unfold is_series. rewrite Hloc. simpl. unfold raw_text.
      destruct container as [c|]; [by apply Hnone | done]. }
    by rewrite Hrun, Hs.
Qed.

(** * Further properties of the pipeline *)

(** ** The ascent of the resolver *)

Lemma under_intro desc k cs i c :
  cs !! i = Some c →
  ∀ p m, (p, m) ∈ desc c → ((k + i)%nat :: p, m) ∈ under desc k cs.
Proof. drop_unused.
  revert k i. induction cs as [|c0 cs IH]; intros k i Hi p m Hin; [done|].
  simpl. destruct i as [|i]; simpl in Hi.
  - simplify_eq. rewrite Nat.add_0_r. apply elem_of_cons; right.
    apply elem_of_app; left.
    apply list_elem_of_fmap. by exists (p, m).
  - apply elem_of_cons; right. apply elem_of_app; right.
    replace (k + S i)%nat with (S k + i)%nat by lia. by apply IH.
Qed.

(** The descendants of a child are descendants of its parent. *)
Lemma descendants_child name attrs cs i c p m :
  cs !! i = Some c → (p, m) ∈ descendants c →
  (i :: p, m) ∈ descendants (Tag name attrs cs).
Proof. drop_unused.
  intros Hi Hin. simpl.
  by apply (under_intro descendants 0 cs i c Hi).
Qed.

Lemma subtree_last_child soup q n :
  q ≠ [] → subtree soup q = Some n →
  ∃ name attrs cs i,
    subtree soup (removelast q) = Some (Tag name attrs cs)
    ∧ cs !! i = Some n.
Proof. drop_unused.
  intros Hne Hq. rewrite (app_removelast_last 0%nat Hne), subtree_app in Hq.
  destruct (subtree soup (removelast q)) as [[name attrs cs|]|]; simpl in Hq;
    try done.
  destruct (cs !! List.last q 0%nat) as [c|] eqn:Hc; [|done].
  simpl in Hq. simplify_eq. by exists name, attrs, cs, (List.last q 0%nat).
Qed.

(** The nodes beneath a node are beneath its parent. *)
Lemma descendants_parent soup q n n' p a :
  q ≠ [] → subtree soup q = Some n →
  subtree soup (removelast q) = Some n' →
  (p, a) ∈ descendants n → ∃ p', (p', a) ∈ descendants n'.
Proof. drop_unused.
  intros Hne Hq Hup Hin.
  destruct (subtree_last_child soup q n Hne Hq)
    as (name & attrs & cs & i & Hup' & Hi).
  rewrite Hup in Hup'. simplify_eq.
  exists (i :: p). by eapply descendants_child.
Qed.

Lemma ancestor_0_inv soup x p up n :
  ancestor soup (x :: p) 0 = Some (up, n) →
  up = removelast (x :: p) ∧ subtree soup up = Some n.
Proof. drop_unused.
  unfold ancestor. rewrite parents_cons. cbn -[removelast subtree].
  destruct (subtree soup (removelast (x :: p))) eqn:Hn; [|done].
  by intros ?; simplify_eq.
Qed.

Lemma descendants_next_ancestor soup cur j up n up' n' p a :
  ancestor soup cur j = Some (up, n) →
  ancestor soup cur (S j) = Some (up', n') →
  (p, a) ∈ descendants n → ∃ p', (p', a) ∈ descendants n'.
Proof. drop_unused.
  revert cur. induction j as [|j IH]; intros cur Hj HSj.
  - destruct cur as [|c cur]; [by rewrite ancestor_nil in Hj|].
    apply ancestor_0_inv in Hj as [-> Hn]. rewrite ancestor_S in HSj.
    destruct (removelast (c :: cur)) as [|d rest] eqn:Hrem;
      [by rewrite ancestor_nil in HSj|].
    apply ancestor_0_inv in HSj as [-> Hn'].
    by apply (descendants_parent soup (d :: rest)).
  - destruct cur as [|c cur]; [by rewrite ancestor_nil in Hj|].
    rewrite ancestor_S in Hj, HSj. by apply (IH (removelast (c :: cur))).
Qed.

Lemma ancestor_below soup cur i :
  is_Some (subtree soup cur) →
  is_Some (ancestor soup cur (S i)) → is_Some (ancestor soup cur i).
Proof. drop_unused.
  intros Hvalid. unfold ancestor.
  destruct (parents cur !! S i) as [q'|] eqn:Hq'; [|by intros [? ?]].
  intros _.
  assert (is_Some (parents cur !! i)) as [q Hq].
  { apply lookup_lt_is_Some. apply lookup_lt_Some in Hq'. lia. }
  rewrite Hq.
  pose proof (parents_valid soup cur Hvalid) as Hall.
  rewrite Forall_lookup in Hall. destruct (Hall i q Hq) as [n ->]. eauto.
Qed.

Lemma descendants_ancestors soup cur j i up n up' n' p a :
  is_Some (subtree soup cur) →
  (j ≤ i)%nat →
  ancestor soup cur j = Some (up, n) →
  ancestor soup cur i = Some (up', n') →
  (p, a) ∈ descendants n → ∃ p', (p', a) ∈ descendants n'.
Proof. drop_unused.
  intros Hvalid Hle Hj. revert up' n'.
  induction i as [|i IH]; intros up' n' Hi Hx.
  - assert (j = 0%nat) as -> by lia. simplify_eq. eauto.
  - destruct (decide (j = S i)) as [-> | Hne]; [simplify_eq; eauto|].
    destruct (ancestor_below soup cur i Hvalid) as [[up0 n0] H0]; [eauto|].
    destruct (IH ltac:(lia) up0 n0 H0 Hx) as [p0 Hp0].
    by apply (descendants_next_ancestor soup cur i up0 n0 up' n' p0 a).
Qed.

(** The links grow along the chain of ancestors. *)
Lemma links_under_ancestors soup cur j i up n up' n' links links' x :
  is_Some (subtree soup cur) →
  (j ≤ i)%nat →
  ancestor soup cur j = Some (up, n) →
  ancestor soup cur i = Some (up', n') →
  links_under n = Ok links → links_under n' = Ok links' →
  x ∈ links → x ∈ links'.
Proof.
  intros Hvalid Hle Hj Hi Hl Hl'.
  rewrite (links_under_elem n links x Hl), (links_under_elem n' links' x Hl').
  intros (p & a & Hin & Ha & Hx).
  destruct (descendants_ancestors soup cur j i up n up' n' p a) as [p' Hp'];
    eauto.
Qed.

(** X1. When the loop of the resolver takes the link from an ancestor,
    no nearer ancestor of the block has any detail-shaped link beneath
    it: the levels the loop passes over are levels without links. *)
Theorem ascent_passes_over_empty_levels soup script_tag fuel up u :
  is_Some (subtree soup script_tag) →
  ascend soup fuel script_tag = Ok (Some up, u) →
  ∃ i n,
    (i < fuel)%nat
    ∧ ancestor soup script_tag i = Some (up, n)
    ∧ sole_link n u
    ∧ ∀ j up' n', (j < i)%nat →
                  ancestor soup script_tag j = Some (up', n') →
                  links_under n' = Ok [].
Proof.
  intros Hvalid Hasc.
  pose proof (ascend_spec soup fuel script_tag Hvalid) as Hspec.
  rewrite Hasc in Hspec. destruct Hspec as (i & n & Hi & Hanc & Hsole & Hamb).
  exists i, n. split_and!; [done|done|done|].
  intros j up' n' Hj Hanc'.
  destruct (Hamb j up' n' Hj Hanc') as (links' & Hlinks' & Hnot).
  destruct links' as [|x rest]; [done|]. exfalso.
  destruct Hsole as (links & Hlinks & Hsole).
  assert (∀ z, z ∈ x :: rest → z = u) as Hup.
  { intros z Hz. apply Hsole.
    by apply (links_under_ancestors soup script_tag j i up' n' up n
                (x :: rest) links); [done | lia | ..]. }
  apply Hnot. exists u. intros z. split; [by apply Hup|].
  intros ->. rewrite <- (Hup x); by apply elem_of_cons; left.
Qed.

(** X2. When the nearest ancestor with any detail-shaped link beneath it
    has two different ones, and no link element encloses the block, the
    block is not resolved, whatever lies further up: the resolver
    returns no container and the empty link, or it raises [ValueError],
    the URL library having rejected an [href] beneath one of the
    ancestors further up; and it returns when the links beneath each of
    the first ten ancestors are read. *)
Theorem two_links_at_nearest_level_unresolved
    soup script_tag j up n links x y :
  is_Some (subtree soup script_tag) →
  no_enclosing_detail_link soup script_tag →
  ancestor soup script_tag j = Some (up, n) →
  links_under n = Ok links →
  x ∈ links → y ∈ links → x ≠ y →
  (∀ k up' n', (k < j)%nat → ancestor soup script_tag k = Some (up', n') →
               links_under n' = Ok []) →
  match find_container_and_event_link soup script_tag with
  | Ok res => res = (None, "")
  | Raise e =>
      e = ValueError
      ∧ ∃ i up' n', (j < i < 10)%nat
                    ∧ ancestor soup script_tag i = Some (up', n')
                    ∧ links_under n' = Raise ValueError
  end
  ∧ ((∀ i up' n', (i < 10)%nat →
                  ancestor soup script_tag i = Some (up', n') →
                  ∃ l, links_under n' = Ok l) →
     find_container_and_event_link soup script_tag = Ok (None, "")).
Proof.
  intros Hvalid Hno Hanc Hlinks Hx Hy Hxy Hbelow.
  pose proof (resolver_resolves soup script_tag Hvalid) as Hres.
  assert (match find_container_and_event_link soup script_tag with
          | Ok res => res = (None, "")
          | Raise e =>
              e = ValueError
              ∧ ∃ i up' n', (j < i < 10)%nat
                            ∧ ancestor soup script_tag i = Some (up', n')
                            ∧ links_under n' = Raise ValueError
          end) as Hcases.
  { destruct (find_container_and_event_link soup script_tag) as [res|e].
    - destruct Hres as [a m link Henc Hlink
                       | i up0 n0 u _ Hi Hanc0 Hsole Hamb|]; [| |done].
      + by rewrite (Hno a m Henc) in Hlink.
      + exfalso. destruct Hsole as (links0 & Hlinks0 & Hsole).
        destruct (Nat.lt_ge_cases i j) as [Hlt | Hge].
        * pose proof (proj2 (Hsole u) eq_refl) as Hu.
          rewrite (Hbelow i up0 n0 Hlt Hanc0) in Hlinks0. simplify_eq.
          by apply elem_of_nil in Hu.
        * apply Hxy. transitivity u; [|symmetry]; apply Hsole;
            by apply (links_under_ancestors soup script_tag j i up n up0 n0
                        links links0).
    - destruct Hres as [-> [(a & m & Henc & Hraise)
                           | (_ & i & up0 & n0 & Hi & Hanc0 & Hraise & _)]].
      + by rewrite (Hno a m Henc) in Hraise.
      + split; [done|]. exists i, up0, n0.
        cut (j < i)%nat; [by intros; split_and!|].
        destruct (Nat.lt_trichotomy i j) as [Hlt | [-> | Hlt]]; [| |done].
        * rewrite (Hbelow i up0 n0 Hlt Hanc0) in Hraise. done.
        * rewrite Hanc in Hanc0. simplify_eq. congruence. }
  split; [done|]. intros Hread.
  destruct (find_container_and_event_link soup script_tag) as [res|e];
    [by rewrite Hcases|].
  destruct Hcases as (_ & i & up' & n' & [_ Hi] & Hanc' & Hraise).
  destruct (Hread i up' n' Hi Hanc') as [l Hl]. congruence.
Qed.

Lemma parents_prefix p i q :
  parents p !! i = Some q → ∃ suffix, suffix ≠ [] ∧ p = q ++ suffix.
Proof. drop_unused.
  revert p. induction i as [|i IH]; intros p Hq.
  - destruct p as [|x p]; [done|]. rewrite parents_cons in Hq.
    cbn -[removelast] in Hq. simplify_eq.
    exists [List.last (x :: p) 0%nat]. split; [done|].
    by apply app_removelast_last.
  - destruct p as [|x p]; [done|]. rewrite parents_cons in Hq.
    cbn -[removelast] in Hq. apply IH in Hq as (suffix & Hne & Heq).
    exists (suffix ++ [List.last (x :: p) 0%nat]). split.
    + by destruct suffix.
    + rewrite app_assoc, <- Heq. by apply app_removelast_last.
Qed.

Lemma ancestor_prefix soup p i up n :
  ancestor soup p i = Some (up, n) →
  subtree soup up = Some n ∧ ∃ suffix, suffix ≠ [] ∧ p = up ++ suffix.
Proof. drop_unused.
  unfold ancestor. destruct (parents p !! i) as [q|] eqn:Hq; [|done].
  destruct (subtree soup q) as [m|] eqn:Hm; [|done].
  intros ?; simplify_eq. split; [done|]. by eapply parents_prefix.
Qed.

(** X3. A container the resolver returns is a tag of the document that
    encloses the block, and the link it returns with it is the link of an
    [a] element with an [href] of the document: of the container itself,
    when the container is the enclosing link element, and otherwise of an
    element beneath the container. *)
Theorem resolved_link_is_a_link_of_the_container soup script_tag up link :
  is_Some (subtree soup script_tag) →
  find_container_and_event_link soup script_tag = Ok (Some up, link) →
  ∃ n suffix,
    subtree soup up = Some n
    ∧ suffix ≠ [] ∧ script_tag = up ++ suffix
    ∧ ((is_a_href n = true ∧ detail_link (href_of n) = Ok (Some link))
       ∨ ∃ q a, (q, a) ∈ descendants n ∧ is_a_href a = true
                ∧ detail_link (href_of a) = Ok (Some link)).
Proof.
  intros Hvalid Hres.
  pose proof (resolver_resolves soup script_tag Hvalid) as Hspec.
  rewrite Hres in Hspec.
  inversion Hspec as [a n l (i & Hanc & Ha & _) Hlink
                     | i up0 n u _ _ Hanc Hsole _ |]; subst.
  - apply ancestor_prefix in Hanc as (Hn & suffix & Hne & Heq).
    exists n, suffix. split_and!; auto.
  - apply ancestor_prefix in Hanc as (Hn & suffix & Hne & Heq).
    exists n, suffix. split_and!; [done|done|done|]. right.
    destruct Hsole as (links & Hlinks & Hsole).
    apply (links_under_elem n links), Hsole; done.
Qed.

(** ** The rows of a run *)

Lemma listing_block_rows soup st b st' :
  listing_block soup st b = Ok st' →
  (∀ r, r ∈ rows st → event_link r ≠ "" ∧ truthy (location r) = true) →
  ∀ r, r ∈ rows st' → event_link r ≠ "" ∧ truthy (location r) = true.
Proof.
  intros H Hrows. apply listing_block_cases in H. simpl in H.
  destruct H as [[-> _] | (Hne & _ & r0 & Hr0 & ->)]; [done|].
  destruct (is_series r0 _) eqn:Hs; simpl; [done|].
  intros r [Hr | ->%list_elem_of_singleton]%elem_of_app; [auto|].
  apply row_from_event_link in Hr0. split; [congruence|].
  unfold is_series in Hs. apply orb_false_iff in Hs as [Hs _].
  by apply negb_false_iff in Hs.
Qed.

(** The records the listing phase appends all carry a link and a
    venue. *)
Lemma listing_phase_rows pages st1 :
  listing_phase pages initial_state = Ok st1 →
  ∀ r, r ∈ rows st1 → event_link r ≠ "" ∧ truthy (location r) = true.
Proof.
  intros H.
  eapply (for_each_invariant listing_page
            (fun s => ∀ r, r ∈ rows s →
                           event_link r ≠ "" ∧ truthy (location r) = true));
    [| |exact H].
  - intros s n s' Hs Hpage. unfold listing_page in Hpage.
    destruct (goto_listing n) as [soup|]; [|by simplify_eq].
    eapply (for_each_invariant (listing_block soup)
              (fun s => ∀ r, r ∈ rows s →
                             event_link r ≠ "" ∧ truthy (location r) = true));
      [|exact Hs|exact Hpage].
    intros s0 b s0' Hs0 Hb. by eapply listing_block_rows.
  - intros r Hr. by apply elem_of_nil in Hr.
Qed.

Lemma Forall2_elem_r {A B : Type} (R : A → B → Prop) l k y :
  Forall2 R l k → y ∈ k → ∃ x, x ∈ l ∧ R x y.
Proof. drop_unused.
  induction 1 as [|x y0 l k HR _ IH]; [by intros ?%elem_of_nil|].
  intros [-> | Hy]%elem_of_cons.
  - exists x. split; [by apply elem_of_cons; left | done].
  - destruct (IH Hy) as (x' & ? & ?). exists x'.
    split; [by apply elem_of_cons; right | done].
Qed.

(** Every record of the output accumulator carries a link, and has a
    venue unless it is the fallback cached for a pending series. *)
Lemma crawl_rows pages st :
  crawl pages = Ok st →
  ∀ r, r ∈ rows st →
       event_link r ≠ ""
       ∧ (truthy (location r) = true ∨ is_cached_fallback st r).
Proof.
  unfold crawl. intros H. apply bind_Ok in H as (st1 & H1 & H2).
  pose proof (listing_phase_rows pages st1 H1) as Hrows1.
  pose proof (listing_phase_inv pages st1 H1)
    as [_ Hseen _ Hdom Hlink Hnon].
  unfold series_phase in H2.
  cut (series_links st = series_links st1
       ∧ series_fallback st = series_fallback st1
       ∧ ∀ r, r ∈ rows st →
              event_link r ≠ ""
              ∧ (truthy (location r) = true ∨ is_cached_fallback st r));
    [by intros (_ & _ & ?)|].
  eapply (for_each_invariant series_step
            (fun s => series_links s = series_links st1
                      ∧ series_fallback s = series_fallback st1
                      ∧ ∀ r, r ∈ rows s →
                             event_link r ≠ ""
                             ∧ (truthy (location r) = true
                                ∨ is_cached_fallback s r)));
    [| |exact H2].
  - intros s url s' (Hl & Hf & Hrows) Hstep.
    apply series_step_cases in Hstep as (Hl' & Hf' & _ & Hc).
    assert (∀ r, is_cached_fallback s r → is_cached_fallback s' r) as Hkeep.
    { intros r [? ?]. split; [by rewrite Hl' | by rewrite Hf']. }
    split; [congruence|]. split; [congruence|].
    assert (∀ r, r ∈ rows (emit_fallback url s) →
                 event_link r ≠ ""
                 ∧ (truthy (location r) = true
                    ∨ (event_link r ∈ series_links st1
                       ∧ series_fallback st1 !! event_link r = Some r)))
      as Hemit.
    { unfold emit_fallback. rewrite Hf.
      destruct (series_fallback st1 !! url) as [fb|] eqn:Hfb.
      - simpl. intros r [Hr | ->%list_elem_of_singleton]%elem_of_app.
        + destruct (Hrows r Hr) as [? [? | [? ?]]]; [auto|].
          split; [done|]. right. by rewrite <- Hl, <- Hf.
        + pose proof (Hlink _ _ Hfb) as Hurl. subst url.
          assert (event_link fb ∈ series_links st1) as Hin.
          { apply Hdom. eauto. }
          split; [|auto]. intros Hempty. apply Hnon, Hseen.
          right. by rewrite <- Hempty.
      - intros r Hr. destruct (Hrows r Hr) as [? [? | [? ?]]]; [auto|].
        split; [done|]. right. by rewrite <- Hl, <- Hf. }
    destruct (goto_series url) as [soup|].
    + destruct (expansion soup url) as [|b0 q] eqn:Hexp.
      * subst s'. intros r Hr.
        destruct (Hemit r Hr) as [? [? | ?]]; [auto|].
        split; [done|]. right. unfold is_cached_fallback.
        by rewrite Hl', Hf', Hl, Hf.
      * destruct Hc as (new & Hnew & Hbuilt). rewrite Hnew.
        intros r [Hr | Hr]%elem_of_app.
        -- destruct (Hrows r Hr) as [? [? | ?]]; auto.
        -- destruct (Forall2_elem_r _ _ _ _ Hbuilt Hr) as (b & Hb & [now Hb']).
           rewrite <- Hexp in Hb.
           apply list_elem_of_filter in Hb as [Hq _].
           apply qualifies_true in Hq as (Hv & Hne & _).
           apply row_from_event_fields in Hb' as (-> & _ & _ & -> & _).
           split; [done|]. left. by apply venue_truthy.
    + subst s'. intros r Hr.
      destruct (Hemit r Hr) as [? [? | ?]]; [auto|].
      split; [done|]. right. unfold is_cached_fallback.
      by rewrite Hl', Hf', Hl, Hf.
  - split_and!; [done|done|]. intros r Hr.
    destruct (Hrows1 r Hr). auto.
Qed.

(** ** The table returned *)

Lemma keep_first_sublist seen l : keep_first seen l `sublist_of` l.
Proof.
  revert seen. induction l as [|r l IH]; intros seen; cbn [keep_first].
  - constructor.
  - destruct (existsb _ seen).
    + by apply sublist_cons.
    + by apply sublist_skip.
Qed.

Lemma drop_duplicates_sublist l table :
  drop_duplicates l = Ok table →
  table `sublist_of` l ∧ hd_error table = hd_error l.
Proof.
  unfold drop_duplicates. destruct l as [|r l]; [by intros; simplify_eq|].
  destruct (forallb _ _); [|done]. intros ?; simplify_eq.
  split; [exact (keep_first_sublist [] (r :: l)) | done].
Qed.

(** X4. Every record of the table returned carries a non-empty detail-page
    link. *)
Theorem table_rows_have_links pages table :
  scrape_bilietai_lt pages = Ok table →
  ∀ r, r ∈ table → event_link r ≠ "".
Proof.
  unfold scrape_bilietai_lt. intros H.
  apply bind_Ok in H as (st & Hcrawl & Hdrop).
  apply drop_duplicates_sublist in Hdrop as [Hsub _].
  intros r Hr. eapply crawl_rows; [exact Hcrawl|].
  eapply elem_of_sublist; [exact Hr | exact Hsub].
Qed.

(** X5. A record of the table returned whose venue is empty is the
    fallback record a listing card left for a series page: its link is
    one of the pending series links the run ended with, and the record
    is the one cached under that link. *)
Theorem table_rows_without_venue_are_fallbacks pages table :
  scrape_bilietai_lt pages = Ok table →
  ∃ st, crawl pages = Ok st
        ∧ ∀ r, r ∈ table → truthy (location r) = false →
               is_cached_fallback st r.
Proof.
  unfold scrape_bilietai_lt. intros H.
  apply bind_Ok in H as (st & Hcrawl & Hdrop).
  apply drop_duplicates_sublist in Hdrop as [Hsub _].
  exists st. split; [done|]. intros r Hr Hvenue.
  destruct (crawl_rows pages st Hcrawl r) as [_ [Htrue | Hfb]];
    [eapply elem_of_sublist; [exact Hr | exact Hsub] | congruence | done].
Qed.

(** X6. Whatever equality pandas uses on cells, the table returned is a
    subsequence of the accumulated rows, in their order, and it starts
    with the first accumulated row: de-duplication only removes rows, and
    never the first one. *)
Theorem table_is_subsequence_of_rows pages table :
  scrape_bilietai_lt pages = Ok table →
  ∃ st, crawl pages = Ok st
        ∧ table `sublist_of` rows st
        ∧ hd_error table = hd_error (rows st).
Proof.
  unfold scrape_bilietai_lt. intros H.
  apply bind_Ok in H as (st & Hcrawl & Hdrop).
  apply drop_duplicates_sublist in Hdrop as [Hsub Hhd]. by exists st.
Qed.

(** ** Dates and times of the records *)

Lemma rstrip_idemp s : PyStr.rstrip (PyStr.rstrip s) = PyStr.rstrip s.
Proof. drop_unused.
  induction s as [|c s IH]; [done|]. cbn [PyStr.rstrip].
  destruct (PyStr.is_space c && PyStr.is_empty (PyStr.rstrip s)) eqn:Hc;
    [done|].
  cbn [PyStr.rstrip]. by rewrite IH, Hc.
Qed.

Lemma lstrip_head s :
  PyStr.lstrip s = ""
  ∨ ∃ c s', PyStr.lstrip s = String c s' ∧ PyStr.is_space c = false.
Proof. drop_unused.
  induction s as [|c s IH]; [by left|]. cbn [PyStr.lstrip].
  destruct (PyStr.is_space c) eqn:Hc; [done|]. right. eauto.
Qed.

Lemma strip_idemp s : PyStr.strip (PyStr.strip s) = PyStr.strip s.
Proof. drop_unused.
  unfold PyStr.strip at 2 3.
  destruct (lstrip_head s) as [-> | (c & s' & -> & Hc)]; [done|].
  unfold PyStr.strip. cbn [PyStr.rstrip]. rewrite Hc. cbn [andb].
  cbn [PyStr.lstrip]. rewrite Hc. cbn [PyStr.rstrip]. rewrite Hc.
  cbn [andb]. by rewrite rstrip_idemp.
Qed.

Lemma contains_char_lstrip c s :
  PyStr.contains (String c "") s = false →
  PyStr.contains (String c "") (PyStr.lstrip s) = false.
Proof. drop_unused.
  induction s as [|x s IH]; [done|]. intros H. cbn [PyStr.lstrip].
  destruct (PyStr.is_space x); [|done].
  rewrite contains_char_cons in H. apply orb_false_iff in H as [_ H]. auto.
Qed.

Lemma contains_char_rstrip c s :
  PyStr.contains (String c "") s = false →
  PyStr.contains (String c "") (PyStr.rstrip s) = false.
Proof. drop_unused.
  induction s as [|x s IH]; [done|]. rewrite contains_char_cons.
  intros [Hx Hs]%orb_false_iff. cbn [PyStr.rstrip].
  destruct (PyStr.is_space x && PyStr.is_empty (PyStr.rstrip s)); [done|].
  rewrite contains_char_cons, Hx. cbn [orb]. auto.
Qed.

Lemma contains_char_strip c s :
  PyStr.contains (String c "") s = false →
  PyStr.contains (String c "") (PyStr.strip s) = false.
Proof. drop_unused.
  intros H. by apply contains_char_rstrip, contains_char_lstrip.
Qed.

Lemma split_once_before c s d t :
  PyStr.split_once c s = Some (d, t) →
  PyStr.contains (String c "") d = false ∧ s = d +:+ String c t.
Proof. drop_unused.
  revert d. induction s as [|x s IH]; intros d; [done|].
  cbn [PyStr.split_once]. destruct (Ascii.eqb x c) eqn:Hx.
  - intros ?; simplify_eq. apply Ascii.eqb_eq in Hx as ->. done.
  - destruct (PyStr.split_once c s) as [[b a]|]; [|done].
    intros ?; simplify_eq. destruct (IH b eq_refl) as [Hb ->].
    split; [|done]. rewrite contains_char_cons, Ascii.eqb_sym, Hx. done.
Qed.

Lemma split_once_None_inv c s :
  PyStr.split_once c s = None → PyStr.contains (String c "") s = false.
Proof. drop_unused.
  induction s as [|x s IH]; [done|]. cbn [PyStr.split_once].
  destruct (Ascii.eqb x c) eqn:Hx; [done|].
  destruct (PyStr.split_once c s) as [[b a]|]; [done|]. intros _.
  rewrite contains_char_cons, Ascii.eqb_sym, Hx. by apply IH.
Qed.

Lemma take_length n s : (String.length (PyStr.take n s) ≤ n)%nat.
Proof. drop_unused.
  revert s. induction n as [|n IH]; intros [|c s]; simpl; try lia.
  specialize (IH s). lia.
Qed.

Lemma length_app_str s t :
  String.length (s +:+ t) = (String.length s + String.length t)%nat.
Proof. drop_unused.
  induction s as [|c s IH]; simpl; [done | by rewrite IH].
Qed.

Lemma time_token_length m :
  is_time_token m → (4 ≤ String.length m ≤ 5)%nat.
Proof. drop_unused.
  intros (h & mi & -> & Hh & Hmi & _).
  rewrite !length_app_str. simpl. lia.
Qed.

Lemma first_time_from_text_token text :
  first_time_from_text text = ""
  ∨ is_time_token (first_time_from_text text).
Proof. drop_unused.
  destruct (first_time_from_text_spec text)
    as [(pre & post & (_ & Htok & _) & _) | [-> _]]; auto.
Qed.

(** The date and the time [split_dt] returns: the time has at most five
    characters; the date has no [T] and no white space around it. *)
Lemma split_dt_Ok v d t :
  split_dt v = Ok (d, t) →
  (String.length t ≤ 5)%nat
  ∧ PyStr.contains "T" d = false
  ∧ PyStr.strip d = d.
Proof. drop_unused.
  unfold split_dt. destruct (negb (truthy v)).
  { intros ?; simplify_eq. simpl. split_and!; [lia|done|done]. }
  destruct v as [| | |s| |]; try done.
  destruct (PyStr.split_once "T" s) as [[d0 t0]|] eqn:Hs;
    intros ?; simplify_eq.
  - apply split_once_before in Hs as [Hd _]. split_and!.
    + exact (take_length 5 (PyStr.strip t0)).
    + by apply contains_char_strip.
    + exact (strip_idemp d0).
  - apply split_once_None_inv in Hs. split_and!.
    + simpl. lia.
    + by apply contains_char_strip.
    + exact (strip_idemp s).
Qed.

Lemma row_from_event_date_time now e container link r :
  row_from_event now e container link = Ok r →
  (String.length (start_time r) ≤ 5)%nat
  ∧ PyStr.contains "T" (start_date r) = false
  ∧ PyStr.strip (start_date r) = start_date r.
Proof.
  unfold row_from_event. intros H.
  apply bind_Ok in H as ([d t] & Hdt & H).
  apply bind_Ok in H as (ticket & _ & H). simplify_eq.
  cbn [start_time start_date fst snd].
  apply split_dt_Ok in Hdt as (Ht & Hd & Hs). split_and!; [|done|done].
  destruct (PyStr.is_empty t); [|done].
  destruct (first_time_from_text_token (flat_text container)) as [-> | Htok].
  - simpl. lia.
  - apply time_token_length in Htok. lia.
Qed.

(** X7. What [split_dt] returns is in a fixed shape: the time has at most
    five characters, the date has no [T] and no white space around it,
    and splitting the date again gives the date back, with no time. *)
Theorem split_dt_result_shape v d t :
  split_dt v = Ok (d, t) →
  (String.length t ≤ 5)%nat
  ∧ PyStr.contains "T" d = false
  ∧ PyStr.strip d = d
  ∧ split_dt (PStr d) = Ok (d, "").
Proof. drop_unused.
  intros H. apply split_dt_Ok in H as (Ht & Hd & Hs).
  split_and!; [done..|].
  rewrite split_dt_text, (split_once_None _ _ Hd). by rewrite Hs.
Qed.

(** X8. The fallback time read from a text is a fixed point of the
    search: it is empty, or an hour:minute token of four or five
    characters, and searching it again returns it unchanged. *)
Theorem first_time_from_text_fixed_point text :
  first_time_from_text (first_time_from_text text)
  = first_time_from_text text
  ∧ (first_time_from_text text = ""
     ∨ (4 ≤ String.length (first_time_from_text text) ≤ 5)%nat).
Proof. drop_unused.
  destruct (first_time_from_text_token text) as [Hnil | Htok].
  { rewrite Hnil. split; [done | by left]. }
  split; [|right; by apply time_token_length].
  set (m := first_time_from_text text) in *.
  assert (time_here m = Some m) as Hhere.
  { apply time_here_spec. exists "". by rewrite app_empty_r. }
  unfold first_time_from_text at 1.
  destruct m as [|c m]; [by apply time_token_nonempty in Htok|].
  cbn [time_search]. by rewrite Hhere.
Qed.

(** Every record of the output accumulator is a record the builder
    returned. *)
Lemma crawl_rows_built pages st :
  crawl pages = Ok st → ∀ r, r ∈ rows st → is_built r.
Proof.
  unfold crawl. intros H. apply bind_Ok in H as (st1 & H1 & H2).
  assert ((∀ r, r ∈ rows st1 → is_built r)
          ∧ ∀ l r, series_fallback st1 !! l = Some r → is_built r)
    as [Hrows1 Hfb1].
  { eapply (for_each_invariant listing_page
              (fun s => (∀ r, r ∈ rows s → is_built r)
                        ∧ ∀ l r, series_fallback s !! l = Some r →
                                 is_built r));
      [| |exact H1].
    - intros s n s' Hs Hpage. unfold listing_page in Hpage.
      destruct (goto_listing n) as [soup|]; [|by simplify_eq].
      eapply (for_each_invariant (listing_block soup)
                (fun s => (∀ r, r ∈ rows s → is_built r)
                          ∧ ∀ l r, series_fallback s !! l = Some r →
                                   is_built r));
        [|exact Hs|exact Hpage].
      intros s0 b s0' [Hr0 Hf0] Hb. apply listing_block_cases in Hb.
      simpl in Hb.
      destruct Hb as [[-> _] | (_ & _ & r0 & Hbuilt & ->)]; [done|].
      assert (is_built r0) as Hr by (unfold is_built; eauto 6).
      destruct (is_series r0 _); simpl; split.
      + done.
      + intros l r [[_ <-] | [_ Hl]]%lookup_insert_Some; eauto.
      + intros r [? | ->%list_elem_of_singleton]%elem_of_app; auto.
      + done.
    - split; [by intros r ?%elem_of_nil | done]. }
  unfold series_phase in H2.
  cut (series_fallback st = series_fallback st1
       ∧ ∀ r, r ∈ rows st → is_built r); [by intros [_ ?]|].
  eapply (for_each_invariant series_step
            (fun s => series_fallback s = series_fallback st1
                      ∧ ∀ r, r ∈ rows s → is_built r));
    [| |exact H2].
  - intros s url s' [Hf Hrows] Hstep.
    apply series_step_cases in Hstep as (_ & Hf' & _ & Hc).
    split; [congruence|].
    assert (∀ r, r ∈ rows (emit_fallback url s) → is_built r) as Hemit.
    { unfold emit_fallback. rewrite Hf.
      destruct (series_fallback st1 !! url) as [fb|] eqn:Hfb; [|done].
      simpl. intros r [? | ->%list_elem_of_singleton]%elem_of_app; eauto. }
    destruct (goto_series url) as [soup|]; [|by subst s'].
    destruct (expansion soup url) as [|b0 q] eqn:Hexp; [by subst s'|].
    destruct Hc as (new & Hnew & Hbuilt). rewrite Hnew.
    intros r [Hr | Hr]%elem_of_app; [auto|].
    destruct (Forall2_elem_r _ _ _ _ Hbuilt Hr) as (b & _ & [now Hb]).
    unfold is_built. eauto 6.
  - done.
Qed.

(** X9. In every record of the table returned, the time has at most five
    characters, and the date has no [T] and no white space around it. *)
Theorem table_rows_date_time_shape pages table :
  scrape_bilietai_lt pages = Ok table →
  ∀ r, r ∈ table →
       (String.length (start_time r) ≤ 5)%nat
       ∧ PyStr.contains "T" (start_date r) = false
       ∧ PyStr.strip (start_date r) = start_date r.
Proof.
  unfold scrape_bilietai_lt. intros H.
  apply bind_Ok in H as (st & Hcrawl & Hdrop).
  apply drop_duplicates_sublist in Hdrop as [Hsub _].
  intros r Hr.
  destruct (crawl_rows_built pages st Hcrawl r) as (now & e & c & l & Hb).
  { eapply elem_of_sublist; [exact Hr | exact Hsub]. }
  by eapply row_from_event_date_time.
Qed.

(** ** Where the builder returns, and where a run ends empty *)

Lemma split_dt_outcomes v :
  match split_dt v with
  | Ok _ => truthy v = false ∨ ∃ s, v = PStr s
  | Raise TypeError =>
      truthy v = true ∧ ((∃ n, v = PInt n) ∨ ∃ b, v = PBool b)
  | Raise AttributeError =>
      truthy v = true ∧ ((∃ l, v = PList l) ∨ ∃ d, v = PDict d)
  | Raise ValueError => False
  end.
Proof. drop_unused.
  destruct v as [|b|n|s|l|d].
  - simpl. auto.
  - destruct b; simpl; eauto.
  - unfold split_dt. destruct (truthy (PInt n)) eqn:Ht; simpl; eauto.
  - rewrite split_dt_text. eauto.
  - unfold split_dt. destruct (truthy (PList l)) eqn:Ht; simpl; eauto.
  - unfold split_dt. destruct (truthy (PDict d)) eqn:Ht; simpl; eauto.
Qed.

(** The ticket URL: a site-relative path is joined to the site root,
    which the URL library may refuse. *)
Lemma ticket_link_outcomes v :
  let joins :=
    match v with
    | PStr t => PyStr.startswith "/" t = true → is_Some (urljoin site_root t)
    | _ => True
    end in
  match
    match v with
    | PStr t =>
        if PyStr.startswith "/" t then u <- abs_url t ;; Ok (PStr u)
        else Ok (PStr t)
    | PNone => Ok PNone
    | PBool b => Ok (PBool b)
    | PInt n => Ok (PInt n)
    | PList l => Ok (PList l)
    | PDict d => Ok (PDict d)
    end
  with
  | Ok _ => joins
  | Raise x => x = ValueError ∧ ¬ joins
  end.
Proof.
  destruct v as [|b|n|t|l|d]; simpl; try done.
  unfold abs_url. destruct (PyStr.startswith "/" t); simpl; [|done].
  destruct (urljoin site_root t) as [u|]; simpl; [eauto|].
  split; [done|]. intros H. by destruct (H eq_refl).
Qed.

(** X10. The builder returns a record exactly when [startDate] is absent,
    falsy or a text, and the ticket URL is one the URL library joins.  A
    number or [true] for [startDate] makes it raise [TypeError] (the
    test ["T" in s]); a non-empty list or object makes it raise
    [AttributeError] (the calls [s.split] and [s.strip]); and with a
    [startDate] that is absent, falsy or a text, a site-relative ticket
    URL that the URL library rejects makes it raise [ValueError]. *)
Theorem row_from_event_returns_iff now e container link :
  let start := dict_get e "startDate" (PStr "") in
  let splits := truthy start = false ∨ ∃ s, start = PStr s in
  ((∃ r, row_from_event now e container link = Ok r)
   ↔ splits ∧ ticket_url_joins e)
  ∧ (row_from_event now e container link = Raise TypeError
     ↔ truthy start = true ∧ ((∃ n, start = PInt n) ∨ ∃ b, start = PBool b))
  ∧ (row_from_event now e container link = Raise AttributeError
     ↔ truthy start = true
       ∧ ((∃ l, start = PList l) ∨ ∃ d, start = PDict d))
  ∧ (row_from_event now e container link = Raise ValueError
     ↔ splits ∧ ¬ ticket_url_joins e).
Proof.
  intros start splits. subst splits.
  pose proof (split_dt_outcomes start) as Hs.
  pose proof (ticket_link_outcomes
                (dict_get (as_dict (dict_get e "offers" PNone)) "url"
                   (PStr ""))) as Ht.
  cbv zeta in Ht. fold (ticket_url_joins e) in Ht.
  unfold row_from_event. cbv zeta. fold start.
  generalize dependent start. intros start Hs.
  destruct (split_dt start) as [dt|x]; cbn [bind].
  - match type of Ht with
    | match ?m with _ => _ end => destruct m as [tk|x]
    end; cbn [bind].
    + split_and!; (split; [intros H | intros [H1 H2]]);
        try done; try (by eexists); exfalso; outcome_kinds.
    + destruct Ht as [-> Ht].
      split_and!; (split; [intros H | intros [H1 H2]]);
        try done; try (by destruct H); exfalso; outcome_kinds.
  - destruct x; [| |done];
      (split_and!; (split; [intros H | intros [H1 H2]]);
       try done; try (by destruct H); exfalso; outcome_kinds).
Qed.

Lemma listing_pages_unloaded st l :
  (∀ n, n ∈ l → goto_listing n = None) →
  for_each listing_page st l = Ok st.
Proof.
  induction l as [|n l IH]; intros Hl; [done|]. cbn [for_each].
  unfold listing_page at 1. rewrite (Hl n) by (apply elem_of_cons; auto).
  cbn [bind]. apply IH. intros m Hm. apply Hl, elem_of_cons. auto.
Qed.

(** X11. When none of the listing pages asked for can be loaded (or none
    is asked for), the run does not fail: it returns the empty table.
    Iterating the empty set of series links yields nothing. *)
Theorem no_listing_page_gives_empty_table pages :
  set_iter ∅ = [] →
  (∀ n, (1 ≤ n ≤ Z.to_nat pages)%nat → goto_listing n = None) →
  scrape_bilietai_lt pages = Ok [].
Proof.
  intros Hiter Hnone. unfold scrape_bilietai_lt, crawl, listing_phase.
  rewrite listing_pages_unloaded.
  - cbn [bind]. unfold series_phase. simpl series_links.
    by rewrite Hiter.
  - intros n Hn. apply Hnone. apply elem_of_seq in Hn. lia.
Qed.

(** X12. The generator only yields event objects of JSON-LD scripts:
    each pair it yields holds the position of a [script] element of type
    [application/ld+json] of the document and an object whose [@type] is
    the text [Event]. *)
Theorem yielded_blocks_are_events soup b :
  b ∈ iter_event_jsonld soup →
  ∃ n, subtree soup (fst b) = Some n
       ∧ is_jsonld_script n = true
       ∧ assoc "@type" (snd b) = Some (PStr "Event").
Proof. drop_unused.
  unfold iter_event_jsonld. intros Hin.
  apply list_elem_of_In, in_flat_map in Hin as ([p s] & Hs & Hb).
  apply list_elem_of_In, list_elem_of_filter in Hs as [Hscript Hs].
  apply descendants_subtree in Hs. simpl in Hb, Hscript.
  destruct (PyStr.is_empty _); [done|].
  destruct (json_loads _) as [data|]; [|done].
  apply list_elem_of_In, list_elem_of_omap in Hb as (obj & _ & Hobj).
  destruct obj as [| | | | |d]; try done.
  destruct (is_event d) eqn:Hev; [|done]. simplify_eq. simpl.
  exists s. split_and!; [done|done|].
  unfold is_event in Hev.
  destruct (assoc "@type" d) as [[| | |t| |]|]; try done.
  by apply String.eqb_eq in Hev as ->.
Qed.

(** * Fragments of the other scrapers *)

(** ** [scrape_compensa]: the year of an event *)

(** X13. The year guessed for a month puts the event at most six months
    before the current month and at most eleven months after it; the
    year is the current one or the next, and it is the next one exactly
    when the month lies more than six months back in the current year. *)
Theorem guess_year_window today_year today_month month_num :
  (1 ≤ month_num ≤ 12)%Z → (1 ≤ today_month ≤ 12)%Z →
  let year := guess_year today_year today_month month_num in
  let ahead := ((12 * year + month_num) - (12 * today_year + today_month))%Z in
  (-6 ≤ ahead ≤ 11)%Z
  ∧ (year = today_year ∨ year = (today_year + 1)%Z)
  ∧ (year = (today_year + 1)%Z ↔ (month_num + 6 < today_month)%Z).
Proof. drop_unused.
  intros Hm Ht. unfold guess_year.
  destruct (Z.ltb_spec (month_num - today_month) (-6)); simpl; lia.
Qed.

(** ** [scrape_siauliuarena]: the date and the time of an event page *)

Lemma date_search_spec s :
  match date_search s with
  | Some m =>
      ∃ pre post, s = pre +:+ m +:+ post ∧ is_date m
        ∧ ∀ pre' m' post', s = pre' +:+ m' +:+ post' → is_date m' →
                           (String.length pre ≤ String.length pre')%nat
  | None => ∀ pre' m' post', s = pre' +:+ m' +:+ post' → ¬ is_date m'
  end.
Proof. drop_unused.
  unfold is_date. induction s as [|c s IH].
  - simpl. intros [|? ?] [|? ?] ? Heq Hfit; simplify_eq; done.
  - cbn [date_search].
    destruct (match_classes date_classes (String c s)) as [[m rest]|] eqn:Hm.
    + apply match_classes_spec in Hm as [Heq Hfit].
      exists "", rest. split_and!; [done|done|]. intros. simpl. lia.
    + assert (∀ m' post', String c s = m' +:+ post' →
                          fits date_classes m' = true → False) as Hnot.
      { intros m' post' Heq Hfit.
        assert (match_classes date_classes (String c s) = Some (m', post'))
          as Hsome by (by apply match_classes_spec).
        congruence. }
      destruct (date_search s) as [m|].
      * destruct IH as (pre & post & -> & Hfit & Hmin).
        exists (String c pre), post. split_and!; [done|done|].
        intros [|c' pre'] m' post' Heq Hfit'.
        -- exfalso. simpl in Heq. by eapply Hnot.
        -- simpl in Heq. simplify_eq. simpl. apply le_n_S. by eapply Hmin.
      * intros [|c' pre'] m' post' Heq Hfit'.
        -- simpl in Heq. by eapply Hnot.
        -- simpl in Heq. simplify_eq. by eapply IH.
Qed.

Lemma time_search_token l m : time_search false l = Some m → is_time_token m.
Proof. drop_unused.
  intros H. pose proof (time_search_spec l "") as Hspec. simpl in Hspec.
  rewrite H in Hspec. by destruct Hspec as (_ & _ & _ & ? & _).
Qed.

Lemma first_time_among_token ls :
  first_time_among ls = "" ∨ is_time_token (first_time_among ls).
Proof. drop_unused.
  induction ls as [|l ls IH]; [by left|]. cbn [first_time_among].
  destruct (time_search false l) as [m|] eqn:Hm; [|done].
  right. by eapply time_search_token.
Qed.

Lemma time_in_lines_seq lines a n :
  (a + n ≤ length lines)%nat →
  time_in_lines lines (seq a n) = first_time_among (take n (drop a lines)).
Proof. drop_unused.
  revert a. induction n as [|n IH]; intros a Hlen; [done|].
  cbn [seq time_in_lines].
  destruct (lines !! a) as [l|] eqn:Hl.
  - rewrite (drop_S _ _ _ Hl). cbn [take first_time_among].
    destruct (time_search false l); [done|]. apply IH. lia.
  - apply lookup_ge_None in Hl. lia.
Qed.

Lemma scan_lines_first_date lines before rest i line d :
  lines = before ++ rest →
  rest !! i = Some line →
  date_search line = Some d →
  (∀ k l, (k < i)%nat → rest !! k = Some l → date_search l = None) →
  scan_lines lines (length before) rest
  = (d, first_time_among (take 5 (drop (length before + i) lines))).
Proof. drop_unused.
  revert before rest. induction i as [|i IH]; intros before rest Hl Hi Hd Hno.
  - destruct rest as [|l0 rest]; [done|]. simpl in Hi. simplify_eq.
    cbn [scan_lines]. rewrite Hd. f_equal.
    rewrite Nat.add_0_r, drop_app_length. cbn [take first_time_among].
    destruct (time_search false line); [done|].
    rewrite time_in_lines_seq by (rewrite length_app; simpl; lia).
    replace (drop (S (length before)) (before ++ line :: rest)) with rest.
    2:{ change (before ++ line :: rest) with (before ++ [line] ++ rest).
        rewrite app_assoc.
        replace (S (length before)) with (length (before ++ [line]))
          by (rewrite length_app; simpl; lia).
        by rewrite drop_app_length. }
    rewrite length_app. simpl.
    destruct (decide (4 ≤ length rest)%nat).
    + f_equal. f_equal. lia.
    + rewrite !take_ge by lia. done.
  - destruct rest as [|l0 rest]; [done|]. simpl in Hi.
    cbn [scan_lines]. rewrite (Hno 0%nat l0) by (done || lia).
    specialize (IH (before ++ [l0]) rest).
    rewrite length_app in IH. simpl in IH.
    replace (S (length before)) with (length before + 1)%nat by lia.
    replace (length before + S i)%nat with (length before + 1 + i)%nat
      by lia.
    apply IH; [|done|done|].
    + by rewrite <- app_assoc.
    + intros k l Hk Hkl. apply (Hno (S k) l); [lia | done].
Qed.

(** X14. On an event page, the date is the first date token of the first
    line that has one, and the time is looked for in that line and in
    the four lines after it, in this order, and nowhere else: a time
    that stands further down is not taken. *)
Theorem siauliu_time_is_near_the_date lines i line d :
  lines !! i = Some line →
  date_search line = Some d →
  (∀ k l, (k < i)%nat → lines !! k = Some l → date_search l = None) →
  date_time_of_lines lines
  = (d, first_time_among (take 5 (drop i lines))).
Proof. drop_unused.
  intros Hi Hd Hno.
  exact (scan_lines_first_date lines [] lines i line d eq_refl Hi Hd Hno).
Qed.

(** X15. What the scan of an event page leaves: the date is empty or a
    date token, and it is empty exactly when no line has a date; the
    time is empty or an hour:minute token; and there is no time without
    a date. *)
Theorem siauliu_no_time_without_date lines :
  let res := date_time_of_lines lines in
  (fst res = "" ∨ is_date (fst res))
  ∧ (snd res = "" ∨ is_time_token (snd res))
  ∧ (fst res = "" → snd res = "")
  ∧ (fst res = "" ↔ ∀ l, l ∈ lines → date_search l = None).
Proof. drop_unused.
  unfold date_time_of_lines. generalize 0%nat as idx.
  cut (∀ rest idx,
         let res := scan_lines lines idx rest in
         (fst res = "" ∨ is_date (fst res))
         ∧ (snd res = "" ∨ is_time_token (snd res))
         ∧ (fst res = "" → snd res = "")
         ∧ (fst res = "" ↔ ∀ l, l ∈ rest → date_search l = None));
    [by intros H idx; apply H|].
  intros rest. induction rest as [|line rest IH]; intros idx.
  - simpl. split_and!; auto. split; [|done]. by intros _ l ?%elem_of_nil.
  - cbn [scan_lines]. destruct (date_search line) as [d|] eqn:Hd.
    + pose proof (date_search_spec line) as Hspec. rewrite Hd in Hspec.
      destruct Hspec as (pre & post & _ & Hdate & _).
      assert (d ≠ "") as Hne by (intros ->; done).
      cbn [fst snd]. split_and!; [by right| |done|].
      * destruct (time_search false line) as [m|] eqn:Hm.
        { right. by eapply time_search_token. }
        generalize (seq (S idx) (Nat.min (idx + 5) (length lines) - S idx)).
        intros js. induction js as [|j js IHjs]; [by left|].
        cbn [time_in_lines]. destruct (lines !! j) as [l|]; [|by left].
        destruct (time_search false l) as [m|] eqn:Hl; [|done].
        right. by eapply time_search_token.
      * split; [done|]. intros Hall.
        rewrite (Hall line) in Hd by (apply elem_of_cons; auto). done.
    + destruct (IH (S idx)) as (H1 & H2 & H3 & H4).
      split_and!; [done|done|done|]. rewrite H4. split.
      * intros Hall l [-> | ?]%elem_of_cons; auto.
      * intros Hall l Hl. apply Hall, elem_of_cons. auto.
Qed.

(** ** [scrape_compensa]: the event-page link of an event *)

Lemma find_slug_Some title_slug links a n j l :
  find_slug title_slug links (seq a n) = Some (j, l) →
  (a ≤ j < a + n)%nat ∧ links !! j = Some l
  ∧ PyStr.contains title_slug l = true.
Proof. drop_unused.
  revert a. induction n as [|n IH]; intros a; [done|].
  cbn [seq find_slug]. destruct (links !! a) as [l0|] eqn:Hl0; [|done].
  destruct (negb (PyStr.is_empty title_slug) && PyStr.contains title_slug l0)
    eqn:Hc.
  - intros ?; simplify_eq. apply andb_true_iff in Hc as [_ Hc].
    split_and!; [lia|lia|done|done].
  - intros H. apply IH in H as (? & ? & ?). split_and!; [lia|lia|done|done].
Qed.

(** The two ways an event gets its link: from the list, at an index
    from [link_idx] on, or, with the list used up, from the title or
    the ticket. *)
Lemma assign_link_cases links title title_slug ticket_link st :
  let res := assign_link links title title_slug ticket_link st in
  last_link_for_title (snd res)
  = <[title := fst res]> (last_link_for_title st)
  ∧ ((∃ j, (link_idx st ≤ j < length links)%nat
           ∧ (j < link_idx st + 8)%nat
           ∧ links !! j = Some (fst res)
           ∧ link_idx (snd res) = S j
           ∧ (j ≠ link_idx st →
              PyStr.contains title_slug (fst res) = true))
     ∨ ((length links ≤ link_idx st)%nat
        ∧ link_idx (snd res) = link_idx st
        ∧ fst res
          = match last_link_for_title st !! title with
            | Some l => if PyStr.is_empty l then ticket_link else l
            | None => ticket_link
            end)).
Proof. drop_unused.
  unfold assign_link.
  destruct (find_slug _ _ _) as [[j l]|] eqn:Hslug.
  - apply find_slug_Some in Hslug as (Hj & Hl & Hc). simpl.
    split; [done|]. left. exists j. split_and!; [lia|lia|lia|done|done|done].
  - destruct (Nat.ltb_spec (link_idx st) (length links)) as [Hlt | Hge].
    + destruct (lookup_lt_is_Some_2 links (link_idx st) Hlt) as [l Hl].
      rewrite Hl. simpl. split; [done|]. left. exists (link_idx st).
      split_and!; [lia|lia|lia|done|done|done].
    + simpl. split; [done|]. right. done.
Qed.

(** The invariant of the loop over the events of a page: [prev] holds
    the titles met so far with the links they got. *)
Lemma assign_links_titles slugify links events st prev :
  NoDup links →
  (∀ ev, ev ∈ events → snd ev ∉ links) →
  (∀ t l, last_link_for_title st !! t = Some l → (t, l) ∈ prev) →
  (∀ t l, (t, l) ∈ prev → l ∈ links →
          ∃ j, (j < link_idx st)%nat ∧ links !! j = Some l) →
  (∀ t t' l, (t, l) ∈ prev → (t', l) ∈ prev → l ∈ links → t = t') →
  ∀ t t' l,
    (t, l) ∈ prev ++ zip (fst <$> events)
                       (assign_links slugify links events st) →
    (t', l) ∈ prev ++ zip (fst <$> events)
                        (assign_links slugify links events st) →
    l ∈ links → t = t'.
Proof. drop_unused.
  intros Hnodup. revert st prev.
  induction events as [|[title ticket] events IH];
    intros st prev Htickets Hlast Hbelow Hpair.
  { simpl. rewrite app_nil_r. exact Hpair. }
  cbn [assign_links fmap list_fmap fst].
  pose proof (assign_link_cases links title (slugify title) ticket st)
    as Hcases.
  destruct (assign_link links title (slugify title) ticket st)
    as [e st'] eqn:Hstep.
  cbn [fst snd] in Hcases. destruct Hcases as [Hmap Hcases].
  cbn [zip zip_with].
  change (prev ++ (title, e) :: ?l) with (prev ++ [(title, e)] ++ l).
  rewrite app_assoc.
  assert (e ∈ links →
          (∃ j, (j < link_idx st')%nat ∧ links !! j = Some e)
          ∧ ∀ t', (t', e) ∈ prev → t' = title) as Hnew.
  { intros He. destruct Hcases as [(j & Hj & _ & Hl & Hidx & _)
                                  | (Hge & Hidx & Hfb)].
    - split; [exists j; split; [lia | done]|].
      intros t' Hprev. destruct (Hbelow t' e Hprev He) as (j0 & Hj0 & Hl0).
      pose proof (NoDup_lookup _ _ _ _ Hnodup Hl Hl0). lia.
    - assert (ticket ∉ links) as Hticket.
      { apply (Htickets (title, ticket)), elem_of_cons. auto. }
      destruct (last_link_for_title st !! title) as [l0|] eqn:Hl0;
        [|by subst e].
      destruct (PyStr.is_empty l0); [by subst e|]. subst e.
      apply Hlast in Hl0. split.
      + rewrite Hidx. by eapply Hbelow.
      + intros t' Hprev. by eapply Hpair. }
  apply IH.
  - intros ev Hev. apply Htickets, elem_of_cons. auto.
  - rewrite Hmap. intros t l [[-> ->] | [_ Hl]]%lookup_insert_Some.
    + apply elem_of_app. right. by apply list_elem_of_singleton.
    + apply elem_of_app. left. auto.
  - intros t l [Hprev | Hl%list_elem_of_singleton]%elem_of_app Hin.
    + destruct (Hbelow t l Hprev Hin) as (j & Hj & Hl). exists j.
      split; [|done].
      destruct Hcases as [(j' & ? & _ & _ & -> & _) | (_ & -> & _)]; lia.
    + simplify_eq. by apply Hnew.
  - intros t t' l [Hp | Hl%list_elem_of_singleton]%elem_of_app
      [Hp' | Hl'%list_elem_of_singleton]%elem_of_app Hin; simplify_eq.
    + by eapply Hpair.
    + by apply Hnew.
    + symmetry. by apply Hnew.
    + done.
Qed.

(** X16. One event of a page: [link_idx] stays within the list and
    never moves back.  While links are left, the event gets one of them,
    from the next eight, and [link_idx] moves past it; a link other
    than the next one contains the slug of the title.  The title and
    the ticket link are used only once the links of the page are used
    up. *)
Theorem assign_link_draws_from_the_list links title title_slug ticket st :
  (link_idx st ≤ length links)%nat →
  let res := assign_link links title title_slug ticket st in
  (link_idx st ≤ link_idx (snd res) ≤ length links)%nat
  ∧ last_link_for_title (snd res) !! title = Some (fst res)
  ∧ ((link_idx st < length links)%nat →
     ∃ j, (link_idx st ≤ j < link_idx st + 8)%nat
          ∧ links !! j = Some (fst res)
          ∧ link_idx (snd res) = S j
          ∧ (j ≠ link_idx st →
             PyStr.contains title_slug (fst res) = true))
  ∧ (link_idx st = length links →
     link_idx (snd res) = link_idx st
     ∧ (fst res = ticket
        ∨ last_link_for_title st !! title = Some (fst res))).
Proof. drop_unused.
  intros Hle.
  pose proof (assign_link_cases links title title_slug ticket st) as H.
  cbv zeta in *.
  destruct (assign_link links title title_slug ticket st) as [e st'].
  cbn [fst snd] in *. destruct H as [Hmap Hcases].
  split; [|split; [|split]].
  - destruct Hcases as [(j & ? & _ & _ & -> & _) | (_ & -> & _)]; lia.
  - rewrite Hmap. apply lookup_insert_eq.
  - intros Hlt. destruct Hcases as [(j & ? & ? & ? & ? & ?) | (? & _)];
      [|lia].
    exists j. split_and!; [lia|lia|done|done|done].
  - intros Heq. destruct Hcases as [(j & ? & _) | (_ & Hidx & Hfb)]; [lia|].
    split; [done|]. rewrite Hfb.
    destruct (last_link_for_title st !! title) as [l|]; [|by left].
    destruct (PyStr.is_empty l); [by left | by right].
Qed.

Lemma collect_links_NoDup href_path hrefs seen :
  NoDup (collect_links href_path hrefs seen)
  ∧ ∀ l, l ∈ collect_links href_path hrefs seen → l ∉ seen.
Proof. drop_unused.
  revert seen. induction hrefs as [|href hrefs IH]; intros seen.
  { split; [constructor | by intros l ?%elem_of_nil]. }
  cbn [collect_links].
  destruct (href_path (PyStr.strip href)) as [path|]; [|apply IH].
  case_bool_decide as Hseen; [apply IH|].
  destruct (IH ({[("https://www.compensakoncertusale.lt" +:+ path)]}
                  ∪ seen)) as [Hnd Hout].
  split.
  - constructor; [|done]. intros Hin. apply Hout in Hin.
    apply Hin, elem_of_union. left. by apply elem_of_singleton.
  - intros l [-> | Hin]%elem_of_cons; [done|]. apply Hout in Hin.
    intros ?. apply Hin, elem_of_union. by right.
Qed.

(** X17. Over the events of one page, a link of the page's list is
    never given to two events with different titles, the ticket links
    being no links of the list. *)
Theorem page_links_are_not_shared_between_titles slugify href_path hrefs
    events i i' t t' ticket ticket' l :
  let links := event_page_links href_path hrefs in
  (∀ ev, ev ∈ events → snd ev ∉ links) →
  events !! i = Some (t, ticket) →
  events !! i' = Some (t', ticket') →
  assign_links slugify links events (LinkState 0 ∅) !! i = Some l →
  assign_links slugify links events (LinkState 0 ∅) !! i' = Some l →
  l ∈ links →
  t = t'.
Proof. drop_unused.
  intros links Htickets Hi Hi' Hl Hl' Hin.
  assert (NoDup links) as Hnodup by apply collect_links_NoDup.
  assert (∀ k tk tick, events !! k = Some (tk, tick) →
            assign_links slugify links events (LinkState 0 ∅) !! k = Some l →
            (tk, l) ∈ [] ++ zip (fst <$> events)
                           (assign_links slugify links events
                              (LinkState 0 ∅))) as Hzip.
  { intros k tk tick Hk Hkl. simpl.
    apply (list_elem_of_lookup_2 _ k), lookup_zip_with_Some.
    exists tk, l. split_and!; [done| |done].
    by rewrite list_lookup_fmap, Hk. }
  eapply (assign_links_titles slugify links events (LinkState 0 ∅) []);
    [done|done| | | |by eapply Hzip|by eapply Hzip|done].
  - intros ? ? H. simpl in H. by rewrite lookup_empty in H.
  - by intros ? ? ?%elem_of_nil.
  - by intros ? ? ? ?%elem_of_nil.
Qed.

(** ** [scrape_twinsbet] *)

Lemma has_date_iff s :
  has_date s = true ↔ ∃ pre m post, s = pre +:+ m +:+ post ∧ is_date m.
Proof. drop_unused.
  unfold has_date. pose proof (date_search_spec s) as H.
  destruct (date_search s) as [m|].
  - destruct H as (pre & post & ? & ? & _). split; [eauto 6 | done].
  - split; [done|]. intros (pre & m & post & Heq & Hm).
    by destruct (H pre m post Heq).
Qed.

Lemma has_date_substring a s b :
  has_date s = true → has_date (a +:+ s +:+ b) = true.
Proof. drop_unused.
  rewrite !has_date_iff. intros (pre & m & post & -> & Hm).
  exists (a +:+ pre), m, (post +:+ b). split; [|done].
  by rewrite !app_assoc_str.
Qed.

Lemma fits_prefix ps m post w rest :
  fits ps m = true →
  Forall (fun p => p " "%char = false) ps →
  m +:+ post = w +:+ String " " rest →
  ∃ r, w = m +:+ r.
Proof. drop_unused.
  revert m w. induction ps as [|p ps IH]; intros m w Hfit Hps Heq.
  - destruct m; [|done]. by exists w.
  - destruct m as [|x m]; [done|]. simpl in Hfit.
    apply andb_true_iff in Hfit as [Hx Hfit].
    apply Forall_cons in Hps as [Hp Hps].
    destruct w as [|y w]; simpl in Heq; simplify_eq; [congruence|].
    destruct (IH m w Hfit Hps) as [r ->]; [done|]. by exists r.
Qed.

Lemma date_classes_no_space :
  Forall (fun p : ascii → bool => p " "%char = false) date_classes.
Proof. drop_unused. repeat constructor. Qed.

Lemma is_date_nonempty m : is_date m → ∃ c m', m = String c m' ∧ c ≠ " "%char.
Proof. drop_unused.
  unfold is_date. destruct m as [|c m]; [done|]. simpl.
  intros [Hc _]%andb_true_iff. exists c, m. split; [done|].
  by intros ->.
Qed.

Lemma has_date_around_space w rest :
  has_date (w +:+ String " " rest) = true →
  has_date w = true ∨ has_date rest = true.
Proof. drop_unused.
  rewrite !has_date_iff. intros (pre & m & post & Heq & Hm).
  revert pre Heq. induction w as [|c w IH]; intros pre Heq.
  - destruct pre as [|x pre]; simpl in Heq.
    + destruct (is_date_nonempty m Hm) as (c & m' & -> & Hc).
      simpl in Heq. by simplify_eq.
    + simplify_eq. right. eauto.
  - destruct pre as [|x pre].
    + left. simpl in Heq. symmetry in Heq.
      destruct (fits_prefix date_classes m post (String c w) rest)
        as [r Hr]; [done | apply date_classes_no_space | done |].
      exists "", m, r. done.
    + simpl in Heq. injection Heq as Hcx Heq. subst x.
      destruct (IH pre) as [(a & m0 & b & -> & ?) | ?]; [done| |by right].
      left. exists (String c a), m0, b. done.
Qed.

Lemma has_date_join ws :
  has_date (PyStr.join " " ws) = true → ∃ w, w ∈ ws ∧ has_date w = true.
Proof. drop_unused.
  induction ws as [|w ws IH]; [done|].
  destruct ws as [|w2 ws].
  - simpl. intros H. exists w. split; [by apply list_elem_of_singleton|done].
  - change (PyStr.join " " (w :: w2 :: ws))
      with (w +:+ String " " (PyStr.join " " (w2 :: ws))).
    intros [H | H]%has_date_around_space.
    + exists w. split; [apply elem_of_cons; auto | done].
    + destruct (IH H) as (w' & ? & ?). exists w'.
      split; [apply elem_of_cons; auto | done].
Qed.

Lemma split_ws_substrings s :
  (∀ w, w ∈ split_ws s → ∃ a b, s = a +:+ w +:+ b)
  ∧ (∀ c s' w ws, s = String c s' → PyStr.is_space c = false →
                  split_ws s = w :: ws → ∃ b, s = w +:+ b).
Proof. drop_unused.
  induction s as [|c s [IH1 IH2]]; [split; [by intros w ?%elem_of_nil|done]|].
  cbn [split_ws]. destruct (PyStr.is_space c) eqn:Hc.
  { split.
    - intros w Hw. destruct (IH1 w Hw) as (a & b & ->).
      by exists (String c a), b.
    - intros c0 s0 w ws ? Hc0. simplify_eq. congruence. }
  destruct s as [|c' s].
  { split.
    - intros w ->%list_elem_of_singleton. by exists "", "".
    - intros c0 s0 w ws ? _ ?. simplify_eq. by exists "". }
  destruct (PyStr.is_space c') eqn:Hc'.
  { split.
    - intros w [-> | Hw]%elem_of_cons.
      + by exists "", (String c' s).
      + destruct (IH1 w Hw) as (a & b & Heq). rewrite Heq.
        by exists (String c a), b.
    - intros c0 s0 w ws ? _ ?. simplify_eq. by exists (String c' s). }
  destruct (split_ws (String c' s)) as [|w0 ws0] eqn:Hsplit.
  { split.
    - intros w ->%list_elem_of_singleton. by exists "", (String c' s).
    - intros c0 s0 w ws ? _ ?. simplify_eq. by exists (String c' s). }
  destruct (IH2 c' s w0 ws0 eq_refl Hc' eq_refl) as [b0 Hb0].
  split.
  - intros w [-> | Hw]%elem_of_cons.
    + exists "", b0. simpl. by rewrite <- Hb0.
    + destruct (IH1 w) as (a & b & Heq); [apply elem_of_cons; auto|].
      rewrite Heq. by exists (String c a), b.
  - intros c0 s0 w ws ? _ ?. simplify_eq. exists b0. simpl.
    by rewrite <- Hb0.
Qed.

(** The name made of a valid text holds no date. *)
Lemma valid_name_has_no_date s :
  is_valid_name_text s = true →
  has_date (PyStr.join " " (split_ws (PyStr.strip s))) = false.
Proof. drop_unused.
  unfold is_valid_name_text.
  destruct (PyStr.is_empty s || PyStr.is_empty (PyStr.strip s)); [done|].
  destruct (PyStr.contains "Price from" (PyStr.strip s)
            || PyStr.contains "Buy a ticket" (PyStr.strip s)); [done|].
  destruct (existsb _ _); [done|].
  destruct (has_date (PyStr.strip s)) eqn:Hdate; [done|]. intros _.
  destruct (has_date (PyStr.join _ _)) eqn:Hj; [|done].
  apply has_date_join in Hj as (w & Hw & Hd).
  destruct (proj1 (split_ws_substrings (PyStr.strip s)) w Hw)
    as (a & b & Heq).
  rewrite Heq, has_date_substring in Hdate; done.
Qed.

Lemma digit_no_space c : PyStr.is_digit c = true → PyStr.is_space c = false.
Proof. drop_unused.
  unfold PyStr.is_digit, PyStr.is_space, PyStr.in_range.
  intros [H1 H2]%andb_true_iff.
  apply Nat.leb_le in H1, H2. apply orb_false_iff. split.
  - apply andb_false_iff. right. apply Nat.leb_gt. lia.
  - apply andb_false_iff. right. apply Nat.leb_gt. lia.
Qed.

Lemma star_space_blank w :
  Re.matches (Re.Star (Re.Cls PyStr.is_space)) w → blank w = true.
Proof. drop_unused.
  induction w as [|c w IH]; [done|]. intros H.
  apply matches_star_cons_inv in H as (u & v & -> & Hc & Hv).
  inversion Hc; subst. simpl in *. apply andb_true_iff. auto.
Qed.

Lemma lstrip_blank ws t : blank ws = true → PyStr.lstrip (ws +:+ t) = PyStr.lstrip t.
Proof. drop_unused.
  induction ws as [|c ws IH]; [done|]. simpl.
  intros [Hc Hws]%andb_true_iff. rewrite Hc. auto.
Qed.

Lemma rstrip_blank t ws : blank ws = true → PyStr.rstrip (t +:+ ws) = PyStr.rstrip t.
Proof. drop_unused.
  intros Hws. induction t as [|c t IH].
  - simpl. induction ws as [|x ws IHws]; [done|]. simpl in *.
    apply andb_true_iff in Hws as [Hx Hws]. by rewrite IHws, Hx.
  - simpl. by rewrite IH.
Qed.

(** The text of a time node, stripped, is two digits, a colon and two
    digits. *)
Lemma time_line_strip s :
  Re.fullmatch time_line_re s = true →
  fits clock_classes (PyStr.strip s) = true.
Proof. drop_unused.
  rewrite fullmatch_matches. unfold time_line_re, Re.digit, Re.chr.
  intros (ws1 & ? & -> & H1 & (? & ? & -> & Hc1 & (? & ? & -> & Hc2 &
    (? & ? & -> & Hc & (? & ? & -> & Hc3 & (? & ws2 & -> & Hc4 & H2)
    %matches_seq_inv)%matches_seq_inv)%matches_seq_inv)%matches_seq_inv)
    %matches_seq_inv)%matches_seq_inv.
  inversion Hc1 as [|p1 c1 Hd1| | | | |]; subst.
  inversion Hc2 as [|p2 c2 Hd2| | | | |]; subst.
  inversion Hc as [|p c Hd| | | | |]; subst.
  inversion Hc3 as [|p3 c3 Hd3| | | | |]; subst.
  inversion Hc4 as [|p4 c4 Hd4| | | | |]; subst.
  apply star_space_blank in H1, H2. apply Ascii.eqb_eq in Hd. subst c.
  unfold PyStr.strip. rewrite (lstrip_blank _ _ H1). simpl.
  rewrite (digit_no_space _ Hd1).
  change (String c1 (String c2 (String ":" (String c3 (String c4 ws2)))))
    with (String c1 (String c2 (String ":" (String c3 (String c4 ""))))
          +:+ ws2).
  rewrite (rstrip_blank _ _ H2). simpl.
  rewrite (digit_no_space _ Hd4). simpl. rewrite !andb_false_r.
  by rewrite Hd1, Hd2, Hd3, Hd4.
Qed.

Lemma find_string_Some f els s :
  find_string f els = Some s → f s = true.
Proof. drop_unused.
  induction els as [|[name attrs cs|cls t] els IH]; simpl; [done|done|].
  destruct (f t) eqn:Hf; [|done]. by intros ?; simplify_eq.
Qed.

Lemma find_tag_Some f els n :
  find_tag f els = Some n → n ∈ els ∧ f n = true.
Proof. drop_unused.
  induction els as [|m els IH]; simpl; [done|].
  destruct (f m) eqn:Hf.
  - intros ?; simplify_eq. split; [by apply elem_of_cons; left | done].
  - intros H. destruct (IH H). split; [by apply elem_of_cons; right|done].
Qed.

(** What the body of the loop puts into a record. *)
Lemma twinsbet_event_fields previous text following e :
  twinsbet_event previous text following = Ok (Some e) →
  is_date (ev_date e)
  ∧ (ev_time e = "" ∨ fits clock_classes (ev_time e) = true)
  ∧ ev_location e = "Twinsbet Arena" ∧ ev_city e = "Vilnius"
  ∧ has_date (ev_name e) = false.
Proof.
  unfold twinsbet_event. pose proof (date_search_spec text) as Hspec.
  destruct (date_search text) as [d|]; [|done].
  destruct Hspec as (_ & _ & _ & Hd & _). intros H.
  apply bind_Ok in H as (u & _ & H). simplify_eq.
  cbn [ev_date ev_time ev_location ev_city ev_name].
  split_and!; [done| |done|done|].
  - destruct (find_string (Re.fullmatch time_line_re) following) as [t|]
      eqn:Ht; [|by left].
    right. by apply time_line_strip, (find_string_Some _ _ _ Ht).
  - destruct (find_string is_valid_name_text previous) as [n|] eqn:Hn;
      [|done].
    by apply valid_name_has_no_date, (find_string_Some _ _ _ Hn).
Qed.

(** The body of the loop raises only what the URL library raises, at
    the [href] of a link element met before the string. *)
Lemma twinsbet_event_raises previous text following x :
  twinsbet_event previous text following = Raise x →
  x = ValueError
  ∧ ∃ a, a ∈ previous ∧ is_a_href a = true
         ∧ urljoin twinsbet_url (href_of a) = None.
Proof.
  unfold twinsbet_event. destruct (date_search text) as [d|]; [|done].
  destruct (find_tag is_a_href previous) as [a|] eqn:Ha; [|done].
  apply find_tag_Some in Ha as [Hin Ha].
  destruct (urljoin twinsbet_url (href_of a)) as [u|] eqn:Hu; [done|].
  simpl. intros ?; simplify_eq. eauto.
Qed.

(** A string with a date gives a record when the body returns. *)
Lemma twinsbet_event_dated previous text following o :
  has_date text = true →
  twinsbet_event previous text following = Ok o → is_Some o.
Proof.
  unfold twinsbet_event, has_date.
  destruct (date_search text) as [d|]; [|done]. intros _ H.
  apply bind_Ok in H as (u & _ & H). simplify_eq. eauto.
Qed.

Lemma twinsbet_walk_cons previous n following events :
  twinsbet_walk previous (n :: following) = Ok events →
  ∃ new rest,
    events = new ++ rest
    ∧ twinsbet_walk (n :: previous) following = Ok rest
    ∧ match n with
      | Str _ text =>
          if has_date text
          then ∃ e, twinsbet_event previous text following = Ok (Some e)
                    ∧ new = [e]
          else new = []
      | Tag _ _ _ => new = []
      end.
Proof.
  cbn [twinsbet_walk]. intros H.
  apply bind_Ok in H as (new & Hnew & H).
  apply bind_Ok in H as (rest & Hrest & H). simplify_eq.
  exists new, rest. split_and!; [done|done|].
  destruct n as [name attrs cs|cls text]; [by simplify_eq|].
  destruct (has_date text) eqn:Hd; [|by simplify_eq].
  apply bind_Ok in Hnew as (o & Ho & Hnew).
  destruct (twinsbet_event_dated _ _ _ _ Hd Ho) as [e ->].
  simplify_eq. eauto.
Qed.

Lemma twinsbet_walk_elem previous following events e :
  twinsbet_walk previous following = Ok events →
  e ∈ events →
  ∃ previous' text following',
    twinsbet_event previous' text following' = Ok (Some e).
Proof.
  revert previous events.
  induction following as [|n following IH]; intros previous events.
  { simpl. intros ?; simplify_eq. by intros ?%elem_of_nil. }
  intros (new & rest & -> & Hrest & Hnew)%twinsbet_walk_cons.
  intros [He | He]%elem_of_app; [|by eapply IH].
  destruct n as [|cls text]; [subst; by apply elem_of_nil in He|].
  destruct (has_date text); [|subst; by apply elem_of_nil in He].
  destruct Hnew as (e0 & He0 & ->).
  apply list_elem_of_singleton in He as ->. eauto.
Qed.

Lemma twinsbet_walk_length previous following events :
  twinsbet_walk previous following = Ok events →
  length events
  = length (filter (fun n => is_dated_string n = true) following).
Proof.
  revert previous events.
  induction following as [|n following IH]; intros previous events.
  { simpl. by intros ?; simplify_eq. }
  intros (new & rest & -> & Hrest & Hnew)%twinsbet_walk_cons.
  rewrite length_app, (IH _ _ Hrest), filter_cons.
  destruct n as [name attrs cs|cls text]; simpl; [by subst|].
  destruct (has_date text); [|by subst].
  by destruct Hnew as (e0 & _ & ->).
Qed.

Lemma twinsbet_walk_raises previous following x :
  twinsbet_walk previous following = Raise x →
  x = ValueError
  ∧ ∃ a, a ∈ previous ++ following ∧ is_a_href a = true
         ∧ urljoin twinsbet_url (href_of a) = None.
Proof.
  revert previous. induction following as [|n following IH];
    intros previous; [done|].
  cbn [twinsbet_walk].
  assert (n :: previous ++ following ⊆ previous ++ n :: following) as Hsub.
  { intros y. rewrite elem_of_cons, !elem_of_app, elem_of_cons. tauto. }
  assert (twinsbet_walk (n :: previous) following = Raise x →
          x = ValueError
          ∧ ∃ a, a ∈ previous ++ n :: following ∧ is_a_href a = true
                 ∧ urljoin twinsbet_url (href_of a) = None) as Hrest.
  { intros (-> & a & Ha & ?)%IH. split; [done|]. exists a.
    split; [by apply Hsub | done]. }
  destruct n as [name attrs cs|cls text]; cbn [bind].
  - destruct (twinsbet_walk _ following) as [rest|y]; [done|].
    simpl. intros ?; simplify_eq. by apply Hrest.
  - destruct (has_date text); cbn [bind].
    + destruct (twinsbet_event previous text following) as [o|y] eqn:Hev;
        cbn [bind].
      * destruct (twinsbet_walk _ following) as [rest|y]; [done|].
        simpl. intros ?; simplify_eq. by apply Hrest.
      * intros ?; simplify_eq.
        apply twinsbet_event_raises in Hev as (-> & a & Ha & ?).
        split; [done|]. exists a. split; [|done].
        apply elem_of_app. by left.
    + destruct (twinsbet_walk _ following) as [rest|y]; [done|].
      simpl. intros ?; simplify_eq. by apply Hrest.
Qed.

Lemma venue_event_eqb_eq a b : venue_event_eqb a b = true ↔ a = b.
Proof. drop_unused.
  unfold venue_event_eqb. split.
  - intros H. repeat (apply andb_true_iff in H as [H ?]).
    destruct a, b. simpl in *.
    repeat match goal with
           | H : String.eqb _ _ = true |- _ => apply String.eqb_eq in H
           end.
    by subst.
  - intros ->. by rewrite !String.eqb_refl.
Qed.

Lemma existsb_venue_event e seen :
  existsb (venue_event_eqb e) seen = true ↔ e ∈ seen.
Proof. drop_unused.
  rewrite existsb_exists. split.
  - intros (x & Hx & ->%venue_event_eqb_eq). by apply list_elem_of_In.
  - intros He. exists e. split; [by apply list_elem_of_In|].
    by apply venue_event_eqb_eq.
Qed.

Lemma drop_equal_rows_spec seen l :
  NoDup (drop_equal_rows seen l)
  ∧ ∀ e, e ∈ drop_equal_rows seen l ↔ e ∈ l ∧ e ∉ seen.
Proof. drop_unused.
  revert seen. induction l as [|x l IH]; intros seen.
  { split; [constructor|]. intros e. split; [by intros ?%elem_of_nil|].
    by intros [?%elem_of_nil _]. }
  cbn [drop_equal_rows].
  destruct (existsb (venue_event_eqb x) seen) eqn:Hx.
  - apply existsb_venue_event in Hx. destruct (IH seen) as [Hnd Hin].
    split; [done|]. intros e. rewrite Hin, elem_of_cons. split.
    + intros [? ?]. auto.
    + intros [[-> | ?] ?]; [done | auto].
  - assert (x ∉ seen) as Hnot.
    { intros ?%existsb_venue_event. congruence. }
    destruct (IH (x :: seen)) as [Hnd Hin]. split.
    + constructor; [|done]. rewrite Hin. intros [_ Hc].
      apply Hc, elem_of_cons. auto.
    + intros e. rewrite !elem_of_cons, Hin, elem_of_cons. split.
      * intros [-> | [? Hc]]; [auto|]. split; [auto|]. intros ?.
        apply Hc. auto.
      * intros [[-> | ?] Hc]; [auto|].
        destruct (venue_event_eqb e x) eqn:Hex.
        { apply venue_event_eqb_eq in Hex. auto. }
        right. split; [done|]. intros [-> | ?]; [|done].
        rewrite (proj2 (venue_event_eqb_eq x x) eq_refl) in Hex. done.
Qed.

(** X18. Every record of the Twinsbet table has a date token as its
    date, a time that is empty or two digits, a colon and two digits,
    and the venue and the city of the arena. *)
Theorem twinsbet_records_shape soup table e :
  scrape_twinsbet soup = Ok table →
  e ∈ table →
  is_date (ev_date e)
  ∧ (ev_time e = "" ∨ fits clock_classes (ev_time e) = true)
  ∧ ev_location e = "Twinsbet Arena" ∧ ev_city e = "Vilnius".
Proof.
  unfold scrape_twinsbet, twinsbet_events. intros H He.
  apply bind_Ok in H as (events & Hev & H). simplify_eq.
  apply drop_equal_rows_spec in He as [He _].
  destruct (twinsbet_walk_elem _ _ _ _ Hev He) as (p & t & f & Hbody).
  apply twinsbet_event_fields in Hbody as (? & ? & ? & ? & _). done.
Qed.

(** X19. No record of the Twinsbet table has a name that holds a date:
    a text with a date in it is never taken as the name of an event. *)
Theorem twinsbet_names_hold_no_date soup table e :
  scrape_twinsbet soup = Ok table →
  e ∈ table → has_date (ev_name e) = false.
Proof.
  unfold scrape_twinsbet, twinsbet_events. intros H He.
  apply bind_Ok in H as (events & Hev & H). simplify_eq.
  apply drop_equal_rows_spec in He as [He _].
  destruct (twinsbet_walk_elem _ _ _ _ Hev He) as (p & t & f & Hbody).
  by apply twinsbet_event_fields in Hbody as (_ & _ & _ & _ & ?).
Qed.

(** X20. The Twinsbet table holds every record the loop has built,
    once: no two of its rows are equal. *)
Theorem twinsbet_table_has_no_duplicates soup table :
  scrape_twinsbet soup = Ok table →
  NoDup table
  ∧ ∃ events, twinsbet_events soup = Ok events
              ∧ ∀ e, e ∈ table ↔ e ∈ events.
Proof.
  unfold scrape_twinsbet. intros H.
  apply bind_Ok in H as (events & Hev & H). simplify_eq.
  destruct (drop_equal_rows_spec [] events) as [Hnd Hin].
  split; [done|]. exists events. split; [done|].
  intros e. rewrite Hin. split; [by intros [? _]|].
  intros ?. split; [done | by intros ?%elem_of_nil].
Qed.

(** X21. Before the duplicates are dropped, every string of the page
    with a date in it gives one record, whether or not a time, a name or
    a link is found for it: the loop never skips a date node.  The loop
    returns when the URL library joins the [href] of every link element
    of the page to the address of the listing; where it does not return
    it raises [ValueError], the URL library having rejected the [href]
    of a link element of the page. *)
Theorem twinsbet_one_record_per_dated_string soup :
  match twinsbet_events soup with
  | Ok events =>
      length events
      = length (filter (fun n => is_dated_string n = true)
                  (snd <$> descendants soup))
  | Raise x =>
      x = ValueError
      ∧ ∃ p a, (p, a) ∈ descendants soup ∧ is_a_href a = true
               ∧ urljoin twinsbet_url (href_of a) = None
  end
  ∧ ((∀ p a, (p, a) ∈ descendants soup → is_a_href a = true →
             is_Some (urljoin twinsbet_url (href_of a))) →
     ∃ events, twinsbet_events soup = Ok events).
Proof.
  assert (∀ x, twinsbet_events soup = Raise x →
               x = ValueError
               ∧ ∃ p a, (p, a) ∈ descendants soup ∧ is_a_href a = true
                        ∧ urljoin twinsbet_url (href_of a) = None)
    as Hraise.
  { unfold twinsbet_events.
    intros x (-> & a & Hin & Ha & Hnone)%twinsbet_walk_raises.
    split; [done|]. simpl in Hin.
    apply list_elem_of_fmap in Hin as ([p a'] & -> & Hin). eauto. }
  split.
  - destruct (twinsbet_events soup) as [events|x] eqn:Hev; [|by apply Hraise].
    by apply (twinsbet_walk_length []).
  - intros Hjoin.
    destruct (twinsbet_events soup) as [events|x] eqn:Hev; [eauto|].
    destruct (Hraise x eq_refl) as (_ & p & a & Hin & Ha & Hnone).
    destruct (Hjoin p a Hin Ha) as [? ?]. congruence.
Qed.
End scrape_bilietai_lt.

(** * The properties at work on the small site *)

Lemma site_cell_equivalence : cell_equivalence Site.cell_eqb.
Proof.
  split_and!.
  - intros [| b | n | s | l | d]; simpl; try done.
    + intros _. apply Z.eqb_refl.
    + intros _. apply Z.eqb_refl.
    + intros _. apply String.eqb_refl.
  - intros [| b1 | n1 | s1 | l1 | d1] [| b2 | n2 | s2 | l2 | d2]; simpl;
      try done; intros _ _; rewrite ?Z.eqb_eq, ?String.eqb_eq; congruence.
  - intros [| b1 | n1 | s1 | l1 | d1] [| b2 | n2 | s2 | l2 | d2]
      [| b3 | n3 | s3 | l3 | d3]; simpl; try done; intros _ _ _;
      rewrite ?Z.eqb_eq, ?String.eqb_eq; congruence.
Qed.

Lemma is_pending_elem l st : is_pending l st = true → l ∈ series_links st.
Proof. unfold is_pending. apply bool_decide_eq_true_1. Qed.

Lemma observe_run {A : Type} (m : result crawl_state) (f : crawl_state → A)
    (d v : A) :
  match m with Ok st => f st | Raise _ => d end = v →
  ∀ st, m = Ok st → f st = v.
Proof. intros H st ->. done. Qed.

(** C8, as it is stated, fails.  On the site, the festival and the tour are
    both pending series after listing page 1; the festival's page lists an
    occurrence whose link resolves to the tour's page, so the series phase
    appends a record that carries the link of the pending series "tour". *)
Lemma link_roles_not_exclusive_after_expansion :
  ¬ (∀ urljoin json_loads utcnow goto_listing goto_series set_iter
       pages st,
        crawl urljoin json_loads utcnow goto_listing goto_series set_iter
          pages = Ok st →
        link_roles_exclusive st).
Proof.
  intros Hclaim.
  set (tour_night :=
         Row (PStr "Tour night") (PStr "Arena") (PStr "") "2025-06-01" "20:00"
           (Site.tickets "tour-200") (PStr "https://www.bilietai.lt/buy/1")
           "2025-04-01T08:00:00Z").
  destruct (crawl Site.urljoin Site.json_loads Site.utcnow Site.goto_listing
              Site.goto_series Site.set_iter 1) as [st|e] eqn:Hrun;
    [|by vm_compute in Hrun].
  assert (rows st !! 2%nat = Some tour_night) as Hrow.
  { eapply (observe_run _ (fun st => rows st !! 2%nat) None); [|exact Hrun].
    by vm_compute. }
  assert (is_pending (Site.tickets "tour-200") st = true) as Hpending.
  { eapply (observe_run _ (is_pending (Site.tickets "tour-200")) false);
      [|exact Hrun].
    by vm_compute. }
  apply list_elem_of_lookup_2 in Hrow.
  apply is_pending_elem in Hpending.
  apply (Hclaim _ _ _ _ _ _ _ _ Hrun tour_night Hrow); [done | exact Hpending].
Qed.

(** C1, as it is stated, fails.  The card of the page has one link, whose
    [href] is "//[/eng/tickets/a-1": it starts with a slash and holds the
    path of an event page, so the resolver hands it to the URL library,
    which rejects it; the exception leaves the resolver, which returns
    nothing for the block. *)
Lemma resolver_raises_on_rejected_href :
  ¬ (∀ urljoin json_loads soup b,
        b ∈ iter_event_jsonld json_loads soup →
        ∃ res, find_container_and_event_link urljoin soup (fst b) = Ok res).
Proof.
  intros Hclaim.
  assert (Samples.rejected_block
          ∈ iter_event_jsonld Site.json_loads Samples.rejected_page) as Hin.
  { apply (list_elem_of_lookup_2 _ 0%nat). vm_compute. reflexivity. }
  destruct (Hclaim Site.urljoin Site.json_loads Samples.rejected_page
              Samples.rejected_block Hin) as [res Hres].
  by vm_compute in Hres.
Qed.

(** The resolver on the opera card of listing page 1: the card is the
    nearest ancestor with a single detail link. *)
Lemma resolver_witness :
  is_Some (subtree Site.page1 (fst Site.opera_block))
  ∧ find_container_and_event_link Site.urljoin Site.page1
      (fst Site.opera_block)
    = Ok (Some [0; 0; 0]%nat, "https://www.bilietai.lt/eng/tickets/opera-1")
  ∧ resolves Site.urljoin Site.page1 (fst Site.opera_block)
      (Some [0; 0; 0]%nat, "https://www.bilietai.lt/eng/tickets/opera-1").
Proof.
  assert (is_Some (subtree Site.page1 (fst Site.opera_block))) as Hvalid.
  { vm_compute. eauto. }
  assert (find_container_and_event_link Site.urljoin Site.page1
            (fst Site.opera_block)
          = Ok (Some [0; 0; 0]%nat,
                "https://www.bilietai.lt/eng/tickets/opera-1"))
    as Hres.
  { vm_compute. reflexivity. }
  split; [exact Hvalid|]. split; [exact Hres|].
  pose proof (proj1 (resolver_returns_the_unambiguous_link Site.urljoin
                       Site.page1 (fst Site.opera_block) Hvalid)) as Hspec.
  exact (proj1 Hspec).
Defined.

(** The whole run over three listing pages returns a table. *)
Lemma final_table_witness :
  ∃ table,
    scrape_bilietai_lt Site.urljoin Site.json_loads Site.utcnow
      Site.goto_listing Site.goto_series Site.set_iter Site.cell_eqb 3
    = Ok table
    ∧ length table = 5%nat
    ∧ ∀ i j ri rj, table !! i = Some ri → table !! j = Some rj →
                   same_key Site.cell_eqb ri rj = true → i = j.
Proof.
  destruct (scrape_bilietai_lt Site.urljoin Site.json_loads Site.utcnow
              Site.goto_listing Site.goto_series Site.set_iter Site.cell_eqb 3)
    as [table|e] eqn:Hrun; [|by vm_compute in Hrun].
  exists table. split; [reflexivity|]. split.
  - assert (match scrape_bilietai_lt Site.urljoin Site.json_loads Site.utcnow
                    Site.goto_listing Site.goto_series Site.set_iter
                    Site.cell_eqb 3 with
            | Ok t => length t
            | Raise _ => 0%nat
            end = 5%nat) as Hlen by (by vm_compute).
    by rewrite Hrun in Hlen.
  - destruct (final_table_keys_unique _ _ _ _ _ _ _ _ _
                site_cell_equivalence Hrun) as (st & _ & _ & _ & Huniq & _).
    exact Huniq.
Defined.

(** A card with a venue whose text holds the phrase "Different venues":
    its record becomes the fallback of a pending series. *)
Lemma series_classification_witness :
  ∃ r link,
    resolved_link Site.urljoin Samples.marker_page Samples.marker_block = link
    ∧ link ≠ ""
    ∧ (link ∉ seen_event_pages initial_state)
    ∧ row_from_event Site.urljoin (Site.utcnow 0) (snd Samples.marker_block)
        (resolved_container Site.urljoin Samples.marker_page
           Samples.marker_block) link
      = Ok r
    ∧ location r = PStr "Arena"
    ∧ resolved_container Site.urljoin Samples.marker_page Samples.marker_block
      = Some Samples.marker_card
    ∧ container_string Samples.marker_card "Tour night. Different venues"
    ∧ listing_block Site.urljoin Site.utcnow Samples.marker_page
        initial_state Samples.marker_block
      = Ok (CrawlState [] ({[link]} ∪ ∅) (<[link := r]> ∅) ({[link]} ∪ ∅) 1).
Proof.
  destruct (row_from_event Site.urljoin (Site.utcnow 0)
              (snd Samples.marker_block)
              (resolved_container Site.urljoin Samples.marker_page
                 Samples.marker_block)
              (resolved_link Site.urljoin Samples.marker_page
                 Samples.marker_block))
    as [r|e] eqn:Hr; [|by vm_compute in Hr].
  assert (resolved_link Site.urljoin Samples.marker_page Samples.marker_block
          ≠ "") as Hne by (by vm_compute).
  assert (resolved_link Site.urljoin Samples.marker_page Samples.marker_block
          ∉ seen_event_pages initial_state) as Hfresh
    by apply not_elem_of_empty.
  assert (resolved_container Site.urljoin Samples.marker_page
            Samples.marker_block = Some Samples.marker_card) as Hc
    by (vm_compute; reflexivity).
  assert (container_string Samples.marker_card "Tour night. Different venues")
    as Hstr.
  { exists "div", [("class", "card")],
      [Tag "a" [("href", "/eng/tickets/tour-night-210")]
         [Str NavigableString "Tour night. Different venues"];
       Tag "script" [("type", "application/ld+json")]
         [Str Script
            (Site.event_json "Tour night" "2025-06-01T20:00" (Some "Arena")
               Site.buy)]],
      [0; 0]%nat, NavigableString.
    split; [reflexivity|]. split; [|reflexivity].
    apply (list_elem_of_lookup_2 _ 1%nat). vm_compute. reflexivity. }
  assert (location r = PStr "Arena") as Hloc.
  { vm_compute in Hr. by injection Hr as <-. }
  exists r, (resolved_link Site.urljoin Samples.marker_page
               Samples.marker_block).
  split_and!; [reflexivity | exact Hne | exact Hfresh | exact Hr | exact Hloc
              | exact Hc | exact Hstr |].
  destruct (series_classification_routes Site.urljoin Site.utcnow
              Samples.marker_page initial_state Samples.marker_block r
              Hne Hfresh Hr) as (_ & _ & _ & _ & Hmarker & _).
  apply (Hmarker Samples.marker_card "Tour night. Different venues" Hc Hstr).
  vm_compute. reflexivity.
Defined.

Lemma site_set_iter_enumerates : set_iter_enumerates Site.set_iter.
Proof.
  intros s. split; [apply NoDup_elements|].
  intros x. apply elem_of_elements.
Qed.

(** The circus page does not load: in the run over listing page 1 its
    turn appends the cached record, and the run goes on to its end. *)
Lemma render_failure_witness :
  ∃ st1 st fb visited rest s,
    listing_phase Site.urljoin Site.json_loads Site.utcnow Site.goto_listing
      1 initial_state = Ok st1
    ∧ series_phase Site.urljoin Site.json_loads Site.utcnow Site.goto_series
        Site.set_iter st1 = Ok st
    ∧ Site.tickets "circus-300" ∈ series_links st1
    ∧ Site.goto_series (Site.tickets "circus-300") = None
    ∧ Site.set_iter (series_links st1)
      = visited ++ Site.tickets "circus-300" :: rest
    ∧ event_link fb = Site.tickets "circus-300"
    ∧ series_step Site.urljoin Site.json_loads Site.utcnow Site.goto_series
        s (Site.tickets "circus-300")
      = Ok (append_row fb s)
    ∧ for_each
        (series_step Site.urljoin Site.json_loads Site.utcnow
           Site.goto_series) (append_row fb s) rest
      = Ok st
    ∧ ∃ later, rows st = rows s ++ [fb] ++ later.
Proof.
  destruct (crawl Site.urljoin Site.json_loads Site.utcnow Site.goto_listing
              Site.goto_series Site.set_iter 1) as [st|e] eqn:Hrun;
    [|by vm_compute in Hrun].
  unfold crawl in Hrun. apply bind_Ok in Hrun as (st1 & H1 & H2).
  assert (Site.tickets "circus-300" ∈ series_links st1) as Hin.
  { apply is_pending_elem.
    eapply (observe_run _ (is_pending (Site.tickets "circus-300")) false);
      [|exact H1].
    by vm_compute. }
  destruct (render_failure_emits_fallback Site.urljoin Site.json_loads
              Site.utcnow Site.goto_listing Site.goto_series Site.set_iter
              1 st1 st (Site.tickets "circus-300")
              site_set_iter_enumerates H1 H2 Hin eq_refl)
    as (fb & visited & rest & s & Hsplit & _ & _ & _ & _ & Hlink & Hstep & _
        & Hrest & Hlater & _).
  exists st1, st, fb, visited, rest, s.
  split_and!; [exact H1 | exact H2 | exact Hin | reflexivity | exact Hsplit
              | exact Hlink | exact Hstep | exact Hrest | exact Hlater].
Defined.

(** The festival page loads and lists one qualifying occurrence. *)
Lemma expansion_witness :
  ∃ st1 soup,
    in_series_phase Site.urljoin Site.json_loads Site.utcnow
      Site.goto_listing Site.goto_series 1 st1 [] st1
    ∧ Site.tickets "festival-100" ∈ series_links st1
    ∧ Site.goto_series (Site.tickets "festival-100") = Some soup
    ∧ length (expansion Site.urljoin Site.json_loads soup
                (Site.tickets "festival-100")) = 1%nat
    ∧ ∀ b r,
        b ∈ expansion Site.urljoin Site.json_loads soup
              (Site.tickets "festival-100") →
        built_from Site.urljoin soup b r →
        event_link r ≠ Site.tickets "festival-100"
        ∧ event_link r ≠ "" ∧ truthy (location r) = true.
Proof.
  destruct (listing_phase Site.urljoin Site.json_loads Site.utcnow
              Site.goto_listing 1 initial_state) as [st1|e] eqn:H1;
    [|by vm_compute in H1].
  destruct (Site.goto_series (Site.tickets "festival-100")) as [soup|] eqn:Hgo;
    [|by vm_compute in Hgo].
  assert (in_series_phase Site.urljoin Site.json_loads Site.utcnow
            Site.goto_listing Site.goto_series 1 st1 [] st1) as Hphase.
  { split; [exact H1 | reflexivity]. }
  assert (Site.tickets "festival-100" ∈ series_links st1) as Hin.
  { apply is_pending_elem.
    eapply (observe_run _ (is_pending (Site.tickets "festival-100")) false);
      [|exact H1].
    by vm_compute. }
  destruct (expansion_filters_and_fallback Site.urljoin Site.json_loads
              Site.utcnow Site.goto_listing Site.goto_series 1 st1 [] st1
              (Site.tickets "festival-100") soup Hphase Hin Hgo)
    as (fb & _ & _ & _ & _ & _ & Hrec).
  exists st1, soup. split_and!; [exact Hphase | exact Hin | reflexivity
                                | | exact Hrec].
  vm_compute in Hgo. injection Hgo as <-. by vm_compute.
Defined.

(** The opera is listed on page 1 and again on page 3: the second block is
    dropped by the guard. *)
Lemma seen_link_guard_witness :
  ∃ st1 st2,
    listing_block Site.urljoin Site.utcnow Site.page1 initial_state
      Site.opera_block = Ok st1
    ∧ resolved_link Site.urljoin Site.page1 Site.opera_block ≠ ""
    ∧ listing_reach Site.urljoin Site.json_loads Site.utcnow
        Site.goto_listing st1 st2
    ∧ resolved_link Site.urljoin Site.page3 Site.opera_block
      = resolved_link Site.urljoin Site.page1 Site.opera_block
    ∧ listing_block Site.urljoin Site.utcnow Site.page3 st2 Site.opera_block
      = Ok st2.
Proof.
  destruct (listing_block Site.urljoin Site.utcnow Site.page1 initial_state
              Site.opera_block) as [st1|e] eqn:H1; [|by vm_compute in H1].
  destruct (for_each (listing_page Site.urljoin Site.json_loads Site.utcnow
                        Site.goto_listing) st1 [2%nat])
    as [st2|e] eqn:H2; [|by vm_compute in H2].
  assert (resolved_link Site.urljoin Site.page1 Site.opera_block ≠ "")
    as Hne by (by vm_compute).
  assert (resolved_link Site.urljoin Site.page3 Site.opera_block
          = resolved_link Site.urljoin Site.page1 Site.opera_block)
    as Hsame by (by vm_compute).
  pose proof (listing_reach_pages _ _ _ _ _ _ _ H2) as Hreach.
  exists st1, st2.
  split_and!; [reflexivity | exact Hne | exact Hreach | exact Hsame |].
  exact (proj1 (seen_link_guard Site.urljoin Site.json_loads Site.utcnow
                  Site.goto_listing initial_state Site.page1 Site.opera_block
                  st1 st2 Site.page3 Site.opera_block
                  (reach_here _ _ _ _ _) H1 Hne Hreach Hsame)).
Defined.

(** A date without a time of day, in a container that shows two times. *)
Lemma record_builder_witness :
  ∃ r,
    row_from_event Site.urljoin "2025-04-01T08:00:00Z"
      [("@type", PStr "Event"); ("startDate", PStr "2025-05-01")]
      (Some (Tag "div" []
               [Tag "span" [] [Str NavigableString " Doors 18:30,"];
                Tag "span" [] [Str NavigableString "show 19:00 "]]))
      "https://www.bilietai.lt/eng/tickets/opera-1"
    = Ok r
    ∧ start_date r = "2025-05-01" ∧ start_time r = "18:30".
Proof.
  assert (ticket_url_joins Site.urljoin
            [("@type", PStr "Event"); ("startDate", PStr "2025-05-01")])
    as Hjoin.
  { vm_compute. intros H. discriminate H. }
  destruct (record_builder_date_time Site.urljoin "2025-04-01T08:00:00Z"
              [("@type", PStr "Event"); ("startDate", PStr "2025-05-01")]
              (Some (Tag "div" []
                       [Tag "span" [] [Str NavigableString " Doors 18:30,"];
                        Tag "span" [] [Str NavigableString "show 19:00 "]]))
              "https://www.bilietai.lt/eng/tickets/opera-1"
              "2025-05-01" eq_refl eq_refl eq_refl Hjoin)
    as (r & Hr & _ & _ & _ & Hexample).
  exists r. split; [exact Hr|]. apply Hexample; [reflexivity|].
  vm_compute. reflexivity.
Defined.

(** After the three listing pages of the site. *)
Lemma listing_link_roles_witness :
  ∃ st1,
    listing_phase Site.urljoin Site.json_loads Site.utcnow Site.goto_listing 3
      initial_state = Ok st1
    ∧ link_roles_exclusive st1 ∧ NoDup (row_links st1).
Proof.
  destruct (listing_phase Site.urljoin Site.json_loads Site.utcnow
              Site.goto_listing 3 initial_state) as [st1|e] eqn:H1;
    [|by vm_compute in H1].
  exists st1. split; [reflexivity|].
  destruct (listing_link_roles_exclusive Site.urljoin Site.json_loads
              Site.utcnow Site.goto_listing 3 st1 H1) as (Hex & Hnd & _).
  split; [exact Hex | exact Hnd].
Defined.

(** The fair's page loads but has no metadata block: the cached record is
    appended. *)
Lemma series_links_have_fallback_witness :
  ∃ st1 fb,
    in_series_phase Site.urljoin Site.json_loads Site.utcnow
      Site.goto_listing Site.goto_series 1 st1 [] st1
    ∧ Site.tickets "fair-400" ∈ series_links st1
    ∧ series_fallback st1 !! Site.tickets "fair-400" = Some fb
    ∧ series_step Site.urljoin Site.json_loads Site.utcnow Site.goto_series
        st1 (Site.tickets "fair-400")
      = Ok (append_row fb st1).
Proof.
  destruct (listing_phase Site.urljoin Site.json_loads Site.utcnow
              Site.goto_listing 1 initial_state) as [st1|e] eqn:H1;
    [|by vm_compute in H1].
  destruct (Site.goto_series (Site.tickets "fair-400")) as [soup|] eqn:Hgo;
    [|by vm_compute in Hgo].
  assert (in_series_phase Site.urljoin Site.json_loads Site.utcnow
            Site.goto_listing Site.goto_series 1 st1 [] st1) as Hphase.
  { split; [exact H1 | reflexivity]. }
  assert (Site.tickets "fair-400" ∈ series_links st1) as Hin.
  { apply is_pending_elem.
    eapply (observe_run _ (is_pending (Site.tickets "fair-400")) false);
      [|exact H1].
    by vm_compute. }
  destruct (series_links_have_fallback Site.urljoin Site.json_loads
              Site.utcnow Site.goto_listing Site.goto_series 1 st1 [] st1
              (Site.tickets "fair-400") Hphase Hin)
    as (_ & _ & fb & Hfb & _ & _ & Hnone & _).
  exists st1, fb. split_and!; [exact Hphase | exact Hin | exact Hfb |].
  vm_compute in Hgo. injection Hgo as <-.
  apply (Hnone _ eq_refl); [by vm_compute|].
  intros b Hb. vm_compute in Hb. by apply elem_of_nil in Hb.
Defined.

(** A whole run over a listing page with one block whose [startDate] is a
    number: the exception leaves [row_from_event] and ends the run. *)
Lemma run_raises_on_numeric_start :
  crawl Site.urljoin Site.json_loads Site.utcnow
    (fun _ => Some (Site.page [Site.gala_card])) Site.goto_series
    Site.set_iter 1
  = Raise TypeError.
Proof. by vm_compute. Qed.

(** The URL shapes the resolver accepts. *)
Example detail_link_relative :
  detail_link Site.urljoin "/eng/tickets/koncertas-123"
  = Ok (Some "https://www.bilietai.lt/eng/tickets/koncertas-123").
Proof. by vm_compute. Qed.

Example detail_link_absolute :
  detail_link Site.urljoin "https://www.bilietai.lt/lit/tickets/x-1#dates"
  = Ok (Some "https://www.bilietai.lt/lit/tickets/x-1").
Proof. by vm_compute. Qed.

Example detail_link_other :
  detail_link Site.urljoin "/eng/tickets/visi/page:2/" = Ok None
  ∧ detail_link Site.urljoin "eng/tickets/a-1" = Ok None
  ∧ detail_link Site.urljoin "/eng/tickets/a-" = Ok None.
Proof. by vm_compute. Qed.

(** A reference that the URL library rejects. *)
Example detail_link_rejected :
  detail_link Site.urljoin "//[/eng/tickets/a-1" = Raise ValueError.
Proof. by vm_compute. Qed.

(** Tokens that do not stand between word boundaries are passed over. *)
Example first_time_skips :
  first_time_from_text "a18:30 9:15x 123:45 7:45" = "7:45"
  ∧ first_time_from_text "x 1:23:45" = "1:23"
  ∧ first_time_from_text "no time" = "".
Proof. by vm_compute. Qed.

(** * The further properties at work *)

(** The block of the nested card: the [span] around it has no link, the
    card above has one. *)
Lemma ascent_witness :
  ∃ i n,
    (i < 10)%nat
    ∧ ancestor Samples.nested_page Samples.nested_script i
      = Some ([0; 0; 0]%nat, n)
    ∧ sole_link Site.urljoin n "https://www.bilietai.lt/eng/tickets/opera-1"
    ∧ ∀ j up' n', (j < i)%nat →
        ancestor Samples.nested_page Samples.nested_script j
        = Some (up', n') →
        links_under Site.urljoin n' = Ok [].
Proof.
  apply (ascent_passes_over_empty_levels Site.urljoin Samples.nested_page
           Samples.nested_script 10 [0; 0; 0]%nat
           "https://www.bilietai.lt/eng/tickets/opera-1").
  - vm_compute. eauto.
  - vm_compute. reflexivity.
Defined.

(** The card with two links: its block gets no link. *)
Lemma two_links_witness :
  links_under Site.urljoin Samples.double_card
  = Ok ["https://www.bilietai.lt/eng/tickets/opera-1";
        "https://www.bilietai.lt/eng/tickets/ballet-2"]
  ∧ find_container_and_event_link Site.urljoin Samples.double_page
      Samples.double_script
    = Ok (None, "").
Proof.
  assert (links_under Site.urljoin Samples.double_card
          = Ok ["https://www.bilietai.lt/eng/tickets/opera-1";
                "https://www.bilietai.lt/eng/tickets/ballet-2"]) as Hlinks
    by (vm_compute; reflexivity).
  split; [exact Hlinks|].
  apply (two_links_at_nearest_level_unresolved Site.urljoin
           Samples.double_page Samples.double_script 0 [0; 0; 0]%nat
           Samples.double_card
           ["https://www.bilietai.lt/eng/tickets/opera-1";
            "https://www.bilietai.lt/eng/tickets/ballet-2"]
           "https://www.bilietai.lt/eng/tickets/opera-1"
           "https://www.bilietai.lt/eng/tickets/ballet-2").
  - vm_compute. eauto.
  - intros a n (i & Hanc & Ha & _).
    destruct i as [|[|[|[|i]]]]; vm_compute in Hanc; simplify_eq;
      vm_compute in Ha; done.
  - vm_compute. reflexivity.
  - exact Hlinks.
  - apply (list_elem_of_lookup_2 _ 0%nat). reflexivity.
  - apply (list_elem_of_lookup_2 _ 1%nat). reflexivity.
  - done.
  - intros k up' n' Hk. lia.
  - intros i up' n' _ Hanc.
    destruct i as [|[|[|[|i]]]]; vm_compute in Hanc; simplify_eq;
      eexists; vm_compute; reflexivity.
Defined.

(** The opera card of listing page 1 is the container of its block, and
    the link is the one of the anchor beneath it. *)
Lemma resolved_link_witness :
  ∃ n suffix,
    subtree Site.page1 [0; 0; 0]%nat = Some n
    ∧ suffix ≠ [] ∧ fst Site.opera_block = [0; 0; 0]%nat ++ suffix
    ∧ ((is_a_href n = true
        ∧ detail_link Site.urljoin (href_of n)
          = Ok (Some "https://www.bilietai.lt/eng/tickets/opera-1"))
       ∨ ∃ q a, (q, a) ∈ descendants n ∧ is_a_href a = true
                ∧ detail_link Site.urljoin (href_of a)
                  = Ok (Some "https://www.bilietai.lt/eng/tickets/opera-1")).
Proof.
  apply (resolved_link_is_a_link_of_the_container Site.urljoin Site.page1
           (fst Site.opera_block) [0; 0; 0]%nat
           "https://www.bilietai.lt/eng/tickets/opera-1").
  - vm_compute. eauto.
  - vm_compute. reflexivity.
Defined.

(** The run over three listing pages: every record has a link. *)
Lemma table_rows_have_links_witness :
  ∃ table,
    scrape_bilietai_lt Site.urljoin Site.json_loads Site.utcnow
      Site.goto_listing Site.goto_series Site.set_iter Site.cell_eqb 3
    = Ok table
    ∧ ∀ r, r ∈ table → event_link r ≠ "".
Proof.
  destruct (scrape_bilietai_lt Site.urljoin Site.json_loads Site.utcnow
              Site.goto_listing Site.goto_series Site.set_iter Site.cell_eqb 3)
    as [table|e] eqn:Hrun; [|by vm_compute in Hrun].
  exists table. split; [reflexivity|].
  exact (table_rows_have_links _ _ _ _ _ _ _ _ _ Hrun).
Defined.

(** The same run: the circus and the fair come without a venue, as the
    fallbacks of their series. *)
Lemma table_rows_without_venue_witness :
  ∃ table st,
    scrape_bilietai_lt Site.urljoin Site.json_loads Site.utcnow
      Site.goto_listing Site.goto_series Site.set_iter Site.cell_eqb 3
    = Ok table
    ∧ crawl Site.urljoin Site.json_loads Site.utcnow Site.goto_listing
        Site.goto_series Site.set_iter 3 = Ok st
    ∧ ∀ r, r ∈ table → truthy (location r) = false →
           is_cached_fallback st r.
Proof.
  destruct (scrape_bilietai_lt Site.urljoin Site.json_loads Site.utcnow
              Site.goto_listing Site.goto_series Site.set_iter Site.cell_eqb 3)
    as [table|e] eqn:Hrun; [|by vm_compute in Hrun].
  destruct (table_rows_without_venue_are_fallbacks _ _ _ _ _ _ _ _ _ Hrun)
    as (st & Hcrawl & Hrows).
  exists table, st. split; [reflexivity|]. split; [exact Hcrawl | exact Hrows].
Defined.

(** The same run: the table is a subsequence of the accumulated rows. *)
Lemma table_is_subsequence_witness :
  ∃ table st,
    scrape_bilietai_lt Site.urljoin Site.json_loads Site.utcnow
      Site.goto_listing Site.goto_series Site.set_iter Site.cell_eqb 3
    = Ok table
    ∧ crawl Site.urljoin Site.json_loads Site.utcnow Site.goto_listing
        Site.goto_series Site.set_iter 3 = Ok st
    ∧ table `sublist_of` rows st
    ∧ hd_error table = hd_error (rows st).
Proof.
  destruct (scrape_bilietai_lt Site.urljoin Site.json_loads Site.utcnow
              Site.goto_listing Site.goto_series Site.set_iter Site.cell_eqb 3)
    as [table|e] eqn:Hrun; [|by vm_compute in Hrun].
  destruct (table_is_subsequence_of_rows _ _ _ _ _ _ _ _ _ Hrun)
    as (st & Hcrawl & Hsub & Hhd).
  exists table, st. split; [reflexivity|]. split_and!; assumption.
Defined.

(** A [startDate] with seconds and white space around it. *)
Lemma split_dt_witness :
  split_dt (PStr " 2025-05-01T19:00:00 ") = Ok ("2025-05-01", "19:00")
  ∧ (String.length "19:00" ≤ 5)%nat
  ∧ PyStr.contains "T" "2025-05-01" = false
  ∧ PyStr.strip "2025-05-01" = "2025-05-01"
  ∧ split_dt (PStr "2025-05-01") = Ok ("2025-05-01", "").
Proof.
  assert (split_dt (PStr " 2025-05-01T19:00:00 ") = Ok ("2025-05-01", "19:00"))
    as Hdt by (vm_compute; reflexivity).
  split; [exact Hdt|].
  exact (split_dt_result_shape _ _ _ Hdt).
Defined.

(** The run over three listing pages: the dates and the times of the
    table. *)
Lemma table_rows_date_time_witness :
  ∃ table,
    scrape_bilietai_lt Site.urljoin Site.json_loads Site.utcnow
      Site.goto_listing Site.goto_series Site.set_iter Site.cell_eqb 3
    = Ok table
    ∧ ∀ r, r ∈ table →
           (String.length (start_time r) ≤ 5)%nat
           ∧ PyStr.contains "T" (start_date r) = false
           ∧ PyStr.strip (start_date r) = start_date r.
Proof.
  destruct (scrape_bilietai_lt Site.urljoin Site.json_loads Site.utcnow
              Site.goto_listing Site.goto_series Site.set_iter Site.cell_eqb 3)
    as [table|e] eqn:Hrun; [|by vm_compute in Hrun].
  exists table. split; [reflexivity|].
  exact (table_rows_date_time_shape _ _ _ _ _ _ _ _ _ Hrun).
Defined.

(** With the site down, two listing pages give the empty table. *)
Lemma site_down_witness :
  scrape_bilietai_lt Site.urljoin Site.json_loads Site.utcnow
    Samples.site_down Site.goto_series Site.set_iter Site.cell_eqb 2
  = Ok [].
Proof.
  apply no_listing_page_gives_empty_table.
  - vm_compute. reflexivity.
  - intros n Hn. reflexivity.
Defined.

(** The block of the opera card is yielded for listing page 1. *)
Lemma yielded_block_witness :
  Site.opera_block ∈ iter_event_jsonld Site.json_loads Site.page1
  ∧ ∃ n, subtree Site.page1 (fst Site.opera_block) = Some n
         ∧ is_jsonld_script n = true
         ∧ assoc "@type" (snd Site.opera_block) = Some (PStr "Event").
Proof.
  assert (Site.opera_block ∈ iter_event_jsonld Site.json_loads Site.page1)
    as Hin.
  { apply (list_elem_of_lookup_2 _ 0%nat). vm_compute. reflexivity. }
  split; [exact Hin|].
  exact (yielded_blocks_are_events _ _ _ Hin).
Defined.

(** In November, an event of March is put into the next year. *)
Lemma guess_year_witness :
  let year := guess_year 2025 11 3 in
  let ahead := ((12 * year + 3) - (12 * 2025 + 11))%Z in
  (-6 ≤ ahead ≤ 11)%Z
  ∧ (year = 2025%Z ∨ year = (2025 + 1)%Z)
  ∧ (year = (2025 + 1)%Z ↔ (3 + 6 < 11)%Z).
Proof. apply (guess_year_window 2025 11 3); lia. Defined.

(** The event page: the date of the second line, the time of the
    fourth. *)
Lemma siauliu_witness :
  date_time_of_lines Samples.event_lines
  = ("2025-05-01",
     first_time_among (take 5 (drop 1 Samples.event_lines))).
Proof.
  apply (siauliu_time_is_near_the_date Samples.event_lines 1
           "Data: 2025-05-01" "2025-05-01").
  - reflexivity.
  - vm_compute. reflexivity.
  - intros k l Hk Hl. destruct k as [|k]; [|lia].
    simpl in Hl. simplify_eq. vm_compute. reflexivity.
Defined.

(** The first event of the Compensa page gets the first link. *)
Lemma assign_link_witness :
  let links := event_page_links Samples.href_path Samples.hrefs in
  let res := assign_link links "Jazz" "jazz" "https://www.bilietai.lt/jazz"
               (LinkState 0 ∅) in
  (0 ≤ link_idx (snd res) ≤ length links)%nat
  ∧ last_link_for_title (snd res) !! "Jazz" = Some (fst res)
  ∧ ((0 < length links)%nat →
     ∃ j, (0 ≤ j < 0 + 8)%nat
          ∧ links !! j = Some (fst res)
          ∧ link_idx (snd res) = S j
          ∧ (j ≠ 0%nat → PyStr.contains "jazz" (fst res) = true))
  ∧ (0%nat = length links →
     link_idx (snd res) = 0%nat
     ∧ (fst res = "https://www.bilietai.lt/jazz"
        ∨ (∅ : gmap string string) !! "Jazz" = Some (fst res))).
Proof.
  apply (assign_link_draws_from_the_list
           (event_page_links Samples.href_path Samples.hrefs) "Jazz" "jazz"
           "https://www.bilietai.lt/jazz" (LinkState 0 ∅)).
  simpl. lia.
Defined.

(** The Compensa page: the first and the third event share the link of
    the jazz page, and both are called Jazz. *)
Lemma page_links_witness :
  assign_links Samples.slugify
    (event_page_links Samples.href_path Samples.hrefs) Samples.events
    (LinkState 0 ∅)
  = [Samples.jazz_link; Samples.rock_link; Samples.jazz_link]
  ∧ "Jazz" = "Jazz".
Proof.
  split; [vm_compute; reflexivity|].
  apply (page_links_are_not_shared_between_titles Samples.slugify
           Samples.href_path Samples.hrefs Samples.events 0 2
           "Jazz" "Jazz" "https://www.bilietai.lt/jazz"
           "https://www.bilietai.lt/jazz-2" Samples.jazz_link).
  - assert (event_page_links Samples.href_path Samples.hrefs
            = [Samples.jazz_link; Samples.rock_link]) as ->
      by (vm_compute; reflexivity).
    intros ev Hev Hin.
    repeat (apply elem_of_cons in Hev as [-> | Hev]);
      [..|by apply elem_of_nil in Hev];
      repeat (apply elem_of_cons in Hin as [Hin | Hin];
              [vm_compute in Hin; discriminate|]);
      by apply elem_of_nil in Hin.
  - reflexivity.
  - reflexivity.
  - vm_compute. reflexivity.
  - vm_compute. reflexivity.
  - apply (list_elem_of_lookup_2 _ 0%nat). vm_compute. reflexivity.
Defined.

(** The Twinsbet listing gives one record. *)
Lemma twinsbet_records_witness :
  scrape_twinsbet Site.urljoin Samples.twinsbet_page
  = Ok [VenueEvent "Big Show" "Twinsbet Arena" "Vilnius" "2025-05-01" "19:00"
          "https://twinsbetarena.lt/en/events/show-1"]
  ∧ is_date "2025-05-01"
  ∧ ("19:00" = "" ∨ fits clock_classes "19:00" = true)
  ∧ "Twinsbet Arena" = "Twinsbet Arena" ∧ "Vilnius" = "Vilnius".
Proof.
  assert (scrape_twinsbet Site.urljoin Samples.twinsbet_page
          = Ok [VenueEvent "Big Show" "Twinsbet Arena" "Vilnius" "2025-05-01"
                  "19:00" "https://twinsbetarena.lt/en/events/show-1"])
    as Hrun by (vm_compute; reflexivity).
  split; [exact Hrun|].
  apply (twinsbet_records_shape Site.urljoin Samples.twinsbet_page _
           (VenueEvent "Big Show" "Twinsbet Arena" "Vilnius" "2025-05-01"
              "19:00" "https://twinsbetarena.lt/en/events/show-1") Hrun).
  apply list_elem_of_singleton. reflexivity.
Defined.

(** The name of the record is the text of the anchor; the label [Date]
    and the date itself are passed over. *)
Lemma twinsbet_names_witness :
  scrape_twinsbet Site.urljoin Samples.twinsbet_page
  = Ok [VenueEvent "Big Show" "Twinsbet Arena" "Vilnius" "2025-05-01" "19:00"
          "https://twinsbetarena.lt/en/events/show-1"]
  ∧ has_date "Big Show" = false.
Proof.
  assert (scrape_twinsbet Site.urljoin Samples.twinsbet_page
          = Ok [VenueEvent "Big Show" "Twinsbet Arena" "Vilnius" "2025-05-01"
                  "19:00" "https://twinsbetarena.lt/en/events/show-1"])
    as Hrun by (vm_compute; reflexivity).
  split; [exact Hrun|].
  apply (twinsbet_names_hold_no_date Site.urljoin Samples.twinsbet_page _
           (VenueEvent "Big Show" "Twinsbet Arena" "Vilnius" "2025-05-01"
              "19:00" "https://twinsbetarena.lt/en/events/show-1") Hrun).
  apply list_elem_of_singleton. reflexivity.
Defined.

(** The table of the Twinsbet listing has no two equal rows. *)
Lemma twinsbet_no_duplicates_witness :
  ∃ table,
    scrape_twinsbet Site.urljoin Samples.twinsbet_page = Ok table
    ∧ NoDup table
    ∧ ∃ events, twinsbet_events Site.urljoin Samples.twinsbet_page = Ok events
                ∧ ∀ e, e ∈ table ↔ e ∈ events.
Proof.
  destruct (scrape_twinsbet Site.urljoin Samples.twinsbet_page)
    as [table|e] eqn:Hrun; [|by vm_compute in Hrun].
  exists table. split; [reflexivity|].
  exact (twinsbet_table_has_no_duplicates Site.urljoin Samples.twinsbet_page
           table Hrun).
Defined.

(** Each string with a date of the Twinsbet listing gives a record. *)
Lemma twinsbet_one_record_witness :
  ∃ events,
    twinsbet_events Site.urljoin Samples.twinsbet_page = Ok events
    ∧ length events = 1%nat.
Proof.
  pose proof (twinsbet_one_record_per_dated_string Site.urljoin
                Samples.twinsbet_page) as [Hlen _].
  destruct (twinsbet_events Site.urljoin Samples.twinsbet_page)
    as [events|e] eqn:Hev; [|by vm_compute in Hev].
  exists events. split; [reflexivity|]. rewrite Hlen. by vm_compute.
Defined.

(** An event object with a ticket URL that the URL library rejects. *)
Lemma row_from_event_outcomes_witness :
  row_from_event Site.urljoin "2025-04-01T08:00:00Z" Samples.rejected_ticket
    None ""
  = Raise ValueError
  ∧ ¬ ticket_url_joins Site.urljoin Samples.rejected_ticket.
Proof.
  assert (¬ ticket_url_joins Site.urljoin Samples.rejected_ticket) as Hno.
  { intros H. vm_compute in H. destruct (H eq_refl) as [u Hu].
    discriminate Hu. }
  split; [|exact Hno].
  pose proof (row_from_event_returns_iff Site.urljoin "2025-04-01T08:00:00Z"
                Samples.rejected_ticket None "") as H.
  cbv zeta in H. destruct H as (_ & _ & _ & H). apply H.
  split; [|exact Hno]. right. by exists "2025-05-01".
Defined.
